(** * Release orchestrator of the expotools [publish-packages] command

    A shallow embedding of the changelog reader ([Changelogs.ts]), of the
    parts of [Git.ts] the command consumes, and of the stateful phase
    pipeline of [publish-packages] (release-type suggestion, manifest
    updates, backup / restore), followed by the properties proved of them.

    JavaScript values are embedded as follows: an optional or nullable
    value is an [option] ([None] stands for [undefined] and [null]), an
    object used as a dictionary is a [gmap] over its own keys (what it
    inherits is told by [Js.inherited]), an array is a [list], a call that
    may raise is a function into [Outcome]. *)

From Stdlib Require Import ZArith String Ascii List Bool Lia.
From stdpp Require Import base option list gmap strings fin_maps.

Local Open Scope string_scope.

(** ** Outcomes of calls that may raise *)

Inductive Outcome (A : Type) : Type :=
| Ok (a : A)
| Thrown (error : string).
Arguments Ok {A} a.
Arguments Thrown {A} error.

Definition bindO {A B : Type} (o : Outcome A) (k : A -> Outcome B) : Outcome B :=
  match o with
  | Ok a => k a
  | Thrown e => Thrown e
  end.

Notation "x <-! c1 ;; c2" := (bindO c1 (fun x => c2))
  (at level 100, c1 at next level, right associativity).

(** JavaScript truthiness of a string: only the empty string is falsy. *)
Definition truthy (s : string) : bool := negb (String.eqb s "").

(** Truthiness of an optional string: [undefined] and [""] are falsy. *)
Definition truthyO (s : option string) : bool :=
  match s with
  | Some t => truthy t
  | None => false
  end.

(** ** Strings as JavaScript splits them *)

Module Js.

(** The strings of the sources are JavaScript strings; here they are the
    bytes of their UTF-8 encoding.  [\s] matches one white space or line
    terminator character: six ASCII ones, and twenty others whose encodings
    take two or three bytes. *)
Definition code (a : ascii) : nat := nat_of_ascii a.

Definition isAsciiSpace (a : ascii) : bool :=
  let n := code a in
  ((n =? 9) || (n =? 10) || (n =? 11) || (n =? 12) || (n =? 13) || (n =? 32))%nat.

(** U+00A0 *)
Definition isSpace2 (a b : ascii) : bool :=
  ((code a =? 194) && (code b =? 160))%nat.

(** U+1680, U+2000 to U+200A, U+2028, U+2029, U+202F, U+205F, U+3000,
    U+FEFF *)
Definition isSpace3 (a b c : ascii) : bool :=
  (((code a =? 225) && (code b =? 154) && (code c =? 128))
   || ((code a =? 226) && (code b =? 128) &&
       (((128 <=? code c) && (code c <=? 138))
        || (code c =? 168) || (code c =? 169) || (code c =? 175)))
   || ((code a =? 226) && (code b =? 129) && (code c =? 159))
   || ((code a =? 227) && (code b =? 128) && (code c =? 128))
   || ((code a =? 239) && (code b =? 187) && (code c =? 191)))%nat.

(** A string cut into white space characters (with their bytes) and the
    other bytes. *)
Inductive Atom : Type :=
| Space (raw : string)
| Char (a : ascii).

Fixpoint atoms (s : string) : list Atom :=
  match s with
  | EmptyString => []
  | String a r1 =>
      if isAsciiSpace a then Space (String a "") :: atoms r1
      else
        match r1 with
        | String b r2 =>
            if isSpace2 a b then Space (String a (String b "")) :: atoms r2
            else
              match r2 with
              | String c r3 =>
                  if isSpace3 a b c
                  then Space (String a (String b (String c ""))) :: atoms r3
                  else Char a :: atoms r1
              | EmptyString => Char a :: atoms r1
              end
        | EmptyString => Char a :: atoms r1
        end
  end.

Definition raw (x : Atom) : string :=
  match x with
  | Space w => w
  | Char a => String a ""
  end.

Definition isSpace (x : Atom) : bool :=
  match x with
  | Space _ => true
  | Char _ => false
  end.

(** The strings of a list, one after the other. *)
Fixpoint concatAll (l : list string) : string :=
  match l with
  | [] => ""
  | s :: r => s ++ concatAll r
  end.

(** [s.split(/\s*,\s*/g)] on the atoms of [s]: [cur] is the field being
    read, [pending] the white space read since its last other byte, which
    belongs to the separator if a comma follows, and [skip] tells that the
    white space after a comma is being passed over. *)
Fixpoint commaFields (cur pending : string) (skip : bool) (l : list Atom)
  : list string :=
  match l with
  | [] => [cur ++ pending]
  | Space w :: r =>
      if skip then commaFields cur pending true r
      else commaFields cur (pending ++ w) false r
  | Char a :: r =>
      if Ascii.eqb a ","%char then cur :: commaFields "" "" true r
      else commaFields (cur ++ pending ++ String a "") "" false r
  end.

Definition splitCommas (s : string) : list string :=
  commaFields "" "" false (atoms s).

(** [s.split(/\s+/)] on the atoms of [s]; [inSpace] tells that a run of
    white space is being passed over. *)
Fixpoint spaceFields (cur : string) (inSpace : bool) (l : list Atom) : list string :=
  match l with
  | [] => [cur]
  | Space _ :: r =>
      if inSpace then spaceFields cur true r else cur :: spaceFields "" true r
  | Char a :: r => spaceFields (cur ++ String a "") false r
  end.

Definition splitSpaces (s : string) : list string :=
  spaceFields "" false (atoms s).

(** [s.split(/\n/g)] *)
Fixpoint splitLines (s : string) : list string :=
  match s with
  | EmptyString => [EmptyString]
  | String a r =>
      if Ascii.eqb a "010"%char then EmptyString :: splitLines r
      else match splitLines r with
           | h :: t => String a h :: t
           | [] => [String a EmptyString]
           end
  end.

(** [array.includes(x)] on strings *)
Definition includes (l : list string) (x : string) : bool :=
  existsb (String.eqb x) l.

(** The names of the properties that every object inherits from
    [Object.prototype]: under each of them [object[name]] is a function,
    and the prototype itself under [__proto__], unless the object has a
    property of its own of that name. *)
Definition inheritedNames : list string :=
  ["constructor"; "hasOwnProperty"; "isPrototypeOf"; "propertyIsEnumerable";
   "toLocaleString"; "toString"; "valueOf"; "__proto__";
   "__defineGetter__"; "__defineSetter__"; "__lookupGetter__"; "__lookupSetter__"].

Definition inherited (name : string) : bool :=
  existsb (String.eqb name) inheritedNames.

(** [s.replace(/\n+$/, '')] *)
Fixpoint stripNewlines (s : string) : string :=
  match s with
  | EmptyString => EmptyString
  | String a r =>
      match stripNewlines r with
      | EmptyString => if Ascii.eqb a "010"%char then EmptyString else String a EmptyString
      | r' => String a r'
      end
  end.

End Js.

(** ** Markdown tokens *)

Module Markdown.

(** Modelled from the spec: the [Markdown] module (the token types produced
    by [Markdown.lexify]) is not among the sources.  The changelog reader
    only distinguishes headings (with a depth and a text), the two list
    item delimiters, tokens carrying a text, and everything else. *)
Inductive Token : Type :=
| Heading (depth : nat) (text : string)
| ListItemStart
| ListItemEnd
| Text (text : string)
| Other.

(** [token.text], [undefined] on the tokens that have no such field. *)
Definition text_of (t : Token) : option string :=
  match t with
  | Heading _ s => Some s
  | Text s => Some s
  | _ => None
  end.

Definition isListItemEnd (t : Token) : bool :=
  match t with
  | ListItemEnd => true
  | _ => false
  end.

End Markdown.

(** ** Changelogs.ts *)

Module Changelogs.
Import Markdown.

(** [versions]: version label, then section label, then the entries. *)
Record ChangelogChanges : Type := mkChanges {
  totalCount : nat;
  versions : gmap string (gmap string (list string))
}.

Inductive ChangeType : Type := BREAKING_CHANGES | NEW_FEATURES | BUG_FIXES.

(** The string value of each member of the enum. *)
Definition ChangeType_value (c : ChangeType) : string :=
  match c with
  | BREAKING_CHANGES => "🛠 Breaking changes"
  | NEW_FEATURES => "🎉 New features"
  | BUG_FIXES => "🐛 Bug fixes"
  end.

Definition VERSION_HEADING_DEPTH : nat := 2.
Definition CHANGE_TYPE_HEADING_DEPTH : nat := 3.

(** The local variables of the loop of [getChangesAsync]. *)
Record LoopState : Type := mkLoop {
  changes : ChangelogChanges;
  currentVersion : option string;
  currentSection : option string
}.

Definition initialLoop : LoopState :=
  mkLoop (mkChanges 0 ∅) None None.

(** The test that leaves the loop at a version heading:
    [token.text !== toVersion && (!fromVersion || token.text === fromVersion)]. *)
Definition stopsAt (fromVersion : option string) (toVersion text : string) : bool :=
  negb (String.eqb text toVersion) &&
  (negb (truthyO fromVersion) ||
   match fromVersion with
   | Some f => String.eqb text f
   | None => false
   end).

(** A version heading that does not stop the loop:
    [currentVersion = token.text; currentSection = null;
     if (!versions[currentVersion]) versions[currentVersion] = {}].
    [versions] is created as [{}]: under a name that every object inherits
    it finds a truthy value, and is given no property of its own. *)
Definition openVersion (st : LoopState) (text : string) : LoopState :=
  let vs := versions (changes st) in
  let vs' := match vs !! text with
             | Some _ => vs
             | None => if Js.inherited text then vs else <[text := ∅]> vs
             end in
  mkLoop (mkChanges (totalCount (changes st)) vs') (Some text) None.

(** A change-type heading under the version [cv]:
    [currentSection = token.text;
     if (!versions[currentVersion][currentSection])
       versions[currentVersion][currentSection] = []].
    The dictionary of a version is created as [{}] too: under an inherited
    name it finds a truthy value and is given no array.

    When [versions] has no property of its own for [cv] and [cv] is an
    inherited name, [versions[currentVersion]] is an object of the host (a
    function, or [Object.prototype]), which is no part of [versions].  The
    host is not among the sources: the model takes that object to have,
    under the name of a section, what every object inherits and nothing
    else, and to keep for itself the array it is given.  (For [__proto__]
    the object is the prototype itself, and an array given to it would be
    found under every version: the properties that read the sections of a
    version are stated for headings that are no inherited names.)
    Reading a property of an absent [versions[currentVersion]] raises. *)
Definition openSection (st : LoopState) (cv text : string) : Outcome LoopState :=
  let vs := versions (changes st) in
  match vs !! cv with
  | None =>
      if Js.inherited cv then Ok (mkLoop (changes st) (Some cv) (Some text))
      else Thrown "TypeError"
  | Some sec =>
      let sec' := match sec !! text with
                  | Some _ => sec
                  | None => if Js.inherited text then sec else <[text := []]> sec
                  end in
      Ok (mkLoop (mkChanges (totalCount (changes st)) (<[cv := sec']> vs))
                 (Some cv) (Some text))
  end.

(** One token inside a list item:
    [if (token.text) { changes.totalCount++;
                       versions[currentVersion][currentSection].push(token.text); }]
    Under a section that has no array of its own, what is found is an
    inherited function (or the prototype), which has no [push]: the call
    raises.  Under a version that is an object of the host (see
    [openSection]), the entry is counted and pushed onto the array that
    this object holds, outside [versions]. *)
Definition pushEntry (st : LoopState) (cv cs : string) (tok : Token) : Outcome LoopState :=
  match text_of tok with
  | None => Ok st
  | Some t =>
      if truthy t then
        let vs := versions (changes st) in
        match vs !! cv with
        | None =>
            if Js.inherited cv && negb (Js.inherited cs) then
              Ok (mkLoop (mkChanges (S (totalCount (changes st))) vs)
                         (currentVersion st) (currentSection st))
            else Thrown "TypeError"
        | Some sec =>
            match sec !! cs with
            | None => Thrown "TypeError"
            | Some entries =>
                Ok (mkLoop
                      (mkChanges (S (totalCount (changes st)))
                                 (<[cv := <[cs := (entries ++ [t])%list]> sec]> vs))
                      (currentVersion st) (currentSection st))
            end
        end
      else Ok st
  end.

(** The [for] loop of [getChangesAsync] over the tokens still to visit;
    [stop] is the test that leaves the loop at a version heading.
    [item] is [Some (currentVersion, currentSection)] while control is
    inside the inner loop that runs from a [LIST_ITEM_START] to the next
    [LIST_ITEM_END] (both variables are truthy there and the inner loop
    does not assign them); running past the end of the array there reads
    [tokens[i].type] of [undefined], which raises. *)
Fixpoint scanWith (stop : string -> bool) (item : option (string * string))
         (st : LoopState) (tokens : list Token) : Outcome ChangelogChanges :=
  match tokens with
  | [] =>
      match item with
      | Some _ => Thrown "TypeError"
      | None => Ok (changes st)
      end
  | tok :: rest =>
      match item with
      | Some (cv, cs) =>
          if isListItemEnd tok then scanWith stop None st rest
          else
            st' <-! pushEntry st cv cs tok ;;
            scanWith stop (Some (cv, cs)) st' rest
      | None =>
          match tok with
          | Heading depth text =>
              if Nat.eqb depth VERSION_HEADING_DEPTH then
                if stop text then Ok (changes st)
                else scanWith stop None (openVersion st text) rest
              else
                match currentVersion st with
                | Some cv =>
                    if truthy cv && Nat.eqb depth CHANGE_TYPE_HEADING_DEPTH then
                      st' <-! openSection st cv text ;;
                      scanWith stop None st' rest
                    else scanWith stop None st rest
                | None => scanWith stop None st rest
                end
          | ListItemStart =>
              match currentVersion st, currentSection st with
              | Some cv, Some cs =>
                  if truthy cv && truthy cs
                  then scanWith stop (Some (cv, cs)) st rest
                  else scanWith stop None st rest
              | _, _ => scanWith stop None st rest
              end
          | _ => scanWith stop None st rest
          end
      end
  end.

(** [getChangesAsync(fromVersion?, toVersion = 'master')] on the token
    stream of the changelog. *)
Definition getChangesAsync (tokens : list Token)
           (fromVersion : option string) (toVersion : option string)
  : Outcome ChangelogChanges :=
  scanWith (stopsAt fromVersion (default "master" toVersion)) None initialLoop tokens.

(** *** Reference notions for the properties of the reader *)

(** The sum of a weight over the values of a dictionary. *)
Definition sumMap {V : Type} (weight : V -> nat) (m : gmap string V) : nat :=
  map_fold (fun _ v n => weight v + n) 0 m.

(** The number of entries of all sections of all versions. *)
Definition entryCount (vs : gmap string (gmap string (list string))) : nat :=
  sumMap (sumMap (@length string)) vs.

End Changelogs.

(** ** Changelog documents *)

Module Documents.
Import Markdown Changelogs.

(** A changelog as it is written: a preamble, then version sections,
    newest first; a version section is a heading at version depth, the
    tokens that follow it, and change-type sections; a change-type section
    is a heading at that depth followed by list items, each from its start
    to its end, and by the tokens between them. *)
Inductive Block : Type :=
| Item (inner : list Token)
| Between (token : Token).

Record Section : Type := mkSection {
  name : string;
  blocks : list Block
}.

Record Version : Type := mkVersion {
  label : string;
  lead : list Token;
  sections : list Section
}.

Record Document : Type := mkDocument {
  preamble : list Token;
  versionSections : list Version
}.

(** The token stream of a document. *)
Definition renderBlock (b : Block) : list Token :=
  match b with
  | Item inner => ListItemStart :: (inner ++ [ListItemEnd])%list
  | Between token => [token]
  end.

Definition renderSection (s : Section) : list Token :=
  Heading CHANGE_TYPE_HEADING_DEPTH (name s) :: flat_map renderBlock (blocks s).

Definition renderVersion (v : Version) : list Token :=
  Heading VERSION_HEADING_DEPTH (label v)
  :: (lead v ++ flat_map renderSection (sections v))%list.

Definition render (d : Document) : list Token :=
  (preamble d ++ flat_map renderVersion (versionSections d))%list.

Definition isHeadingAt (depth : nat) (t : Token) : bool :=
  match t with
  | Heading d _ => Nat.eqb d depth
  | _ => false
  end.

Definition isListItemStart (t : Token) : bool :=
  match t with
  | ListItemStart => true
  | _ => false
  end.

(** A token that is not a heading at version or change-type depth. *)
Definition plainToken (t : Token) : bool :=
  negb (isHeadingAt VERSION_HEADING_DEPTH t) &&
  negb (isHeadingAt CHANGE_TYPE_HEADING_DEPTH t).

(** A label or a name that is not empty and that no object inherits. *)
Definition properName (s : string) : bool :=
  truthy s && negb (Js.inherited s).

(** The parts of a document are what they are said to be: no list item
    holds the token that ends it, no token between list items starts one or
    is a heading at version or change-type depth, no such heading follows
    a version heading before its first section, the preamble has no
    version heading, and labels and names are proper. *)
Definition wellFormedBlock (b : Block) : bool :=
  match b with
  | Item inner => forallb (fun t => negb (isListItemEnd t)) inner
  | Between token => plainToken token && negb (isListItemStart token)
  end.

Definition wellFormedSection (s : Section) : bool :=
  properName (name s) && forallb wellFormedBlock (blocks s).

Definition wellFormedVersion (v : Version) : bool :=
  properName (label v) && forallb plainToken (lead v)
  && forallb wellFormedSection (sections v).

Definition wellFormed (d : Document) : bool :=
  forallb (fun t => negb (isHeadingAt VERSION_HEADING_DEPTH t)) (preamble d)
  && forallb wellFormedVersion (versionSections d).

(** The entries of a list item: the non-empty texts of its tokens. *)
Definition texts (inner : list Token) : list string :=
  flat_map (fun t => match text_of t with
                     | Some s => if truthy s then [s] else []
                     | None => []
                     end)
           inner.

Definition entriesOfBlock (b : Block) : list string :=
  match b with
  | Item inner => texts inner
  | Between _ => []
  end.

Definition entriesOfSection (s : Section) : list string :=
  flat_map entriesOfBlock (blocks s).

(** The sections named [n] of the versions labelled [l], in the order of
    the document, and their entries. *)
Definition sectionsAt (vs : list Version) (l n : string) : list Section :=
  List.filter (fun s => String.eqb (name s) n)
              (flat_map sections (List.filter (fun v => String.eqb (label v) l) vs)).

Definition entriesAt (vs : list Version) (l n : string) : list string :=
  flat_map entriesOfSection (sectionsAt vs l n).

Definition allEntries (vs : list Version) : list string :=
  flat_map entriesOfSection (flat_map sections vs).

(** [changes.versions[l]?.[n]] *)
Definition entriesUnder (c : ChangelogChanges) (l n : string) : option (list string) :=
  versions c !! l ≫= fun sections => sections !! n.

(** [c] holds the entries of the versions [vs], and nothing else: it
    counts them all, it has a dictionary for the labels of [vs] and no
    other, and in it an array for the sections of that label and no other,
    with the entries of these sections in the order of the document. *)
Definition holds (vs : list Version) (c : ChangelogChanges) : Prop :=
  totalCount c = length (allEntries vs) /\
  (forall l, is_Some (versions c !! l) <-> exists v, In v vs /\ label v = l) /\
  (forall l n,
      entriesUnder c l n
      = match sectionsAt vs l n with
        | [] => None
        | _ => Some (entriesAt vs l n)
        end).

(** The versions that come before the first one whose label satisfies
    [stop]. *)
Fixpoint before (stop : string -> bool) (vs : list Version) : list Version :=
  match vs with
  | [] => []
  | v :: rest => if stop (label v) then [] else v :: before stop rest
  end.

(** The changes after the entries [es] are added to the section [n] of
    the version [l], both created when absent. *)
Definition withEntries (c : ChangelogChanges) (l n : string) (es : list string)
  : ChangelogChanges :=
  let secs := default ∅ (versions c !! l) in
  mkChanges (totalCount c + length es)
            (<[l := <[n := (default [] (secs !! n) ++ es)%list]> secs]> (versions c)).

(** The changes after the version [l] is given a dictionary, when it has
    none. *)
Definition withVersion (c : ChangelogChanges) (l : string) : ChangelogChanges :=
  match versions c !! l with
  | Some _ => c
  | None => mkChanges (totalCount c) (<[l := ∅]> (versions c))
  end.

Definition withSections (c : ChangelogChanges) (v : Version) : ChangelogChanges :=
  foldl (fun c s => withEntries c (label v) (name s) (entriesOfSection s))
        (withVersion c (label v)) (sections v).

(** A document of the versions [master], [1.2.0] and [1.1.0]. *)
Definition sample : Document :=
  mkDocument
    [Heading 1 "Changelog"; Text "All notable changes."]
    [ mkVersion "master" [Other]
        [ mkSection "🛠 Breaking changes"
            [Item [Text "Dropped a method."; Other]; Between Other; Item [Text ""]];
          mkSection "🐛 Bug fixes" [] ];
      mkVersion "1.2.0" []
        [ mkSection "🐛 Bug fixes" [Item [Text "Fixed 1.2.0."]] ];
      mkVersion "1.1.0" []
        [ mkSection "🐛 Bug fixes" [Item [Text "Fixed 1.1.0."]] ] ].

End Documents.

(** ** The [semver] package *)

Module Semver.

(** [semver] is a dependency of the command, not part of it.  This is a
    model of the three entry points the command calls ([parse] behind
    [prerelease] and [inc]) on versions written
    [v?MAJOR.MINOR.PATCH(-PRERELEASE)?(+BUILD)?]; surrounding white space
    and the loose mode are not modelled. *)

(** A prerelease identifier is a number or an alphanumeric word. *)
Inductive Identifier : Type :=
| Num (n : N)
| Alnum (s : string).

Record SemVer : Type := mkSemVer {
  major : N;
  minor : N;
  patch : N;
  prerelease_ids : list Identifier
}.

Definition is_digit (a : ascii) : bool :=
  let n := nat_of_ascii a in (48 <=? n)%nat && (n <=? 57)%nat.

Definition is_ident_char (a : ascii) : bool :=
  let n := nat_of_ascii a in
  is_digit a || ((65 <=? n)%nat && (n <=? 90)%nat)
  || ((97 <=? n)%nat && (n <=? 122)%nat) || (n =? 45)%nat.

Fixpoint all_chars (p : ascii -> bool) (s : string) : bool :=
  match s with
  | EmptyString => true
  | String a r => p a && all_chars p r
  end.

Fixpoint digits_value (acc : N) (s : string) : N :=
  match s with
  | EmptyString => acc
  | String a r => digits_value (acc * 10 + N.of_nat (nat_of_ascii a - 48)) r
  end.

(** [0|[1-9]\d*] *)
Definition parse_numeric (s : string) : option N :=
  match s with
  | EmptyString => None
  | String a r =>
      if all_chars is_digit s &&
         (negb (Ascii.eqb a "0"%char) || String.eqb r "")
      then Some (digits_value 0 s)
      else None
  end.

(** A numeric identifier, or [\d*[a-zA-Z-][a-zA-Z0-9-]*]. *)
Definition parse_identifier (s : string) : option Identifier :=
  if String.eqb s "" then None
  else if all_chars is_digit s then Num <$> parse_numeric s
  else if all_chars is_ident_char s then Some (Alnum s)
  else None.

Fixpoint split_on (c : ascii) (s : string) : list string :=
  match s with
  | EmptyString => [EmptyString]
  | String a r =>
      if Ascii.eqb a c then EmptyString :: split_on c r
      else match split_on c r with
           | h :: t => String a h :: t
           | [] => [String a EmptyString]
           end
  end.

(** Cuts [s] at the first occurrence of [c]. *)
Fixpoint cut_at (c : ascii) (s : string) : string * option string :=
  match s with
  | EmptyString => (EmptyString, None)
  | String a r =>
      if Ascii.eqb a c then (EmptyString, Some r)
      else let '(h, t) := cut_at c r in (String a h, t)
  end.

Fixpoint sequenceO {A : Type} (l : list (option A)) : option (list A) :=
  match l with
  | [] => Some []
  | None :: _ => None
  | Some a :: r => cons a <$> sequenceO r
  end.

Definition parse_identifiers (s : string) : option (list Identifier) :=
  sequenceO (map parse_identifier (split_on "."%char s)).

Definition valid_build (s : string) : bool :=
  forallb (fun p => negb (String.eqb p "") && all_chars is_ident_char p)
          (split_on "."%char s).

Definition strip_v (s : string) : string :=
  match s with
  | String a r => if Ascii.eqb a "v"%char then r else s
  | EmptyString => s
  end.

(** [semver.parse]: [None] for a string that is not a version. *)
Definition parse (version : string) : option SemVer :=
  let '(main, build) := cut_at "+"%char (strip_v version) in
  let '(core, pre) := cut_at "-"%char main in
  if match build with Some b => valid_build b | None => true end then
    match map parse_numeric (split_on "."%char core) with
    | [Some ma; Some mi; Some pa] =>
        match pre with
        | None => Some (mkSemVer ma mi pa [])
        | Some p => mkSemVer ma mi pa <$> parse_identifiers p
        end
    | _ => None
    end
  else None.

(** [semver.prerelease(version)]: the prerelease identifiers of a version
    that has some, [null] otherwise (also for an invalid version). *)
Definition prerelease (version : string) : option (list Identifier) :=
  match parse version with
  | Some v =>
      match prerelease_ids v with
      | [] => None
      | ids => Some ids
      end
  | None => None
  end.

Fixpoint N_digits (fuel : nat) (n : N) (acc : string) : string :=
  match fuel with
  | O => acc
  | S f =>
      let acc' := String (ascii_of_nat (48 + N.to_nat (n mod 10))) acc in
      if (n / 10 =? 0)%N then acc' else N_digits f (n / 10) acc'
  end.

Definition N_to_string (n : N) : string :=
  N_digits (S (N.to_nat (N.log2 n))) n "".

Definition format_identifier (i : Identifier) : string :=
  match i with
  | Num n => N_to_string n
  | Alnum s => s
  end.

Fixpoint join (sep : string) (l : list string) : string :=
  match l with
  | [] => ""
  | [x] => x
  | x :: r => x ++ sep ++ join sep r
  end.

(** [SemVer.format]: the version without build metadata. *)
Definition format (v : SemVer) : string :=
  let core := N_to_string (major v) ++ "." ++ N_to_string (minor v)
              ++ "." ++ N_to_string (patch v) in
  match prerelease_ids v with
  | [] => core
  | ids => core ++ "-" ++ join "." (map format_identifier ids)
  end.

(** Increments the rightmost numeric identifier of the reversed list;
    [None] when there is no numeric identifier. *)
Fixpoint bump_first_numeric (rev_ids : list Identifier) : option (list Identifier) :=
  match rev_ids with
  | [] => None
  | Num n :: r => Some (Num (n + 1) :: r)
  | Alnum s :: r => cons (Alnum s) <$> bump_first_numeric r
  end.

(** The ['pre'] case of [SemVer.inc]. *)
Definition inc_pre (v : SemVer) (identifier : option string) : SemVer :=
  let bumped :=
    match prerelease_ids v with
    | [] => [Num 0]
    | ids =>
        match bump_first_numeric (rev ids) with
        | Some r => rev r
        | None => (ids ++ [Num 0])%list
        end
    end in
  let final :=
    match identifier with
    | Some id =>
        if truthy id then
          match bumped with
          | Alnum h :: rest =>
              if String.eqb h id then
                match rest with
                | Num _ :: _ => bumped
                | _ => [Alnum id; Num 0]
                end
              else [Alnum id; Num 0]
          | _ => [Alnum id; Num 0]
          end
        else bumped
    | None => bumped
    end in
  mkSemVer (major v) (minor v) (patch v) final.

Definition has_pre (v : SemVer) : bool :=
  match prerelease_ids v with
  | [] => false
  | _ => true
  end.

Definition inc_patch (v : SemVer) : SemVer :=
  mkSemVer (major v) (minor v)
           (if has_pre v then patch v else (patch v + 1)%N) [].

(** [SemVer.inc(release, identifier)]; an unknown [release] raises
    (["invalid increment argument"]). *)
Definition inc_parsed (v : SemVer) (release : string) (identifier : option string)
  : option SemVer :=
  if String.eqb release "premajor" then
    Some (inc_pre (mkSemVer (major v + 1) 0 0 []) identifier)
  else if String.eqb release "preminor" then
    Some (inc_pre (mkSemVer (major v) (minor v + 1) 0 []) identifier)
  else if String.eqb release "prepatch" then
    Some (inc_pre (inc_patch (mkSemVer (major v) (minor v) (patch v) [])) identifier)
  else if String.eqb release "prerelease" then
    Some (inc_pre (if has_pre v then v else inc_patch v) identifier)
  else if String.eqb release "major" then
    Some (mkSemVer
            (if negb (minor v =? 0)%N || negb (patch v =? 0)%N || negb (has_pre v)
             then (major v + 1)%N else major v) 0 0 [])
  else if String.eqb release "minor" then
    Some (mkSemVer (major v)
            (if negb (patch v =? 0)%N || negb (has_pre v)
             then (minor v + 1)%N else minor v) 0 [])
  else if String.eqb release "patch" then Some (inc_patch v)
  else if String.eqb release "pre" then Some (inc_pre v identifier)
  else None.

(** [semver.inc(version, release, identifier)]: the incremented version,
    [null] when the version is invalid or [release] is not an increment
    (the exception is caught inside [semver.inc]); [release] is [None] when
    the caller passes [undefined]. *)
Definition inc (version : string) (release : option string)
           (identifier : option string) : option string :=
  match parse version, release with
  | Some v, Some r => format <$> inc_parsed v r identifier
  | _, _ => None
  end.

End Semver.

(** ** Utils.ts *)

Module Utils.

(** [deepCloneObject]: [JSON.parse(JSON.stringify(object))].  The values
    it is applied to are plain JSON data, immutable here, so that the
    clone is the value itself. *)
Definition deepCloneObject {A : Type} (object : A) : A := object.

End Utils.

(** ** Git.ts *)

Module Git.

Record GitLog : Type := mkGitLog {
  hash : string;
  parent : string;
  title : string;
  authorName : string;
  committerRelativeDate : string
}.

Inductive GitFileStatus : Type := M | C | R | A | D | U.

Record GitFileLog : Type := mkGitFileLog {
  path : string;
  relativePath : string;
  status : option GitFileStatus
}.

(** What the spawned [git] commands answer: for a working directory and a
    commit range, the parsed output of [git log] (newest commit first) and
    of [git diff --name-status]; [None] when the command or the parsing of
    its output fails, which raises in the caller. *)
Record Repository : Type := mkRepository {
  gitLogOutput : string -> string -> option (list GitLog);
  gitDiffOutput : string -> string -> option (list GitFileLog)
}.

Definition range (fromCommit toCommit : option string) : string :=
  default "" fromCommit ++ ".." ++ default "head" toCommit.

Definition logAsync (repo : Repository) (cwd : string)
           (fromCommit toCommit : option string) : Outcome (list GitLog) :=
  match gitLogOutput repo cwd (range fromCommit toCommit) with
  | Some logs => Ok logs
  | None => Thrown "git log"
  end.

Definition logFilesAsync (repo : Repository) (cwd : string)
           (fromCommit toCommit : option string) : Outcome (list GitFileLog) :=
  match gitDiffOutput repo cwd (range fromCommit toCommit) with
  | Some logs => Ok logs
  | None => Thrown "git diff"
  end.

End Git.

(** ** Packages and the registry *)

Module Packages.

(** Modelled from the spec: the [Packages] module is not among the
    sources.  Package discovery supplies, per package, its name, current
    version, root path, changelog path and manifest; of the manifest
    ([package.json]) the command reads [private] ([false] when absent)
    and reads and writes [version] and [gitHead] (the last-published
    commit reference, possibly absent). *)
Record PackageJson : Type := mkPackageJson {
  version : string;
  gitHead : option string;
  private : bool
}.

Record Package : Type := mkPackage {
  packageName : string;
  packageVersion : string;
  path : string;
  changelogPath : string;
  packageJson : PackageJson
}.

End Packages.

Module Npm.

(** Modelled from the spec: the [Npm] module is not among the sources.
    The registry answers with the last-published commit reference of a
    published version. *)
Record PackageViewType : Type := mkPackageView {
  gitHead : option string
}.

End Npm.

(** ** The [publish-packages] command *)

Module PublishPackages.
Import Packages.

Definition BACKUP_EXPIRATION_TIME : Z := 30 * 60 * 1000.

Definition NATIVE_DIRECTORIES : list string := ["ios"; "android"].

(** [prerelease: boolean | string] *)
Inductive PrereleaseOption : Type :=
| PreFlag (b : bool)
| PreIdentifier (s : string).

Record ActionOptions : Type := mkOptions {
  listUnpublished : bool;
  prerelease : PrereleaseOption;
  exclude : string;
  scope : string;
  retry : bool;
  skipRepoChecks : bool;
  dry : bool
}.

(** [Pick<ActionOptions, 'scope' | 'exclude' | 'dry'>] *)
Module BackupableOptions.
Record t : Type := mk {
  scope : string;
  exclude : string;
  dry : bool
}.
End BackupableOptions.

Inductive ReleaseType : Type :=
| MAJOR | MINOR | PATCH | PREMAJOR | PREMINOR | PREPATCH.

(** The string value of each member of the enum. *)
Definition ReleaseType_value (r : ReleaseType) : string :=
  match r with
  | MAJOR => "major"
  | MINOR => "minor"
  | PATCH => "patch"
  | PREMAJOR => "premajor"
  | PREMINOR => "preminor"
  | PREPATCH => "prepatch"
  end.

(** The expression [ReleaseType.PRERELEASE].  The enum declares no such
    member, so that the property access yields [undefined]. *)
Definition ReleaseType_PRERELEASE : option ReleaseType := None.

(** Every field is absent until a phase assigns it.  [releaseVersion] is
    [string | null] once assigned: [Some None] is [null]. *)
Record PackageState : Type := mkState {
  hasUnpublishedChanges : option bool;
  isSelectedToPublish : option bool;
  changelogChanges : option Changelogs.ChangelogChanges;
  integral : option bool;
  logs : option (list Git.GitLog);
  fileLogs : option (list Git.GitFileLog);
  releaseType : option ReleaseType;
  releaseVersion : option (option string)
}.

Definition emptyState : PackageState :=
  mkState None None None None None None None None.

(** The changelog handle; the token stream it memoizes is read through
    the environment. *)
Record Changelog : Type := mkChangelog { filePath : string }.

Record PackageFabric : Type := mkFabric {
  pkg : Package;
  pkgView : option Npm.PackageViewType;
  changelog : Changelog;
  state : PackageState
}.

Definition Fabrics : Type := list PackageFabric.

Module StateBackup.
Record t : Type := mk {
  timestamp : Z;
  head : string;
  phaseIndex : nat;
  options : BackupableOptions.t;
  state : gmap string PackageState
}.
End StateBackup.

(** What the command meets outside during one invocation: the answers of
    git, of the registry, of package discovery and of the operator, the
    failures of the prompt and of the files, and the time that passes.
    - [promptError name] is the error with which the prompt about the
      package [name] is rejected, if it is;
    - [manifestWriteError file] is the error with which the writing of the
      manifest [file] is rejected, if it is;
    - [bundledReadError] and [bundledWriteError] are those of the reading
      and of the writing of [bundledNativeModules.json] (the reading
      is rejected when the file is missing);
    - [elapsed i] is the time, in milliseconds, that passes while phase [i]
      is called. *)
Record Environment : Type := mkEnv {
  currentBranchName : string;
  confirmProceed : bool;
  hasUnstagedChanges : bool;
  headCommitHash : string;
  getListOfPackagesAsync : list Package;
  packageView : string -> string -> option Npm.PackageViewType;
  changelogTokens : string -> option (list Markdown.Token);
  repository : Git.Repository;
  promptError : string -> option string;
  confirmSelected : string -> bool;
  confirmRestore : bool;
  manifestWriteError : string -> option string;
  bundledReadError : option string;
  bundledWriteError : option string;
  elapsed : nat -> Z
}.

(** The files the phases write: the manifests, by file path, and
    [bundledNativeModules.json]. *)
Record Files : Type := mkFiles {
  manifests : gmap string PackageJson;
  bundledNativeModules : gmap string string
}.

(** The mutable surroundings of an invocation: the files above, the backup
    file and the clock read by [Date.now()]. *)
Record World : Type := mkWorld {
  files : Files;
  backupFile : option StateBackup.t;
  now : Z
}.

Definition path_join (dir name : string) : string := dir ++ "/" ++ name.

Fixpoint mapO {A B : Type} (f : A -> Outcome B) (l : list A) : Outcome (list B) :=
  match l with
  | [] => Ok []
  | a :: r =>
      b <-! f a ;;
      bs <-! mapO f r ;;
      Ok (b :: bs)
  end.

Definition withState (f : PackageFabric) (s : PackageState) : PackageFabric :=
  mkFabric (pkg f) (pkgView f) (changelog f) s.

(** *** Preparation *)

(** [options.exclude?.split(/\s*,\s*/g) ?? []]; [exclude] is a string. *)
Definition excludeList (options : ActionOptions) : list string :=
  Js.splitCommas (exclude options).

(** [options.scope?.split(/\s*,\s*/g) ?? null]; [scope] is a string, so
    that the result is an array. *)
Definition scopeList (options : ActionOptions) : option (list string) :=
  Some (Js.splitCommas (scope options)).

(** The test of the filter over the discovered packages, on the [private]
    field of the manifest and the name of a package:
    [!isPrivate && isScoped && !isExcluded]. *)
Definition isListed (options : ActionOptions) (isPrivate : bool) (packageName : string)
  : bool :=
  let isScoped := match scopeList options with
                  | None => true
                  | Some scope => Js.includes scope packageName
                  end in
  let isExcluded := Js.includes (excludeList options) packageName in
  negb isPrivate && isScoped && negb isExcluded.

(** The discovered packages that pass the filter. *)
Definition listOfPackages (env : Environment) (options : ActionOptions) : list Package :=
  List.filter (fun p => isListed options (private (packageJson p)) (packageName p))
              (getListOfPackagesAsync env).

(** [preparePackageFabricsAsync] *)
Definition preparePackageFabricsAsync (env : Environment) (options : ActionOptions)
  : Fabrics :=
  map (fun p =>
         mkFabric p (packageView env (packageName p) (packageVersion p))
                  (mkChangelog (changelogPath p)) emptyState)
      (listOfPackages env options).

Definition checkBranchNameAsync (env : Environment) : bool :=
  if String.eqb (currentBranchName env) "master" then true
  else confirmProceed env.

(** *** Phase 0 *)

Definition checkPackagesIntegrity (fabrics : Fabrics) : Fabrics :=
  map (fun f =>
         let s := state f in
         let i := match pkgView f with
                  | None => true
                  | Some view =>
                      bool_decide (gitHead (packageJson (pkg f)) = Npm.gitHead view)
                  end in
         withState f
           (mkState (hasUnpublishedChanges s) (isSelectedToPublish s)
                    (changelogChanges s) (Some i) (logs s) (fileLogs s)
                    (releaseType s) (releaseVersion s)))
      fabrics.

(** *** Phase 1 *)

Definition fileLogsContainNativeChanges (fileLogs : list Git.GitFileLog) : bool :=
  existsb (fun fileLog =>
             existsb (fun dir => String.prefix (dir ++ "/") (Git.relativePath fileLog))
                     NATIVE_DIRECTORIES)
          fileLogs.

(** [changelogChanges?.versions.master?.[BREAKING_CHANGES]?.length] as a
    condition. *)
Definition hasBreakingChanges (changelogChanges : option Changelogs.ChangelogChanges)
  : bool :=
  match changelogChanges with
  | None => false
  | Some c =>
      match Changelogs.versions c !! "master" with
      | None => false
      | Some sections =>
          match sections !! Changelogs.ChangeType_value Changelogs.BREAKING_CHANGES with
          | None => false
          | Some entries => negb (Nat.eqb (length entries) 0)
          end
      end
  end.

(** [getSuggestedReleaseType]; its last parameter is not read, and the
    caller does not pass it. *)
Definition getSuggestedReleaseType (currentVersion : string)
           (fileLogs : option (list Git.GitFileLog))
           (changelogChanges : option Changelogs.ChangelogChanges)
           (prerelease : option PrereleaseOption) : option ReleaseType :=
  match Semver.prerelease currentVersion with
  | Some _ => ReleaseType_PRERELEASE
  | None =>
      if hasBreakingChanges changelogChanges then Some MAJOR
      else if match fileLogs with
              | Some l => fileLogsContainNativeChanges l
              | None => false
              end then Some MINOR
      else Some PATCH
  end.

(** [options.prerelease === true ? 'rc' : options.prerelease], when it is
    truthy. *)
Definition prereleaseIdentifier (options : ActionOptions) : option string :=
  match prerelease options with
  | PreFlag true => Some "rc"
  | PreFlag false => None
  | PreIdentifier s => if truthy s then Some s else None
  end.

(** The commit log kept in the state:
    [if (pkg.packageJson.gitHead) { logs.pop(); }]. *)
Definition unpublishedLogs (gitHead : option string) (logs : list Git.GitLog)
  : list Git.GitLog :=
  if truthyO gitHead then removelast logs else logs.

(** One iteration of the loop of [findUnpublishedPackagesAsync]; [options]
    is [None] when the caller passes none. *)
Definition findUnpublishedPackage (env : Environment) (options : option ActionOptions)
           (f : PackageFabric) : Outcome PackageFabric :=
  let p := pkg f in
  tokens <-! match changelogTokens env (filePath (changelog f)) with
             | Some ts => Ok ts
             | None => Thrown "ENOENT"
             end ;;
  changes <-! Changelogs.getChangesAsync tokens None None ;;
  allLogs <-! Git.logAsync (repository env) (path p)
                           (gitHead (packageJson p)) (Some "head") ;;
  fileLog <-! Git.logFilesAsync (repository env) (path p)
                                (Git.hash <$> last allLogs)
                                (Git.hash <$> head allLogs) ;;
  let kept := unpublishedLogs (gitHead (packageJson p)) allLogs in
  let type := getSuggestedReleaseType (packageVersion p) (Some fileLog)
                                      (Some changes) None in
  let next := Semver.inc (packageVersion p) (ReleaseType_value <$> type) None in
  let s := state f in
  let s1 := mkState
              (Some (negb (Nat.eqb (length kept) 0) ||
                     negb (Nat.eqb (Changelogs.totalCount changes) 0)))
              (isSelectedToPublish s) (Some changes) (integral s)
              (Some kept) (Some fileLog) type (Some next) in
  match type, next with
  | Some _, Some v =>
      if truthy v then
        match options with
        | None => Thrown "TypeError"
        | Some o =>
            match prereleaseIdentifier o with
            | Some identifier =>
                let type' := ReleaseType_PRERELEASE in
                Ok (withState f
                      (mkState (hasUnpublishedChanges s1) (isSelectedToPublish s1)
                               (changelogChanges s1) (integral s1) (logs s1)
                               (fileLogs s1) type'
                               (Some (Semver.inc v (ReleaseType_value <$> type')
                                                 (Some identifier)))))
            | None => Ok (withState f s1)
            end
        end
      else Ok (withState f s1)
  | _, _ => Ok (withState f s1)
  end.

(** A phase works on the fabrics and on the files.  It returns the
    fabrics or raises, and either way leaves the files as it has written
    them until then. *)
Definition Phase : Type :=
  Fabrics -> option ActionOptions -> Environment -> Files -> Outcome Fabrics * Files.

Definition findUnpublishedPackagesAsync : Phase :=
  fun fabrics options env fs =>
    (mapO (findUnpublishedPackage env options) fabrics, fs).

Definition checkPackagesIntegrityPhase : Phase :=
  fun fabrics _ _ fs => (Ok (checkPackagesIntegrity fabrics), fs).

(** *** Phase 2 *)

Definition isTrue (b : option bool) : bool := default false b.

(** One fabric in [choosePackagesToPublishAsync]: the operator is asked
    about a fabric with unpublished changes; the prompt may be rejected. *)
Definition choosePackage (env : Environment) (f : PackageFabric) : Outcome PackageFabric :=
  let s := state f in
  if isTrue (hasUnpublishedChanges s) then
    match promptError env (packageName (pkg f)) with
    | Some error => Thrown error
    | None =>
        Ok (withState f
              (mkState (hasUnpublishedChanges s)
                       (Some (confirmSelected env (packageName (pkg f))))
                       (changelogChanges s) (integral s) (logs s) (fileLogs s)
                       (releaseType s) (releaseVersion s)))
    end
  else Ok f.

Definition choosePackagesToPublishAsync : Phase :=
  fun fabrics _ env fs => (mapO (choosePackage env) fabrics, fs).

(** *** Phase 3 *)

(** [state.logs?.[0]?.hash ?? pkg.packageJson.gitHead] *)
Definition newGitHead (f : PackageFabric) : option string :=
  match logs (state f) ≫= head with
  | Some log => Some (Git.hash log)
  | None => gitHead (packageJson (pkg f))
  end.

(** [JsonFile.writeAsync] on a manifest. *)
Definition writeManifest (env : Environment) (fs : Files) (file : string)
           (content : PackageJson) : Outcome Files :=
  match manifestWriteError env file with
  | Some error => Thrown error
  | None => Ok (mkFiles (<[file := content]> (manifests fs)) (bundledNativeModules fs))
  end.

(** One iteration of the loop of [updateVersionsAsync]. *)
Definition updateVersion (env : Environment) (fs : Files) (f : PackageFabric)
  : Outcome Files :=
  match newGitHead f, releaseVersion (state f) with
  | Some head, Some (Some version) =>
      if truthy head && truthy version then
        let packageJson' := Utils.deepCloneObject (packageJson (pkg f)) in
        let packageJson' :=
          mkPackageJson version (gitHead packageJson') (private packageJson') in
        let packageJson' :=
          mkPackageJson (Packages.version packageJson') (Some head)
                        (private packageJson') in
        writeManifest env fs (path_join (path (pkg f)) "package.json") packageJson'
      else Ok fs
  | _, _ => Ok fs
  end.

(** The loop of [updateVersionsAsync]: a writing that is rejected ends it,
    and leaves the manifests written before it. *)
Fixpoint updateVersions (env : Environment) (fs : Files) (fabrics : Fabrics)
  : Outcome unit * Files :=
  match fabrics with
  | [] => (Ok tt, fs)
  | f :: rest =>
      match updateVersion env fs f with
      | Ok fs' => updateVersions env fs' rest
      | Thrown error => (Thrown error, fs)
      end
  end.

Definition updateVersionsAsync : Phase :=
  fun fabrics _ env fs =>
    let '(result, fs') := updateVersions env fs fabrics in
    (_ <-! result ;; Ok fabrics, fs').

(** *** Phase 4 *)

(** The text of [`~${state.releaseVersion}`]. *)
Definition versionRange (releaseVersion : option (option string)) : string :=
  "~" ++ match releaseVersion with
         | Some (Some v) => v
         | Some None => "null"
         | None => "undefined"
         end.

(** [updateBundledNativeModulesFileAsync]: the file is read, given the
    entries of the selected packages, and written. *)
Definition updateBundledNativeModulesFileAsync : Phase :=
  fun fabrics _ env fs =>
    let toPublish := List.filter (fun f => isTrue (isSelectedToPublish (state f)))
                                 fabrics in
    match toPublish with
    | [] => (Ok fabrics, fs)
    | _ =>
        match bundledReadError env with
        | Some error => (Thrown error, fs)
        | None =>
            let modules :=
              foldl (fun m f =>
                       <[packageName (pkg f) :=
                           versionRange (releaseVersion (state f))]> m)
                    (bundledNativeModules fs) toPublish in
            match bundledWriteError env with
            | Some error => (Thrown error, fs)
            | None => (Ok fabrics, mkFiles (manifests fs) modules)
            end
        end
    end.

(** *** Backup *)

Definition pickBackupableOptions (options : ActionOptions) : BackupableOptions.t :=
  BackupableOptions.mk (scope options) (exclude options) (dry options).

(** [jsondiffpatch.diff] on two option records: the keys whose values
    differ, [undefined] when there is none. *)
Definition diff (left right : BackupableOptions.t) : option (list string) :=
  let delta :=
    ((if String.eqb (BackupableOptions.scope left) (BackupableOptions.scope right)
      then [] else ["scope"]) ++
     (if String.eqb (BackupableOptions.exclude left) (BackupableOptions.exclude right)
      then [] else ["exclude"]) ++
     (if Bool.eqb (BackupableOptions.dry left) (BackupableOptions.dry right)
      then [] else ["dry"]))%list in
  match delta with
  | [] => None
  | _ => Some delta
  end.

(** [isBackupValid]; [now] is the value of [Date.now()]. *)
Definition isBackupValid (now : Z) (backup : StateBackup.t) (currentHead : string)
           (options : ActionOptions) : bool :=
  if negb (String.eqb currentHead (StateBackup.head backup)) ||
     (now - StateBackup.timestamp backup >? BACKUP_EXPIRATION_TIME)%Z
  then false
  else
    match diff (pickBackupableOptions options) (StateBackup.options backup) with
    | Some _ => false
    | None => true
    end.

Definition maybeRestoreBackupAsync (env : Environment) (w : World)
           (currentHead : string) (options : ActionOptions) : option StateBackup.t :=
  match backupFile w with
  | None => None
  | Some backup =>
      if negb (isBackupValid (now w) backup currentHead options) then None
      else if retry options then Some backup
      else if confirmRestore env then Some backup else None
  end.

(** [saveBackup]: the state of every fabric, by package name, with the
    index of the phase that has just completed. *)
Definition saveBackup (head : string) (phaseIndex : nat) (fabrics : Fabrics)
           (options : ActionOptions) (w : World) : World :=
  let backup :=
    StateBackup.mk (now w) head phaseIndex (pickBackupableOptions options)
      (foldl (fun m f => <[packageName (pkg f) := Utils.deepCloneObject (state f)]> m)
             ∅ fabrics) in
  mkWorld (files w) (Some backup) (now w).

(** [{ ...item.state, ...restoredState }]: the fields present in the
    restored state win. *)
Definition overlay (s restored : PackageState) : PackageState :=
  let pick {A : Type} (r o : option A) : option A :=
    match r with
    | Some x => Some x
    | None => o
    end in
  mkState (pick (hasUnpublishedChanges restored) (hasUnpublishedChanges s))
          (pick (isSelectedToPublish restored) (isSelectedToPublish s))
          (pick (changelogChanges restored) (changelogChanges s))
          (pick (integral restored) (integral s))
          (pick (logs restored) (logs s))
          (pick (fileLogs restored) (fileLogs s))
          (pick (releaseType restored) (releaseType s))
          (pick (releaseVersion restored) (releaseVersion s)).

Definition restoreState (backup : StateBackup.t) (fabrics : Fabrics) : Fabrics :=
  map (fun item =>
         match StateBackup.state backup !! packageName (pkg item) with
         | Some restoredState => withState item (overlay (state item) restoredState)
         | None => item
         end)
      fabrics.

(** *** The action *)

Definition phases : list Phase :=
  [ checkPackagesIntegrityPhase;
    findUnpublishedPackagesAsync;
    choosePackagesToPublishAsync;
    updateVersionsAsync;
    updateBundledNativeModulesFileAsync ].

(** How an invocation ends: it returns before the pipeline, it completes
    the pipeline, it calls [process.exit(1)] at a phase, or its promise is
    rejected outside the pipeline. *)
Inductive Exit : Type :=
| Returned
| Completed
| Failed (phaseIndex : nat)
| Rejected (error : string).

(** The outcome of an invocation; [executed] lists the indices of the
    phases that were called, in order, and [fabricsAfter] is the fabrics as
    the last phase that returned has left them. *)
Record Run : Type := mkRun {
  exit : Exit;
  executed : list nat;
  fabricsAfter : Fabrics;
  worldAfter : World
}.

(** The loop [for (; phaseIndex < phases.length; phaseIndex++)], on the
    phases from [phaseIndex] on, followed by the removal of the backup.
    [trace] collects the indices of the phases called.  When a phase
    raises, the process exits: the files are as the phase has left them,
    and the backup file is the one that was there. *)
Fixpoint runFrom (remaining : list Phase) (phaseIndex : nat) (head : string)
         (options : ActionOptions) (env : Environment) (fabrics : Fabrics)
         (w : World) (trace : list nat) : Run :=
  match remaining with
  | [] => mkRun Completed trace fabrics (mkWorld (files w) None (now w))
  | phase :: rest =>
      let '(result, fs') := phase fabrics (Some options) env (files w) in
      let clock := (now w + elapsed env phaseIndex)%Z in
      match result with
      | Thrown _ =>
          mkRun (Failed phaseIndex) (trace ++ [phaseIndex]) fabrics
                (mkWorld fs' (backupFile w) clock)
      | Ok fabrics' =>
          let w' := saveBackup head phaseIndex fabrics' options
                               (mkWorld fs' (backupFile w) clock) in
          runFrom rest (S phaseIndex) head options env fabrics' w'
                  (trace ++ [phaseIndex])
      end
  end.

(** The checks that open [action]; when they fail the action returns. *)
Definition repoChecksPass (options : ActionOptions) (env : Environment) : bool :=
  skipRepoChecks options ||
  (checkBranchNameAsync env && negb (hasUnstagedChanges env)).

Definition action (options : ActionOptions) (env : Environment) (w : World) : Run :=
  if negb (repoChecksPass options env) then mkRun Returned [] [] w
  else
    let headCommitHash := headCommitHash env in
    let fabrics := preparePackageFabricsAsync env options in
    if listUnpublished options then
      match fst (findUnpublishedPackagesAsync fabrics None env (files w)) with
      | Ok fabrics' => mkRun Returned [] fabrics' w
      | Thrown e => mkRun (Rejected e) [] fabrics w
      end
    else
      let backup := maybeRestoreBackupAsync env w headCommitHash options in
      let phaseIndex := match backup with
                        | Some b => StateBackup.phaseIndex b
                        | None => 0
                        end in
      let fabrics := match backup with
                     | Some b => restoreState b fabrics
                     | None => fabrics
                     end in
      runFrom (drop phaseIndex phases) phaseIndex headCommitHash options env
              fabrics w [].

End PublishPackages.

(** ** A repository with two packages *)

Module Scenario.
Import Markdown Packages PublishPackages.

Definition commit1 : Git.GitLog := Git.mkGitLog "h1" "h0" "Publish" "ann" "3 days ago".
Definition commit2 : Git.GitLog := Git.mkGitLog "h2" "h1" "Fix" "bob" "2 days ago".
Definition commit3 : Git.GitLog := Git.mkGitLog "h3" "h2" "Rework" "ann" "1 day ago".

Definition packageA : Package :=
  mkPackage "expo-a" "2.0.0" "packages/a" "packages/a/CHANGELOG.md"
            (mkPackageJson "2.0.0" (Some "h0") false).

Definition packageB : Package :=
  mkPackage "expo-b" "1.0.0" "packages/b" "packages/b/CHANGELOG.md"
            (mkPackageJson "1.0.0" (Some "g0") false).

Definition changelogA : list Token :=
  [ Heading 1 "Changelog";
    Heading 2 "master";
    Heading 3 "🛠 Breaking changes";
    ListItemStart; Text "Removed the old API."; Other; ListItemEnd;
    Heading 3 "🎉 New features";
    Heading 2 "2.0.0";
    Heading 3 "🐛 Bug fixes";
    ListItemStart; Text "Fixed a crash."; ListItemEnd ].

Definition changelogB : list Token :=
  [ Heading 1 "Changelog";
    Heading 2 "master";
    Heading 3 "🛠 Breaking changes";
    Heading 3 "🎉 New features";
    Heading 3 "🐛 Bug fixes";
    Heading 2 "1.0.0";
    Heading 3 "🎉 New features";
    ListItemStart; Text "Initial release."; ListItemEnd ].

(** Package A has three commits since its last-published reference, one of
    them under [ios/]; package B has none. *)
Definition repo : Git.Repository :=
  Git.mkRepository
    (fun cwd range =>
       if String.eqb cwd "packages/a" then
         if String.eqb range "h0..head" then Some [commit3; commit2; commit1] else None
       else if String.eqb cwd "packages/b" then Some []
       else None)
    (fun cwd range =>
       if String.eqb cwd "packages/a" then
         Some [Git.mkGitFileLog "packages/a/ios/Foo.m" "ios/Foo.m" (Some Git.M)]
       else if String.eqb cwd "packages/b" then Some []
       else None).

(** A private package of the monorepo, which the filter drops. *)
Definition packageTools : Package :=
  mkPackage "expo-tools" "0.1.0" "tools" "tools/CHANGELOG.md"
            (mkPackageJson "0.1.0" None true).

(** The surroundings of an invocation in that repository: the operator
    agrees to everything; [writeError] tells the error met when a manifest
    is written and [bundleError] the one met when
    [bundledNativeModules.json] is read, if any; every phase takes a
    second. *)
Definition environmentWith (r : Git.Repository) (writeError : string -> option string)
           (bundleError : option string) : Environment :=
  mkEnv "master" true false "h3"
        [packageA; packageB; packageTools]
        (fun _ _ => None)
        (fun file =>
           if String.eqb file "packages/a/CHANGELOG.md" then Some changelogA
           else if String.eqb file "packages/b/CHANGELOG.md" then Some changelogB
           else None)
        r
        (fun _ => None)
        (fun _ => true)
        true
        writeError
        bundleError
        None
        (fun _ => 1000%Z).

Definition environment (r : Git.Repository) : Environment :=
  environmentWith r (fun _ => None) None.

(** The same surroundings when [bundledNativeModules.json] is missing. *)
Definition missingBundle : Environment :=
  environmentWith repo (fun _ => None) (Some "ENOENT").

(** The surroundings of an invocation that follows the run that failed at
    phase 4 for want of [bundledNativeModules.json]: the manifests are as
    phase 3 has written them, which git reports as unstaged changes, and
    the file is there. *)
Definition afterFailure : Environment :=
  mkEnv "master" true true "h3"
        [ mkPackage "expo-a" "3.0.0" "packages/a" "packages/a/CHANGELOG.md"
                    (mkPackageJson "3.0.0" (Some "h3") false);
          mkPackage "expo-b" "1.0.1" "packages/b" "packages/b/CHANGELOG.md"
                    (mkPackageJson "1.0.1" (Some "g0") false);
          packageTools ]
        (fun _ _ => None)
        (fun file =>
           if String.eqb file "packages/a/CHANGELOG.md" then Some changelogA
           else if String.eqb file "packages/b/CHANGELOG.md" then Some changelogB
           else None)
        repo
        (fun _ => None)
        (fun _ => true)
        true
        (fun _ => None)
        None
        None
        (fun _ => 1000%Z).


(** The options of the runs: [--scope expo-a,expo-b], alone, with
    [--retry --skip-repo-checks] (the retry of a run that has written
    manifests finds them unstaged), with [--prerelease beta], and with
    [--prerelease --retry]. *)
Definition options0 : ActionOptions :=
  mkOptions false (PreFlag false) "" "expo-a,expo-b" false false false.

Definition retryOptions : ActionOptions :=
  mkOptions false (PreFlag false) "" "expo-a,expo-b" true true false.

Definition betaOptions : ActionOptions :=
  mkOptions false (PreIdentifier "beta") "" "expo-a,expo-b" false false false.

Definition prereleaseRetryOptions : ActionOptions :=
  mkOptions false (PreFlag true) "" "expo-a,expo-b" true false false.

(** The options of a run that differs from [options0] by [--dry]. *)
Definition dryOptions : ActionOptions :=
  mkOptions false (PreFlag false) "" "expo-a,expo-b" false false true.

(** The options of a run that only lists the unpublished packages. *)
Definition listOptions : ActionOptions :=
  mkOptions true (PreFlag false) "" "expo-a,expo-b" false false false.

Definition files0 : Files :=
  mkFiles (<["packages/a/package.json" := packageJson packageA]>
             (<["packages/b/package.json" := packageJson packageB]>
                (<["tools/package.json" := packageJson packageTools]> ∅)))
          ∅.

Definition world0 : World := mkWorld files0 None 1000.

Definition fabricA : PackageFabric :=
  mkFabric packageA None (mkChangelog "packages/a/CHANGELOG.md") emptyState.

Definition fabricB : PackageFabric :=
  mkFabric packageB None (mkChangelog "packages/b/CHANGELOG.md") emptyState.

(** The two fabrics with what phase 3 reads of the states that the phases
    1 and 2 give them. *)
Definition releasedA : PackageFabric :=
  withState fabricA
            (mkState (Some true) (Some true) None None (Some [commit3; commit2]) None
                     (Some MAJOR) (Some (Some "3.0.0"))).

Definition releasedB : PackageFabric :=
  withState fabricB
            (mkState (Some false) None None None (Some []) None
                     (Some PATCH) (Some (Some "1.0.1"))).

(** A package whose current version is a prerelease. *)
Definition packageRc : Package :=
  mkPackage "expo-rc" "2.0.0-rc.0" "packages/b" "packages/b/CHANGELOG.md"
            (mkPackageJson "2.0.0-rc.0" (Some "g0") false).

Definition fabricRc : PackageFabric :=
  mkFabric packageRc None (mkChangelog "packages/b/CHANGELOG.md") emptyState.

(** A changelog with the versions [master], [1.2.0] and [1.1.0]: the
    sections newer than [1.1.0], its heading, and its own section. *)
Definition newerSections : list Token :=
  [ Heading 2 "master";
    Heading 3 "🛠 Breaking changes";
    ListItemStart; Text "Dropped a method."; ListItemEnd;
    ListItemStart; Text ""; ListItemEnd;
    Heading 2 "1.2.0";
    Heading 3 "🐛 Bug fixes";
    ListItemStart; Text "Fixed 1.2.0."; ListItemEnd ].

Definition oldSection : list Token :=
  [ Heading 3 "🐛 Bug fixes";
    ListItemStart; Text "Fixed 1.1.0."; ListItemEnd ].

Definition threeVersions : list Token :=
  (newerSections ++ Heading 2 "1.1.0" :: oldSection)%list.

(** A changelog whose only version section is labelled [constructor], a
    name that every object inherits. *)
Definition inheritedLabel : list Token :=
  [ Heading 2 "constructor";
    Heading 3 "🐛 Bug fixes";
    ListItemStart; Text "Fixed a crash."; ListItemEnd ].

End Scenario.

(** ** Notions used to state the properties *)

Module Notions.
Import PublishPackages.

(** The breaking-changes category of the unreleased ([master]) section
    has at least one entry. *)
Definition breakingChangesListed (c : option Changelogs.ChangelogChanges) : Prop :=
  exists changes sections entries,
    c = Some changes /\
    Changelogs.versions changes !! "master" = Some sections /\
    sections !! Changelogs.ChangeType_value Changelogs.BREAKING_CHANGES = Some entries /\
    entries <> [].

(** Some entry of the file log has a relative path under [ios/] or
    [android/]. *)
Definition touchesNativeDirectory (fileLogs : option (list Git.GitFileLog)) : Prop :=
  exists l entry dir rest,
    fileLogs = Some l /\ In entry l /\ In dir ["ios"; "android"] /\
    Git.relativePath entry = dir ++ "/" ++ rest.

(** The two options agree on the three recorded fields. *)
Definition sameBackupableOptions (o1 o2 : ActionOptions) : Prop :=
  scope o1 = scope o2 /\ exclude o1 = exclude o2 /\ dry o1 = dry o2.

(** The index of the phase at which an invocation enters the pipeline: the
    one recorded in the backup it restores, [0] when it restores none. *)
Definition firstPhaseIndex (options : ActionOptions) (env : Environment) (w : World)
  : nat :=
  match maybeRestoreBackupAsync env w (headCommitHash env) options with
  | Some backup => StateBackup.phaseIndex backup
  | None => 0
  end.

(** The value of a call that returns. *)
Definition returned {A : Type} (o : Outcome A) : option A :=
  match o with
  | Ok a => Some a
  | Thrown _ => None
  end.

(** No entry of any section of any version is the empty string. *)
Definition entriesNonEmpty (vs : gmap string (gmap string (list string))) : Prop :=
  forall v sections cs entries e,
    vs !! v = Some sections -> sections !! cs = Some entries ->
    In e entries -> e <> "".

(** The loop state counts its entries, none of which is empty. *)
Definition counted (st : Changelogs.LoopState) : Prop :=
  Changelogs.totalCount (Changelogs.changes st)
  = Changelogs.entryCount (Changelogs.versions (Changelogs.changes st)) /\
  entriesNonEmpty (Changelogs.versions (Changelogs.changes st)).

End Notions.

(** ** Git.ts: the text of branch names and of diffs *)

Module GitText.

(** [getCurrentBranchNameAsync] on the output of [git rev-parse]. *)
Definition getCurrentBranchNameAsync (stdout : string) : string :=
  Js.stripNewlines stdout.

Definition isDigit (a : ascii) : bool :=
  ((48 <=? Js.code a) && (Js.code a <=? 57))%nat.

(** [\w]: a letter, a digit or [_]. *)
Definition isWordChar (a : ascii) : bool :=
  (isDigit a
   || ((65 <=? Js.code a) && (Js.code a <=? 90))
   || ((97 <=? Js.code a) && (Js.code a <=? 122))
   || (Js.code a =? 95))%nat.

Fixpoint allDigits (s : string) : bool :=
  match s with
  | EmptyString => true
  | String a r => isDigit a && allDigits r
  end.

(** [sdk-(\d+)$] at the start of [s]: the digits, when [s] is [sdk-]
    followed by digits only, and at least one. *)
Definition sdkDigits (s : string) : option string :=
  match s with
  | String "s" (String "d" (String "k" (String "-" digits))) =>
      if negb (String.eqb digits "") && allDigits digits then Some digits else None
  | _ => None
  end.

(** The search of [/\bsdk-(\d+)$/] through [s], from left to right;
    [boundary] tells that the position is the start of the string or
    follows a character that [\w] does not match. *)
Fixpoint matchSdk (boundary : bool) (s : string) : option string :=
  match s with
  | EmptyString => None
  | String a r =>
      match (if boundary then sdkDigits s else None) with
      | Some digits => Some digits
      | None => matchSdk (negb (isWordChar a)) r
      end
  end.

(** [getSDKVersionFromBranchNameAsync] on the name of the current branch. *)
Definition getSDKVersionFromBranchNameAsync (currentBranch : string) : option string :=
  match matchSdk true currentBranch with
  | Some sdkMajorNumber => Some (sdkMajorNumber ++ ".0.0")
  | None => None
  end.

(** [GitFileStatus[status]]: the member of the enum with that key
    (properties that objects inherit aside). *)
Definition statusOfKey (status : string) : option Git.GitFileStatus :=
  if String.eqb status "M" then Some Git.M
  else if String.eqb status "C" then Some Git.C
  else if String.eqb status "R" then Some Git.R
  else if String.eqb status "A" then Some Git.A
  else if String.eqb status "D" then Some Git.D
  else if String.eqb status "U" then Some Git.U
  else None.

(** One line of [git diff --name-status] in [logFilesAsync]; [join] is
    [path.join], which raises when [relativePath] is [undefined]. *)
Definition parseLine (join : string -> string -> string) (cwd line : string)
  : Outcome Git.GitFileLog :=
  match Js.splitSpaces line with
  | status :: relativePath :: _ =>
      Ok (Git.mkGitFileLog (join cwd relativePath) relativePath (statusOfKey status))
  | _ => Thrown "TypeError"
  end.

(** What [logFilesAsync] makes of the output of the command:
    [stdout.split(/\n/g).filter(Boolean).map(line => ...)]. *)
Definition parseFileLogs (join : string -> string -> string) (cwd stdout : string)
  : Outcome (list Git.GitFileLog) :=
  PublishPackages.mapO (parseLine join cwd)
                       (List.filter truthy (Js.splitLines stdout)).

End GitText.

(** ** Texts without white space *)

Module Texts.

(** A visible ASCII character. *)
Definition isPlain (a : ascii) : bool :=
  ((33 <=? Js.code a) && (Js.code a <=? 126))%nat.

(** A text of visible ASCII characters. *)
Fixpoint plain (s : string) : bool :=
  match s with
  | EmptyString => true
  | String a r => isPlain a && plain r
  end.

(** A non-empty text of visible ASCII characters other than the comma. *)
Fixpoint commaFree (s : string) : bool :=
  match s with
  | EmptyString => true
  | String a r => isPlain a && negb (Ascii.eqb a ","%char) && commaFree r
  end.

Definition plainName (s : string) : bool :=
  negb (String.eqb s "") && commaFree s.

(** The characters of a text, as atoms. *)
Fixpoint chars (s : string) : list Js.Atom :=
  match s with
  | EmptyString => []
  | String a r => Js.Char a :: chars r
  end.

Definition newline : string := String "010"%char "".
Definition tab : string := String "009"%char "".

(** [n] blanks. *)
Fixpoint blanks (n : nat) : string :=
  match n with
  | O => ""
  | S k => String " "%char (blanks k)
  end.

(** [n] line feeds. *)
Fixpoint newlines (n : nat) : string :=
  match n with
  | O => ""
  | S k => String "010"%char (newlines k)
  end.

(** [names.join(separator)] *)
Fixpoint joinWith (separator : string) (l : list string) : string :=
  match l with
  | [] => ""
  | [x] => x
  | x :: r => x ++ separator ++ joinWith separator r
  end.

(** The last character of a text is not one that [\w] matches. *)
Fixpoint endsOutsideWord (s : string) : bool :=
  match s with
  | EmptyString => true
  | String a EmptyString => negb (GitText.isWordChar a)
  | String _ r => endsOutsideWord r
  end.

(** The last character of a text is not a line feed. *)
Fixpoint endsWithoutNewline (s : string) : bool :=
  match s with
  | EmptyString => true
  | String a EmptyString => negb (Ascii.eqb a "010"%char)
  | String _ r => endsWithoutNewline r
  end.

(** A text without line feed. *)
Fixpoint lineFree (s : string) : bool :=
  match s with
  | EmptyString => true
  | String a r => negb (Ascii.eqb a "010"%char) && lineFree r
  end.

(** A text of upper-case letters and digits, as the status field of
    [git diff --name-status] is: a letter, for some followed by a score.
    No property that objects inherit has such a name. *)
Definition isStatusChar (a : ascii) : bool :=
  (GitText.isDigit a || ((65 <=? Js.code a) && (Js.code a <=? 90)))%nat.

Fixpoint statusWord (s : string) : bool :=
  match s with
  | EmptyString => true
  | String a r => isStatusChar a && statusWord r
  end.

(** A line of [git diff --name-status]: a status, a tab, a path. *)
Definition statusLine (status path : string) : string :=
  status ++ tab ++ path ++ newline.

End Texts.

(** ** ExpoAuthorizationRequest.js *)

Module ExpoAuthorizationRequest.

(** The methods [setupCodeVerifier] and [toJson] of the class, on the
    fields of the object; the constructor, which hands the fields to the
    class it extends and then sets [state] to [null], is not part of the
    model. *)

Definition SIZE : nat := 10.
Definition CHALLENGE_METHOD : string := "S256".

(** The two methods of [ExpoCrypto] that the request calls.
    [generateRandom n size] is the string answered to the [n]-th call, made
    for [size] bytes; [deriveChallenge] may answer nothing. *)
Record Crypto : Type := mkCrypto {
  generateRandom : nat -> nat -> string;
  deriveChallenge : string -> option string
}.

(** The fields of the request; [extras] and [internal] are dictionaries of
    strings, or [undefined]. *)
Record Request : Type := mkRequest {
  responseType : string;
  clientId : string;
  redirectUri : string;
  scope : string;
  state : option string;
  extras : option (gmap string string);
  internal : option (gmap string string);
  usePkce : bool
}.

(** [this.internal?.code_verifier] *)
Definition codeVerifier (this : Request) : option string :=
  internal this ≫= fun m => m !! "code_verifier".

(** [this.extras?.[key]] *)
Definition extra (this : Request) (key : string) : option string :=
  extras this ≫= fun m => m !! key.

(** [setupCodeVerifier], on the request and the number of calls of
    [generateRandom] made so far. *)
Definition setupCodeVerifier (crypto : Crypto) (this : Request) (calls : nat)
  : Request * nat :=
  let '(this, calls) :=
    match state this with
    | Some _ => (this, calls)
    | None =>
        (mkRequest (responseType this) (clientId this) (redirectUri this) (scope this)
                   (Some (generateRandom crypto calls SIZE))
                   (extras this) (internal this) (usePkce this),
         S calls)
    end in
  if negb (usePkce this) || truthyO (codeVerifier this) then (this, calls)
  else
    let verifier := generateRandom crypto calls 128 in
    match deriveChallenge crypto verifier with
    | Some result =>
        if truthy result then
          (mkRequest (responseType this) (clientId this) (redirectUri this) (scope this)
                     (state this)
                     (Some (<["code_challenge_method" := CHALLENGE_METHOD]>
                              (<["code_challenge" := result]>
                                 (default ∅ (extras this)))))
                     (Some (<["code_verifier" := verifier]>
                              (default ∅ (internal this))))
                     (usePkce this),
           S calls)
        else (this, S calls)
    | None => (this, S calls)
    end.

(** The object that [toJson] returns. *)
Record Json : Type := mkJson {
  response_type : string;
  client_id : string;
  redirect_uri : string;
  json_scope : string;
  json_state : option string;
  json_extras : option (gmap string string);
  json_internal : option (gmap string string)
}.

Definition jsonOf (this : Request) : Json :=
  mkJson (responseType this) (clientId this) (redirectUri this) (scope this)
         (state this) (extras this) (internal this).

(** [toJson]: the object returned, the request and the number of calls of
    [generateRandom] afterwards. *)
Definition toJson (crypto : Crypto) (this : Request) (calls : nat)
  : Json * Request * nat :=
  let '(this, calls) := setupCodeVerifier crypto this calls in
  (jsonOf this, this, calls).

(** Every random string is non-empty and every challenge is derived. *)
Definition dependable (crypto : Crypto) : Prop :=
  (forall n size, generateRandom crypto n size <> "") /\
  (forall verifier,
      exists result, deriveChallenge crypto verifier = Some result /\ result <> "").

(** A provider and a request to try the methods on. *)
Definition sampleCrypto : Crypto :=
  mkCrypto (fun n size => String "r" (Semver.N_to_string (N.of_nat n)))
           (fun verifier => Some (String "c" verifier)).

Definition sampleRequest : Request :=
  mkRequest "code" "client" "app://redirect" "openid profile" None None None true.

Definition requestWithVerifier : Request :=
  mkRequest "code" "client" "app://redirect" "openid profile" None None
            (Some (<["code_verifier" := "own"]> ∅)) true.

End ExpoAuthorizationRequest.

(** ** What is observed of fabrics and files *)

Module Observations.
Import Packages PublishPackages.

(** The part of a fabric that is assigned once, when it is prepared. *)
Definition identity (f : PackageFabric)
  : Package * option Npm.PackageViewType * Changelog :=
  (pkg f, pkgView f, changelog f).

(** The file that phase 3 writes for a fabric. *)
Definition manifestPath (f : PackageFabric) : string :=
  path_join (path (pkg f)) "package.json".

(** A fabric as [preparePackageFabricsAsync] builds it: with the state [{}]. *)
Definition fresh (f : PackageFabric) : PackageFabric := withState f emptyState.

(** The names of the packages of the fabrics. *)
Definition names (fabrics : Fabrics) : list string :=
  map (fun f => packageName (pkg f)) fabrics.

(** A phase that returns keeps the identity of every fabric, in order. *)
Definition keepsIdentity (phase : Phase) : Prop :=
  forall fabrics options env fs fabrics' fs',
    phase fabrics options env fs = (Ok fabrics', fs') ->
    map identity fabrics' = map identity fabrics.

(** The states of fabrics by package name, as a backup records them; of
    two fabrics of the same name, the later one counts. *)
Definition statesByName (fabrics : Fabrics) : gmap string PackageState :=
  foldl (fun m f => <[packageName (pkg f) := state f]> m) ∅ fabrics.

(** What the clock shows after the [n] phases from phase [first] on have
    been called, when it showed [start] before. *)
Definition clockAfter (env : Environment) (start : Z) (first n : nat) : Z :=
  foldl (fun t i => (t + elapsed env i)%Z) start (seq first n).

End Observations.

(** ** What the reader of changelogs relies on *)

Module ReaderNotions.
Import Markdown Changelogs.

(** Every [LIST_ITEM_START] of the tokens has a [LIST_ITEM_END] after it. *)
Fixpoint closedItems (tokens : list Token) : bool :=
  match tokens with
  | [] => true
  | ListItemStart :: rest => existsb isListItemEnd rest && closedItems rest
  | _ :: rest => closedItems rest
  end.

(** No heading is named after a property that every object inherits: the
    objects [versions] and [versions[currentVersion]] then hold under the
    names of the headings what the loop has put there, and nothing else. *)
Definition ownHeadings (tokens : list Token) : bool :=
  forallb (fun tok =>
             match tok with
             | Heading _ text => negb (Js.inherited text)
             | _ => true
             end)
          tokens.

(** The current version of the loop has its dictionary in [versions]. *)
Definition owned (st : LoopState) : Prop :=
  forall cv, currentVersion st = Some cv -> is_Some (versions (changes st) !! cv).

(** Inside a list item the two variables of the loop are those with which
    the item was entered. *)
Definition inside (item : option (string * string)) (st : LoopState) : Prop :=
  match item with
  | Some (cv, cs) => currentVersion st = Some cv /\ currentSection st = Some cs
  | None => True
  end.

(** The current version of the loop has its dictionary of sections, and
    the current section its array of entries. *)
Definition linked (st : LoopState) : Prop :=
  forall cv, currentVersion st = Some cv ->
    exists sections,
      versions (changes st) !! cv = Some sections /\
      forall cs, currentSection st = Some cs -> is_Some (sections !! cs).

(** What remains to be read can be read to the end: inside a list item its
    end is still to come. *)
Definition readable (item : option (string * string)) (st : LoopState)
           (tokens : list Token) : Prop :=
  linked st /\
  closedItems tokens = true /\
  match item with
  | Some (cv, cs) =>
      currentVersion st = Some cv /\ currentSection st = Some cs /\
      existsb isListItemEnd tokens = true
  | None => True
  end.

(** The loop is outside any change-type section and has counted nothing. *)
Definition beforeSections (st : LoopState) : Prop :=
  currentSection st = None /\ totalCount (changes st) = 0.

End ReaderNotions.

(** * Properties *)

Import Notions.

(** ** Strings *)

Lemma eqb_string_true (a b : string) : String.eqb a b = true <-> a = b.
Proof. apply String.eqb_eq. Qed.

Lemma eqb_string_false (a b : string) : String.eqb a b = false <-> a <> b.
Proof. apply String.eqb_neq. Qed.

Lemma append_cons (a : ascii) (s t : string) : String a s ++ t = String a (s ++ t).
Proof. reflexivity. Qed.

Lemma append_associative (a b c : string) : (a ++ b) ++ c = a ++ (b ++ c).
Proof.
  induction a as [|x a IH]; [reflexivity|].
  now rewrite !append_cons, IH.
Qed.

Lemma prefix_iff (p s : string) :
  String.prefix p s = true <-> exists rest, s = p ++ rest.
Proof.
  revert s. induction p as [|a p IH]; intros s.
  - split; [intros _; now exists s | intros _; now destruct s].
  - destruct s as [|b s]; simpl.
    + split; [discriminate | intros [rest H]; discriminate].
    + destruct (Ascii.ascii_dec a b) as [->|Hne].
      * rewrite IH. split; intros [rest H]; exists rest.
        -- rewrite H. reflexivity.
        -- change (String b s = String b (p ++ rest)) in H. congruence.
      * split; [discriminate|]. intros [rest H].
        change (String b s = String a (p ++ rest)) in H. congruence.
Qed.

(** ** The release decision *)

Section ReleaseDecision.
Import PublishPackages.

Lemma hasBreakingChanges_spec c :
  hasBreakingChanges c = true <-> breakingChangesListed c.
Proof.
  unfold hasBreakingChanges, breakingChangesListed. split.
  - destruct c as [changes|]; [|discriminate].
    destruct (Changelogs.versions changes !! "master") as [sections|] eqn:Hv;
      [|discriminate].
    destruct (sections !! _) as [entries|] eqn:Hs; [|discriminate].
    intros H. exists changes, sections, entries. repeat split; auto.
    intros ->. discriminate.
  - intros (changes & sections & entries & -> & Hv & Hs & Hne).
    rewrite Hv, Hs. destruct entries; [congruence | reflexivity].
Qed.

Lemma fileLogsContainNativeChanges_spec l :
  fileLogsContainNativeChanges l = true <-> touchesNativeDirectory (Some l).
Proof.
  unfold fileLogsContainNativeChanges, touchesNativeDirectory. split.
  - intros H. apply existsb_exists in H as (entry & Hin & H).
    apply existsb_exists in H as (dir & Hdir & H).
    apply prefix_iff in H as [rest H].
    exists l, entry, dir, rest. repeat split; auto.
    rewrite H. now rewrite append_associative.
  - intros (l' & entry & dir & rest & [= <-] & Hin & Hdir & H).
    apply existsb_exists. exists entry. split; [assumption|].
    apply existsb_exists. exists dir. split; [assumption|].
    apply prefix_iff. exists rest. rewrite H. now rewrite append_associative.
Qed.

Lemma touchesNativeDirectory_none : ~ touchesNativeDirectory None.
Proof. intros (l & ? & ? & ? & H & _). discriminate. Qed.

(** C2. For a current version that is not a prerelease, the suggested
    release type is major when the breaking-changes category of the
    unreleased section has an entry; otherwise minor when some file-log
    entry lies under [ios/] or [android/]; otherwise patch. *)
Theorem suggested_release_type_precedence
        (currentVersion : string) (fileLogs : option (list Git.GitFileLog))
        (changes : option Changelogs.ChangelogChanges)
        (pre : option PrereleaseOption) :
  Semver.prerelease currentVersion = None ->
  (breakingChangesListed changes ->
   getSuggestedReleaseType currentVersion fileLogs changes pre = Some MAJOR) /\
  (~ breakingChangesListed changes -> touchesNativeDirectory fileLogs ->
   getSuggestedReleaseType currentVersion fileLogs changes pre = Some MINOR) /\
  (~ breakingChangesListed changes -> ~ touchesNativeDirectory fileLogs ->
   getSuggestedReleaseType currentVersion fileLogs changes pre = Some PATCH).
Proof.
  intros Hpre. unfold getSuggestedReleaseType. rewrite Hpre.
  destruct (hasBreakingChanges changes) eqn:Hb.
  - apply hasBreakingChanges_spec in Hb. repeat split; intros; tauto.
  - assert (Hnb : ~ breakingChangesListed changes).
    { rewrite <- hasBreakingChanges_spec. congruence. }
    destruct fileLogs as [l|].
    + destruct (fileLogsContainNativeChanges l) eqn:Hn.
      * apply fileLogsContainNativeChanges_spec in Hn. repeat split; intros; tauto.
      * assert (~ touchesNativeDirectory (Some l)).
        { rewrite <- fileLogsContainNativeChanges_spec. congruence. }
        repeat split; intros; tauto.
    + pose proof touchesNativeDirectory_none. repeat split; intros; tauto.
Qed.

Lemma suggested_release_type_precedence_witness :
  Semver.prerelease "2.0.0" = None /\
  getSuggestedReleaseType "2.0.0"
    (Some [Git.mkGitFileLog "packages/a/ios/Foo.m" "ios/Foo.m" (Some Git.M)])
    None None = Some MINOR.
Proof.
  split; [reflexivity|].
  apply (suggested_release_type_precedence "2.0.0" _ None None); [reflexivity | |].
  - intros (? & ? & ? & H & _). discriminate.
  - exists [Git.mkGitFileLog "packages/a/ios/Foo.m" "ios/Foo.m" (Some Git.M)],
      (Git.mkGitFileLog "packages/a/ios/Foo.m" "ios/Foo.m" (Some Git.M)),
      "ios", "Foo.m".
    repeat split; simpl; auto.
Defined.

End ReleaseDecision.

(** ** Validity of a backup *)

Section BackupValidity.
Import PublishPackages.

Lemma diff_none_iff (l r : BackupableOptions.t) : diff l r = None <-> l = r.
Proof.
  destruct l as [s1 e1 d1], r as [s2 e2 d2]. unfold diff; simpl.
  destruct (String.eqb_spec s1 s2) as [->|Hs], (String.eqb_spec e1 e2) as [->|He],
           d1, d2; simpl; split; intros H; congruence.
Qed.

Lemma isBackupValid_iff now backup currentHead options :
  isBackupValid now backup currentHead options = true <->
  currentHead = StateBackup.head backup /\
  (now - StateBackup.timestamp backup <= BACKUP_EXPIRATION_TIME)%Z /\
  pickBackupableOptions options = StateBackup.options backup.
Proof.
  unfold isBackupValid.
  destruct (String.eqb currentHead (StateBackup.head backup)) eqn:Hh; simpl.
  - apply eqb_string_true in Hh.
    destruct (now - StateBackup.timestamp backup >? BACKUP_EXPIRATION_TIME)%Z eqn:Ht.
    + apply Z.gtb_lt in Ht. split; [discriminate | intros (_ & ? & _); lia].
    + assert (now - StateBackup.timestamp backup <= BACKUP_EXPIRATION_TIME)%Z.
      { apply Z.leb_le. rewrite Z.gtb_ltb, Z.ltb_antisym in Ht.
        now apply negb_false_iff in Ht. }
      destruct (diff _ _) eqn:Hd.
      * split; [discriminate|]. intros (_ & _ & He).
        apply diff_none_iff in He. congruence.
      * apply diff_none_iff in Hd. tauto.
  - apply eqb_string_false in Hh. split; [discriminate | tauto].
Qed.

(** C3. A stored backup is accepted exactly when its head is the current
    head, its age does not exceed the expiration time, and the options it
    recorded are those picked from the current options; failing any one
    of the three, whatever the other two, rejects it. *)
Theorem backup_valid_iff_head_age_options
        (now : Z) (backup : StateBackup.t) (currentHead : string)
        (options : ActionOptions) :
  (isBackupValid now backup currentHead options = true <->
   currentHead = StateBackup.head backup /\
   (now - StateBackup.timestamp backup <= BACKUP_EXPIRATION_TIME)%Z /\
   pickBackupableOptions options = StateBackup.options backup) /\
  (currentHead <> StateBackup.head backup ->
   isBackupValid now backup currentHead options = false) /\
  (~ (now - StateBackup.timestamp backup <= BACKUP_EXPIRATION_TIME)%Z ->
   isBackupValid now backup currentHead options = false) /\
  (pickBackupableOptions options <> StateBackup.options backup ->
   isBackupValid now backup currentHead options = false).
Proof.
  pose proof (isBackupValid_iff now backup currentHead options) as H.
  split; [exact H|].
  repeat split; intros Hn; apply not_true_is_false; intros Hv;
    apply H in Hv; tauto.
Qed.

Lemma backupFile_saveBackup head i fabrics options w :
  exists backup,
    backupFile (saveBackup head i fabrics options w) = Some backup /\
    StateBackup.head backup = head /\
    StateBackup.phaseIndex backup = i /\
    StateBackup.timestamp backup = PublishPackages.now w /\
    StateBackup.options backup = pickBackupableOptions options.
Proof. eexists. repeat split. Qed.

(** C10. A backup records exactly [scope], [exclude] and [dry], and these
    are what the validity check compares.  Two runs that agree on these
    three get the same verdict on any backup, whatever their other options
    ([prerelease], [retry], [listUnpublished], [skipRepoChecks]); and a
    backup written by a run is accepted by another run, at the same head
    and before it expires, exactly when the two runs agree on [scope],
    [exclude] and [dry]: a difference in any of the three rejects it, a
    difference in the other options does not. *)
Theorem backup_validity_ignores_other_options
        (options options' : ActionOptions) :
  (sameBackupableOptions options options' ->
   forall now backup currentHead,
     isBackupValid now backup currentHead options
     = isBackupValid now backup currentHead options') /\
  (forall head i fabrics w later,
      (later - PublishPackages.now w <= BACKUP_EXPIRATION_TIME)%Z ->
      exists backup,
        backupFile (saveBackup head i fabrics options w) = Some backup /\
        StateBackup.options backup
        = BackupableOptions.mk (scope options) (exclude options) (dry options) /\
        (isBackupValid later backup head options' = true <->
         sameBackupableOptions options options')).
Proof.
  split.
  - intros (Hs & He & Hd) now backup currentHead.
    assert (Hp : pickBackupableOptions options = pickBackupableOptions options').
    { unfold pickBackupableOptions. congruence. }
    unfold isBackupValid. now rewrite Hp.
  - intros head i fabrics w later Hage.
    destruct (backupFile_saveBackup head i fabrics options w)
      as (backup & Hb & Hh & _ & Ht & Ho).
    exists backup. split; [assumption|]. split; [now rewrite Ho|].
    rewrite isBackupValid_iff, Hh, Ht, Ho. unfold pickBackupableOptions.
    split.
    + intros (_ & _ & [= Hs He Hd]). now repeat split.
    + intros (Hs & He & Hd). repeat split; [assumption|]. congruence.
Qed.

Lemma backup_validity_ignores_other_options_witness :
  exists backup,
    backupFile (saveBackup "h3" 1 [Scenario.fabricA] Scenario.options0 Scenario.world0)
    = Some backup /\
    isBackupValid 2000 backup "h3" Scenario.prereleaseRetryOptions = true /\
    isBackupValid 2000 backup "h3" Scenario.dryOptions = false.
Proof.
  destruct (proj2 (backup_validity_ignores_other_options
                     Scenario.options0 Scenario.prereleaseRetryOptions)
                  "h3" 1 [Scenario.fabricA] Scenario.world0 2000%Z)
    as (backup & Hb & _ & Hv); [vm_compute; discriminate|].
  destruct (proj2 (backup_validity_ignores_other_options
                     Scenario.options0 Scenario.dryOptions)
                  "h3" 1 [Scenario.fabricA] Scenario.world0 2000%Z)
    as (backup' & Hb' & _ & Hv'); [vm_compute; discriminate|].
  rewrite Hb in Hb'. injection Hb' as <-.
  exists backup. split; [exact Hb|]. split.
  - apply Hv. repeat split.
  - apply not_true_is_false. intros H. apply Hv' in H as (_ & _ & Hd).
    discriminate.
Defined.

End BackupValidity.

(** ** The history analysis and the suggestion of phase 1 *)

Section FindUnpublished.
Import PublishPackages Packages.

Lemma bindO_Ok {A B : Type} (o : Outcome A) (k : A -> Outcome B) (b : B) :
  bindO o k = Ok b -> exists a, o = Ok a /\ k a = Ok b.
Proof. destruct o as [a|e]; simpl; [eauto | discriminate]. Qed.

(** What an iteration of phase 1 that returns has read and stored. *)
Lemma findUnpublishedPackage_inv env options f f' :
  findUnpublishedPackage env options f = Ok f' ->
  exists changes allLogs fileLog,
    Git.logAsync (repository env) (path (pkg f))
                 (gitHead (packageJson (pkg f))) (Some "head") = Ok allLogs /\
    logs (state f')
    = Some (unpublishedLogs (gitHead (packageJson (pkg f))) allLogs) /\
    let type := getSuggestedReleaseType (packageVersion (pkg f)) (Some fileLog)
                                        (Some changes) None in
    let next := Semver.inc (packageVersion (pkg f)) (ReleaseType_value <$> type) None in
    (releaseType (state f') = type /\ releaseVersion (state f') = Some next /\
     (type = None \/ next = None \/ next = Some "" \/
      exists o, options = Some o /\ prereleaseIdentifier o = None))
    \/
    (exists o identifier v,
        options = Some o /\ prereleaseIdentifier o = Some identifier /\
        next = Some v /\
        releaseType (state f') = ReleaseType_PRERELEASE /\
        releaseVersion (state f')
        = Some (Semver.inc v (ReleaseType_value <$> ReleaseType_PRERELEASE)
                           (Some identifier))).
Proof.
  unfold findUnpublishedPackage. intros H.
  apply bindO_Ok in H as (tokens & _ & H).
  apply bindO_Ok in H as (changes & _ & H).
  apply bindO_Ok in H as (allLogs & Hlog & H).
  apply bindO_Ok in H as (fileLog & _ & H).
  exists changes, allLogs, fileLog. split; [exact Hlog|].
  cbv zeta.
  destruct (getSuggestedReleaseType _ _ _ _) as [t|] eqn:Ht.
  - destruct (Semver.inc _ _ _) as [v|] eqn:Hv.
    + destruct (truthy v) eqn:Htr.
      * destruct options as [o|]; [|discriminate].
        destruct (prereleaseIdentifier o) as [identifier|] eqn:Hid;
          injection H as <-; simpl.
        -- split; [reflexivity|]. right. exists o, identifier, v. auto.
        -- split; [reflexivity|]. left. repeat split. right. right. right. eauto.
      * injection H as <-; simpl. split; [reflexivity|]. left. repeat split.
        right. right. left. unfold truthy in Htr. apply negb_false_iff in Htr.
        apply eqb_string_true in Htr. now subst.
    + injection H as <-; simpl. split; [reflexivity|]. left. auto.
  - injection H as <-; simpl. split; [reflexivity|]. left. auto.
Qed.

(** C5. When phase 1 returns for a package whose last-published commit
    reference is a non-empty string, the commit log it keeps is the log
    answered by git (newest first) without its last entry, the oldest one;
    an empty log stays empty.  When the reference is absent or empty, the
    log is kept whole. *)
Theorem kept_log_drops_oldest_entry
        (env : Environment) (options : option ActionOptions)
        (f f' : PackageFabric) (allLogs : list Git.GitLog) :
  Git.logAsync (repository env) (path (pkg f))
               (gitHead (packageJson (pkg f))) (Some "head") = Ok allLogs ->
  findUnpublishedPackage env options f = Ok f' ->
  (forall reference,
      gitHead (packageJson (pkg f)) = Some reference -> reference <> "" ->
      (allLogs = [] -> logs (state f') = Some []) /\
      (forall newer oldest,
          allLogs = (newer ++ [oldest])%list -> logs (state f') = Some newer)) /\
  (gitHead (packageJson (pkg f)) = None \/ gitHead (packageJson (pkg f)) = Some "" ->
   logs (state f') = Some allLogs).
Proof.
  intros Hlog H.
  apply findUnpublishedPackage_inv in H as (_ & allLogs' & _ & Hlog' & Hkept & _).
  rewrite Hlog in Hlog'. injection Hlog' as <-. rewrite Hkept. clear Hkept.
  unfold unpublishedLogs. split.
  - intros reference -> Hne. simpl.
    assert (truthy reference = true) as ->.
    { unfold truthy. apply negb_true_iff. now apply eqb_string_false. }
    split.
    + now intros ->.
    + intros newer oldest ->. now rewrite removelast_last.
  - intros [-> | ->]; reflexivity.
Qed.

Lemma kept_log_drops_oldest_entry_witness :
  exists f',
    findUnpublishedPackage (Scenario.environment Scenario.repo)
                           (Some Scenario.options0) Scenario.fabricA = Ok f' /\
    logs (state f') = Some [Scenario.commit3; Scenario.commit2].
Proof.
  assert (E : exists f',
             findUnpublishedPackage (Scenario.environment Scenario.repo)
                                    (Some Scenario.options0) Scenario.fabricA = Ok f')
    by (vm_compute; eexists; reflexivity).
  destruct E as [f' E]. exists f'. split; [exact E|].
  destruct (kept_log_drops_oldest_entry
              (Scenario.environment Scenario.repo) (Some Scenario.options0)
              Scenario.fabricA f'
              [Scenario.commit3; Scenario.commit2; Scenario.commit1]
              eq_refl E) as [H _].
  destruct (H "h0" eq_refl) as [_ H']; [discriminate|].
  exact (H' [Scenario.commit3; Scenario.commit2] Scenario.commit1 eq_refl).
Defined.

(** C5, as stated, fails: with the log [commit3; commit2; commit1]
    (newest first) and the reference ["h0"], the newest entry [commit3] is
    kept and the oldest is the one discarded. *)
Lemma newest_entry_is_not_discarded :
  exists f',
    findUnpublishedPackage (Scenario.environment Scenario.repo)
                           (Some Scenario.options0) Scenario.fabricA = Ok f' /\
    Git.logAsync (repository (Scenario.environment Scenario.repo))
                 (path (pkg Scenario.fabricA))
                 (gitHead (packageJson (pkg Scenario.fabricA))) (Some "head")
    = Ok [Scenario.commit3; Scenario.commit2; Scenario.commit1] /\
    logs (state f') = Some [Scenario.commit3; Scenario.commit2] /\
    logs (state f') <> Some [Scenario.commit2; Scenario.commit1].
Proof.
  eexists. split; [vm_compute; reflexivity|].
  split; [reflexivity|]. split; [reflexivity | discriminate].
Qed.

End FindUnpublished.

(** ** Prerelease versions *)

Section Prerelease.
Import PublishPackages Packages.

Lemma append_nonempty (s t : string) : s <> "" -> s ++ t <> "".
Proof. destruct s; [congruence | discriminate]. Qed.

Lemma N_digits_nonempty fuel n a s : Semver.N_digits fuel n (String a s) <> "".
Proof.
  revert n a s. induction fuel as [|fuel IH]; intros n a s; simpl; [discriminate|].
  destruct (n / 10 =? 0)%N; [discriminate | apply IH].
Qed.

Lemma N_to_string_nonempty n : Semver.N_to_string n <> "".
Proof.
  unfold Semver.N_to_string. simpl.
  destruct (n / 10 =? 0)%N; [discriminate | apply N_digits_nonempty].
Qed.

Lemma format_truthy v : truthy (Semver.format v) = true.
Proof.
  unfold truthy. apply negb_true_iff, eqb_string_false.
  unfold Semver.format.
  destruct (Semver.prerelease_ids v);
    repeat apply append_nonempty; apply N_to_string_nonempty.
Qed.

Lemma inc_release_truthy version parsed (t : ReleaseType) :
  Semver.parse version = Some parsed ->
  exists next,
    Semver.inc version (Some (ReleaseType_value t)) None = Some next /\
    truthy next = true.
Proof.
  intros Hp. unfold Semver.inc. rewrite Hp.
  destruct t; simpl; eexists; (split; [reflexivity | apply format_truthy]).
Qed.

Lemma inc_undefined version identifier : Semver.inc version None identifier = None.
Proof. unfold Semver.inc. now destruct (Semver.parse version). Qed.

(** C6 on the code: for a current version that is a prerelease, the
    suggestion is [ReleaseType.PRERELEASE], a member the enum does not
    declare, so that no release type is returned and [semver.inc] computes
    no next version; phase 1 stores neither. *)
Theorem prerelease_current_version_gets_no_suggestion
        (currentVersion : string) (ids : list Semver.Identifier) :
  Semver.prerelease currentVersion = Some ids ->
  (forall fileLogs changes pre,
      getSuggestedReleaseType currentVersion fileLogs changes pre = None /\
      Semver.inc currentVersion
                 (ReleaseType_value <$>
                    getSuggestedReleaseType currentVersion fileLogs changes pre)
                 None = None) /\
  (forall env options f f',
      packageVersion (pkg f) = currentVersion ->
      findUnpublishedPackage env options f = Ok f' ->
      releaseType (state f') = None /\ releaseVersion (state f') = Some None).
Proof.
  intros Hpre.
  assert (Hs : forall fileLogs changes pre,
             getSuggestedReleaseType currentVersion fileLogs changes pre = None).
  { intros. unfold getSuggestedReleaseType. now rewrite Hpre. }
  split.
  - intros. rewrite Hs. split; [reflexivity | apply inc_undefined].
  - intros env options f f' Hv H.
    apply findUnpublishedPackage_inv in H as (changes & allLogs & fileLog & _ & _ & H).
    cbv zeta in H. rewrite Hv, Hs in H. simpl in H. rewrite inc_undefined in H.
    destruct H as [(-> & -> & _) | (o & identifier & v & _ & _ & [=] & _)].
    split; reflexivity.
Qed.

Lemma prerelease_current_version_gets_no_suggestion_witness :
  Semver.prerelease "2.0.0-rc.0" = Some [Semver.Alnum "rc"; Semver.Num 0] /\
  getSuggestedReleaseType "2.0.0-rc.0" None None None = None /\
  Semver.inc "2.0.0-rc.0"
             (ReleaseType_value <$> getSuggestedReleaseType "2.0.0-rc.0" None None None)
             None = None.
Proof.
  split; [reflexivity|].
  exact (proj1 (prerelease_current_version_gets_no_suggestion
                  "2.0.0-rc.0" [Semver.Alnum "rc"; Semver.Num 0] eq_refl)
               None None None).
Defined.

(** C7 on the code: when a prerelease identifier is requested for a valid
    current version that is not a prerelease, phase 1 overwrites the
    release type with [ReleaseType.PRERELEASE], which is [undefined], and
    the second call of [semver.inc] with it computes no version: the state
    holds no release type and the version [null]. *)
Theorem requested_prerelease_leaves_no_release
        (env : Environment) (options : ActionOptions) (f f' : PackageFabric)
        (identifier : string) (parsed : Semver.SemVer) :
  prereleaseIdentifier options = Some identifier ->
  Semver.parse (packageVersion (pkg f)) = Some parsed ->
  Semver.prerelease (packageVersion (pkg f)) = None ->
  findUnpublishedPackage env (Some options) f = Ok f' ->
  releaseType (state f') = None /\ releaseVersion (state f') = Some None.
Proof.
  intros Hid Hparse Hpre H.
  apply findUnpublishedPackage_inv in H as (changes & allLogs & fileLog & _ & _ & H).
  cbv zeta in H.
  assert (exists t, getSuggestedReleaseType (packageVersion (pkg f)) (Some fileLog)
                                           (Some changes) None = Some t) as [t Ht].
  { unfold getSuggestedReleaseType. rewrite Hpre.
    destruct (hasBreakingChanges _); [eauto|].
    destruct (fileLogsContainNativeChanges _); eauto. }
  rewrite Ht in H. simpl in H.
  destruct (inc_release_truthy _ _ t Hparse) as (next & Hnext & Htruthy).
  rewrite Hnext in H.
  destruct H as [(_ & _ & [? | [? | [Hempty | (o & [= <-] & Hnone)]]])
                | (o & identifier' & v & [= <-] & _ & _ & -> & ->)];
    try discriminate; try congruence.
  - injection Hempty as ->. discriminate.
  - split; [reflexivity|]. simpl. now rewrite inc_undefined.
Qed.

Lemma requested_prerelease_leaves_no_release_witness :
  exists f',
    findUnpublishedPackage (Scenario.environment Scenario.repo)
                           (Some Scenario.betaOptions) Scenario.fabricB = Ok f' /\
    releaseType (state f') = None /\ releaseVersion (state f') = Some None.
Proof.
  assert (E : exists f',
             findUnpublishedPackage (Scenario.environment Scenario.repo)
                                    (Some Scenario.betaOptions) Scenario.fabricB
             = Ok f')
    by (vm_compute; eexists; reflexivity).
  destruct E as [f' E]. exists f'. split; [exact E|].
  apply (requested_prerelease_leaves_no_release
           (Scenario.environment Scenario.repo) Scenario.betaOptions
           Scenario.fabricB f' "beta" (Semver.mkSemVer 1 0 0 []));
    [reflexivity | reflexivity | reflexivity | exact E].
Defined.

(** Phase 1 on a package whose current version is [2.0.0-rc.0]. *)
Example phase1_on_prerelease_package :
  option_map (fun f => (releaseType (state f), releaseVersion (state f)))
             (returned (findUnpublishedPackage (Scenario.environment Scenario.repo)
                                               (Some Scenario.options0)
                                               Scenario.fabricRc))
  = Some (None, Some None).
Proof. vm_compute. reflexivity. Qed.

(** The first increment alone, and what [semver] answers to a
    ['prerelease'] increment of its result. *)
Remark increments_of_1_0_0 :
  Semver.inc "1.0.0" (Some (ReleaseType_value PATCH)) None = Some "1.0.1" /\
  Semver.inc "1.0.1" (Some "prerelease") (Some "beta") = Some "1.0.2-beta.0" /\
  Semver.inc "2.0.0-rc.0" (Some "prerelease") None = Some "2.0.0-rc.1".
Proof. repeat split. Qed.

End Prerelease.

(** ** The phase pipeline *)

Section Pipeline.
Import PublishPackages Packages Observations.

(** A run calls consecutive phases, at least the first remaining one. *)
Lemma executed_runFrom remaining :
  forall phaseIndex head options env fabrics w trace,
  exists n,
    executed (runFrom remaining phaseIndex head options env fabrics w trace)
    = (trace ++ seq phaseIndex n)%list /\
    (remaining <> [] -> 1 <= n).
Proof.
  induction remaining as [|phase rest IH]; intros; simpl.
  - exists 0. simpl. rewrite app_nil_r. split; [reflexivity | congruence].
  - destruct (phase _ _ _ _) as [[fabrics'|e] fs']; simpl.
    + destruct (IH (S phaseIndex) head options env fabrics'
                   (saveBackup head phaseIndex fabrics' options
                               (mkWorld fs' (backupFile w)
                                        (now w + elapsed env phaseIndex)))
                   (trace ++ [phaseIndex])%list) as (n & -> & _).
      exists (S n). rewrite <- app_assoc. simpl. split; [reflexivity | lia].
    + exists 1. simpl. split; [reflexivity | lia].
Qed.

Lemma clockAfter_step env start first n :
  clockAfter env start first (S n)
  = clockAfter env (start + elapsed env first) (S first) n.
Proof. reflexivity. Qed.

(** A run that fails at phase [i] has called the phases from its first
    one to [i].  The backup file is the one saved after phase [i - 1]; when
    the first phase called fails, it is the one found at the start and the
    fabrics are those the run started with. *)
Lemma runFrom_failed remaining :
  forall phaseIndex head options env fabrics w trace i,
    exit (runFrom remaining phaseIndex head options env fabrics w trace) = Failed i ->
    phaseIndex <= i < phaseIndex + length remaining /\
    executed (runFrom remaining phaseIndex head options env fabrics w trace)
    = (trace ++ seq phaseIndex (S (i - phaseIndex)))%list /\
    (phaseIndex < i ->
     backupFile (worldAfter (runFrom remaining phaseIndex head options env
                                     fabrics w trace))
     = Some (StateBackup.mk
               (clockAfter env (now w) phaseIndex (i - phaseIndex))
               head (i - 1) (pickBackupableOptions options)
               (statesByName
                  (fabricsAfter (runFrom remaining phaseIndex head options env
                                         fabrics w trace))))) /\
    (phaseIndex = i ->
     backupFile (worldAfter (runFrom remaining phaseIndex head options env
                                     fabrics w trace)) = backupFile w /\
     fabricsAfter (runFrom remaining phaseIndex head options env fabrics w trace)
     = fabrics).
Proof.
  induction remaining as [|phase rest IH]; intros phaseIndex head options env
                                                  fabrics w trace i; simpl.
  - discriminate.
  - destruct (phase _ _ _ _) as [[fabrics'|e] fs']; simpl.
    + intros H. apply IH in H as (Hrange & Hexec & Hlater & Hfirst).
      split; [lia|]. split.
      * rewrite Hexec, <- app_assoc. simpl.
        replace (i - phaseIndex) with (S (i - S phaseIndex)) by lia.
        reflexivity.
      * split; [|lia]. intros _.
        replace (i - phaseIndex) with (S (i - S phaseIndex)) by lia.
        rewrite clockAfter_step.
        destruct (Nat.eq_dec (S phaseIndex) i) as [Heq|Hne].
        -- destruct (Hfirst Heq) as [-> ->]. subst i.
           rewrite Nat.sub_diag. simpl. rewrite Nat.sub_0_r. reflexivity.
        -- apply Hlater. lia.
    + intros [= <-]. split; [lia|]. rewrite Nat.sub_diag. simpl.
      split; [reflexivity|]. split; [lia | auto].
Qed.

(** C1. When a run fails at phase [i] after having itself completed phase
    [i - 1] (for a run from scratch: whenever [i >= 1]), the backup file
    holds the backup saved after phase [i - 1]: it records the time at
    which that phase completed, the head commit, the index [i - 1], the
    options [scope], [exclude] and [dry] of the run, and the states in
    which that phase left the fabrics.  A later invocation that restores
    this backup enters the pipeline at phase [i - 1], the last phase the
    failed run had completed, and calls the phases from there on in
    order. *)
Theorem failed_run_resumes_at_last_completed_phase
        (options : ActionOptions) (env : Environment) (w : World) (i : nat) :
  exit (action options env w) = Failed i ->
  firstPhaseIndex options env w < i ->
  exists backup,
    backupFile (worldAfter (action options env w)) = Some backup /\
    backup
    = StateBackup.mk
        (clockAfter env (now w) (firstPhaseIndex options env w)
                    (i - firstPhaseIndex options env w))
        (headCommitHash env) (i - 1)
        (BackupableOptions.mk (scope options) (exclude options) (dry options))
        (statesByName (fabricsAfter (action options env w))) /\
    executed (action options env w)
    = seq (firstPhaseIndex options env w) (S (i - firstPhaseIndex options env w)) /\
    forall options' env' w',
      repoChecksPass options' env' = true ->
      listUnpublished options' = false ->
      maybeRestoreBackupAsync env' w' (headCommitHash env') options' = Some backup ->
      exists n, executed (action options' env' w') = seq (i - 1) (S n).
Proof.
  unfold firstPhaseIndex. intros Hexit Hi. unfold action in Hexit |- *.
  destruct (negb (repoChecksPass options env)); [discriminate|].
  destruct (listUnpublished options).
  { destruct (fst (findUnpublishedPackagesAsync _ _ _ _)); discriminate. }
  apply runFrom_failed in Hexit as (Hrange & Hexec & Hlater & _).
  specialize (Hlater Hi). eexists. split; [exact Hlater|].
  split; [reflexivity|]. split; [exact Hexec|].
  intros options' env' w' Hchecks Hlist Hrestore.
  rewrite Hchecks, Hlist, Hrestore. simpl negb. cbv iota. cbn [StateBackup.phaseIndex].
  match goal with
  | |- exists n, executed (runFrom ?r ?k ?h ?o ?e ?f ?x ?t) = _ =>
      destruct (executed_runFrom r k h o e f x t) as (n & Hexec' & Hn)
  end.
  rewrite Hexec'. simpl app.
  destruct n as [|n]; [|now exists n].
  exfalso. assert (1 <= 0); [|lia]. apply Hn. intros Hdrop.
  apply (f_equal length) in Hdrop. rewrite !length_drop in *.
  simpl in Hdrop, Hrange. lia.
Qed.

Lemma failed_run_resumes_at_last_completed_phase_witness :
  let failed := action Scenario.options0 Scenario.missingBundle Scenario.world0 in
  exit failed = Failed 4 /\
  option_map StateBackup.phaseIndex (backupFile (worldAfter failed)) = Some 3 /\
  option_map StateBackup.timestamp (backupFile (worldAfter failed)) = Some 5000%Z /\
  exists n,
    executed (action Scenario.retryOptions Scenario.afterFailure
                     (worldAfter failed))
    = seq 3 (S n).
Proof.
  cbv zeta.
  assert (Hexit : exit (action Scenario.options0 Scenario.missingBundle Scenario.world0)
                  = Failed 4) by (vm_compute; reflexivity).
  assert (Hstart : firstPhaseIndex Scenario.options0 Scenario.missingBundle
                                   Scenario.world0 < 4) by (vm_compute; lia).
  destruct (failed_run_resumes_at_last_completed_phase
              Scenario.options0 Scenario.missingBundle Scenario.world0 4 Hexit Hstart)
    as (backup & Hb & Hbackup & _ & Hresume).
  split; [exact Hexit|]. rewrite Hb, Hbackup.
  split; [reflexivity|]. split; [vm_compute; reflexivity|].
  apply Hresume; [reflexivity | reflexivity |].
  unfold maybeRestoreBackupAsync. rewrite Hb, Hbackup. vm_compute. reflexivity.
Defined.

(** C1, as stated, fails: [bundledNativeModules.json] is missing and a
    first run with [--scope expo-a,expo-b] fails at phase 4, having
    completed the phases 0 to 3; the run with [--retry --skip-repo-checks]
    that follows, once the file is there, restores the backup left on disk
    and calls phase 3 again, instead of starting at phase 4. *)
Lemma resumed_run_calls_completed_phase_again :
  let failed := action Scenario.options0 Scenario.missingBundle Scenario.world0 in
  let resumed := action Scenario.retryOptions Scenario.afterFailure
                        (worldAfter failed) in
  exit failed = Failed 4 /\
  executed failed = [0; 1; 2; 3; 4] /\
  option_map StateBackup.phaseIndex (backupFile (worldAfter failed)) = Some 3 /\
  maybeRestoreBackupAsync Scenario.afterFailure (worldAfter failed)
                          "h3" Scenario.retryOptions
  = backupFile (worldAfter failed) /\
  executed resumed = [3; 4] /\
  List.head (executed resumed) <> Some 4.
Proof.
  cbv zeta. split; [vm_compute; reflexivity|]. split; [vm_compute; reflexivity|].
  split; [vm_compute; reflexivity|]. split; [vm_compute; reflexivity|].
  assert (H : executed
                (action Scenario.retryOptions Scenario.afterFailure
                        (worldAfter (action Scenario.options0 Scenario.missingBundle
                                            Scenario.world0)))
              = [3; 4]) by (vm_compute; reflexivity).
  rewrite H. split; [reflexivity | discriminate].
Qed.

End Pipeline.

(** ** The files written by phases 3 and 4 *)

Section WrittenFiles.
Import PublishPackages Packages Observations.

Lemma truthy_nonempty (s : string) : s <> "" -> truthy s = true.
Proof. intros H. unfold truthy. now apply negb_true_iff, eqb_string_false. Qed.

(** An iteration of phase 3 that returns has written at most the manifest
    of its fabric: the one described when the fabric has a commit reference
    and a release version, none otherwise; [isSelectedToPublish] is not
    read. *)
Lemma updateVersion_inv env fs f fs' :
  updateVersion env fs f = Ok fs' ->
  bundledNativeModules fs' = bundledNativeModules fs /\
  (forall file, file <> manifestPath f -> manifests fs' !! file = manifests fs !! file) /\
  (forall head version,
      newGitHead f = Some head -> head <> "" ->
      releaseVersion (state f) = Some (Some version) -> version <> "" ->
      manifests fs' !! manifestPath f
      = Some (mkPackageJson version (Some head) (private (packageJson (pkg f))))) /\
  (newGitHead f = None \/ newGitHead f = Some "" \/
   releaseVersion (state f) = None \/ releaseVersion (state f) = Some None \/
   releaseVersion (state f) = Some (Some "") -> fs' = fs).
Proof.
  unfold updateVersion, writeManifest, manifestPath. intros H.
  destruct (newGitHead f) as [h|].
  - destruct (releaseVersion (state f)) as [[v|]|].
    + destruct (truthy h && truthy v) eqn:Ht.
      * destruct (manifestWriteError env _); [discriminate|]. injection H as <-.
        simpl. split; [reflexivity|]. split.
        { intros file Hne. now apply lookup_insert_ne. }
        split.
        { intros head version [= <-] _ [= <-] _. apply lookup_insert_eq. }
        apply andb_true_iff in Ht as [Hh Hv].
        intros [? | [[= ->] | [? | [? | [= ->]]]]]; discriminate.
      * injection H as <-. repeat split; try reflexivity.
        intros head version [= <-] Hh [= <-] Hv.
        now rewrite (truthy_nonempty h Hh), (truthy_nonempty v Hv) in Ht.
    + injection H as <-. repeat split; try reflexivity. discriminate.
    + injection H as <-. repeat split; try reflexivity. discriminate.
  - injection H as <-. repeat split; try reflexivity. discriminate.
Qed.

(** Whether the loop of phase 3 returns or raises, it leaves
    [bundledNativeModules.json] alone and changes no file other than the
    manifests of the fabrics. *)
Lemma updateVersions_frame env (l : Fabrics) :
  forall fs result fs',
    updateVersions env fs l = (result, fs') ->
    bundledNativeModules fs' = bundledNativeModules fs /\
    forall file, ~ In file (map manifestPath l) ->
                 manifests fs' !! file = manifests fs !! file.
Proof.
  induction l as [|f l IH]; intros fs result fs' H; simpl in H.
  - injection H as _ <-. auto.
  - destruct (updateVersion env fs f) as [fs1|e] eqn:Hf.
    + apply updateVersion_inv in Hf as (Hb & Ho & _).
      apply IH in H as [Hb' Ho']. split; [congruence|].
      intros file Hin. rewrite Ho' by (intros ?; apply Hin; now right).
      apply Ho. intros ->. apply Hin. now left.
    + injection H as _ <-. auto.
Qed.

(** When the loop of phase 3 returns and the fabrics have distinct paths,
    the manifest of each fabric is the one its iteration has left. *)
Lemma updateVersions_lookup env (l : Fabrics) :
  forall fs fs',
    updateVersions env fs l = (Ok tt, fs') ->
    NoDup (map manifestPath l) ->
    forall f, In f l ->
      (forall head version,
          newGitHead f = Some head -> head <> "" ->
          releaseVersion (state f) = Some (Some version) -> version <> "" ->
          manifests fs' !! manifestPath f
          = Some (mkPackageJson version (Some head) (private (packageJson (pkg f))))) /\
      (newGitHead f = None \/ newGitHead f = Some "" \/
       releaseVersion (state f) = None \/ releaseVersion (state f) = Some None \/
       releaseVersion (state f) = Some (Some "") ->
       manifests fs' !! manifestPath f = manifests fs !! manifestPath f).
Proof.
  induction l as [|g l IH]; intros fs fs' H Hnd f Hin; [destruct Hin|].
  simpl in H, Hnd. apply NoDup_cons in Hnd as [Hg Hnd].
  rewrite list_elem_of_In in Hg.
  destruct (updateVersion env fs g) as [fs1|e] eqn:Hf; [|discriminate].
  apply updateVersion_inv in Hf as (_ & Hother & Hwritten & Hkept).
  destruct Hin as [-> | Hin].
  - destruct (updateVersions_frame env l fs1 _ fs' H) as [_ Hframe].
    rewrite (Hframe (manifestPath f) Hg). split; [exact Hwritten|].
    intros Hskip. now rewrite (Hkept Hskip).
  - destruct (IH fs1 fs' H Hnd f Hin) as [Hw Hk]. split; [exact Hw|].
    intros Hskip. rewrite (Hk Hskip). apply Hother. intros Heq. apply Hg.
    rewrite <- Heq. now apply in_map.
Qed.

Lemma updateVersionsAsync_inv fabrics options env fs fabrics' fs' :
  updateVersionsAsync fabrics options env fs = (Ok fabrics', fs') ->
  fabrics' = fabrics /\ updateVersions env fs fabrics = (Ok tt, fs').
Proof.
  unfold updateVersionsAsync.
  destruct (updateVersions env fs fabrics) as [[[]|e] fs1]; simpl; intros [= <- <-];
    auto.
Qed.


Lemma foldl_insert_other (name : string) (l : Fabrics) :
  forall m : gmap string string,
    (forall f, In f l -> packageName (pkg f) <> name) ->
    foldl (fun m f => <[packageName (pkg f) := versionRange (releaseVersion (state f))]> m)
          m l !! name = m !! name.
Proof.
  induction l as [|f l IH]; intros m H; simpl; [reflexivity|].
  rewrite IH by (intros g Hg; apply H; now right).
  apply lookup_insert_ne, H. now left.
Qed.

(** Whether phase 4 returns or raises, it leaves the manifests alone and
    adds to [bundledNativeModules.json] under the names of selected
    packages only. *)
Lemma bundled_modules_only_for_selected fabrics options env fs result fs' name :
  updateBundledNativeModulesFileAsync fabrics options env fs = (result, fs') ->
  (forall f, In f fabrics -> packageName (pkg f) = name ->
             isTrue (isSelectedToPublish (state f)) = false) ->
  manifests fs' = manifests fs /\
  bundledNativeModules fs' !! name = bundledNativeModules fs !! name.
Proof.
  unfold updateBundledNativeModulesFileAsync. intros H Hsel.
  pose proof (foldl_insert_other name
                (List.filter (fun f => isTrue (isSelectedToPublish (state f))) fabrics)
                (bundledNativeModules fs)) as Hother.
  destruct (List.filter _ fabrics) as [|f0 rest] eqn:Hf.
  - injection H as _ <-. auto.
  - destruct (bundledReadError env); [injection H as _ <-; auto|].
    destruct (bundledWriteError env); injection H as _ <-; [auto|].
    split; [reflexivity|].
    apply Hother. intros f Hin Hname. rewrite <- Hf in Hin.
    apply filter_In in Hin as [Hin Htrue].
    rewrite (Hsel f Hin Hname) in Htrue. discriminate.
Qed.

(** C4 on the code: with [--scope expo-a,expo-b], package [expo-a] has
    unpublished changes and is confirmed, package [expo-b] has none and is
    not selected.  The full run adds only [expo-a] to
    [bundledNativeModules.json], yet phase 3 rewrites the manifest of
    [expo-b] with the version [1.0.1]. *)
Theorem unselected_package_manifest_is_rewritten :
  let run := action Scenario.options0 (Scenario.environment Scenario.repo)
                    Scenario.world0 in
  exit run = Completed /\
  map (fun f => (packageName (pkg f),
                 hasUnpublishedChanges (state f),
                 isSelectedToPublish (state f),
                 releaseVersion (state f)))
      (fabricsAfter run)
  = [ ("expo-a", Some true, Some true, Some (Some "3.0.0"));
      ("expo-b", Some false, None, Some (Some "1.0.1")) ] /\
  manifests (files Scenario.world0) !! "packages/b/package.json"
  = Some (mkPackageJson "1.0.0" (Some "g0") false) /\
  manifests (files (worldAfter run)) !! "packages/b/package.json"
  = Some (mkPackageJson "1.0.1" (Some "g0") false) /\
  manifests (files (worldAfter run)) !! "packages/a/package.json"
  = Some (mkPackageJson "3.0.0" (Some "h3") false) /\
  map_to_list (bundledNativeModules (files (worldAfter run)))
  = [("expo-a", "~3.0.0")].
Proof. cbv zeta. repeat split; vm_compute; reflexivity. Qed.

End WrittenFiles.

(** ** The changelog reader *)

Section ChangelogReader.
Import Markdown Changelogs ReaderNotions Documents.

(** *** Sums over dictionaries *)

Lemma sumMap_empty {V : Type} (weight : V -> nat) : sumMap weight ∅ = 0.
Proof. apply map_fold_empty. Qed.

Lemma sumMap_insert_fresh {V : Type} (weight : V -> nat)
      (m : gmap string V) (k : string) (v : V) :
  m !! k = None -> sumMap weight (<[k := v]> m) = weight v + sumMap weight m.
Proof.
  intros H. unfold sumMap.
  apply (map_fold_insert_L (fun _ v n => weight v + n)); [|exact H].
  intros; lia.
Qed.

Lemma sumMap_insert {V : Type} (weight : V -> nat)
      (m : gmap string V) (k : string) (v old : V) :
  m !! k = Some old ->
  sumMap weight (<[k := v]> m) + weight old = weight v + sumMap weight m.
Proof.
  intros H.
  rewrite <- (insert_delete_id m k old H) at 2.
  rewrite <- (insert_delete_eq m k v).
  rewrite !sumMap_insert_fresh by apply lookup_delete_eq.
  lia.
Qed.

(** *** What the loop keeps true *)

Lemma pushEntry_current st cv cs tok st' :
  pushEntry st cv cs tok = Ok st' ->
  currentVersion st' = currentVersion st /\ currentSection st' = currentSection st.
Proof.
  unfold pushEntry. destruct (text_of tok) as [t|]; [|now intros [= <-]].
  destruct (truthy t); [|now intros [= <-]].
  destruct (versions (changes st) !! cv) as [sec|].
  - destruct (sec !! cs); [|discriminate]. now intros [= <-].
  - destruct (Js.inherited cv && negb (Js.inherited cs)); [|discriminate].
    now intros [= <-].
Qed.

(** A property kept by the three updates of the loop, on the headings of
    the tokens, holds of the result. *)
Lemma scanWith_invariant (P : LoopState -> Prop) (Q : string -> Prop)
      (stop : string -> bool) :
  (forall st text, P st -> Q text -> stop text = false -> P (openVersion st text)) ->
  (forall st cv text st',
      P st -> Q text -> currentVersion st = Some cv ->
      openSection st cv text = Ok st' -> P st') ->
  (forall st cv cs tok st',
      P st -> currentVersion st = Some cv -> currentSection st = Some cs ->
      pushEntry st cv cs tok = Ok st' -> P st') ->
  forall tokens item st c,
    (forall depth text, In (Heading depth text) tokens -> Q text) ->
    P st -> inside item st ->
    scanWith stop item st tokens = Ok c ->
    exists st', P st' /\ c = changes st'.
Proof.
  intros Hversion Hsection Hpush.
  induction tokens as [|tok rest IH]; intros item st c HQ HP Hin; cbn [scanWith].
  - destruct item; [discriminate|]. intros [= <-]. eauto.
  - assert (HQ' : forall depth text, In (Heading depth text) rest -> Q text)
      by (intros; eapply HQ; right; eauto).
    destruct item as [[cv cs]|].
    + destruct Hin as [Hcv Hcs].
      destruct (isListItemEnd tok); [now apply IH|].
      destruct (pushEntry st cv cs tok) as [st'|e] eqn:Hp; cbn [bindO];
        [|discriminate].
      destruct (pushEntry_current _ _ _ _ _ Hp) as [Hv Hs].
      apply IH; [exact HQ' | eapply Hpush; eauto | split; congruence].
    + destruct tok as [depth text| | |text|]; try (now apply IH).
      * assert (Q text) by (eapply HQ; left; reflexivity).
        destruct (Nat.eqb depth VERSION_HEADING_DEPTH).
        -- destruct (stop text) eqn:Hstop; [intros [= <-]; eauto|].
           apply IH; simpl; auto.
        -- destruct (currentVersion st) as [cv|] eqn:Hcv; [|now apply IH].
           destruct (truthy cv && Nat.eqb depth CHANGE_TYPE_HEADING_DEPTH);
             [|now apply IH].
           destruct (openSection st cv text) as [st'|e] eqn:Ho; cbn [bindO];
             [|discriminate].
           apply IH; [exact HQ' | eapply Hsection; eauto | exact I].
      * destruct (currentVersion st) as [cv|] eqn:Hcv; [|now apply IH].
        destruct (currentSection st) as [cs|] eqn:Hcs; [|now apply IH].
        destruct (truthy cv && truthy cs); apply IH; auto; simpl; auto.
Qed.


Lemma counted_initial : counted initialLoop /\ owned initialLoop.
Proof.
  split; [split; simpl|].
  - unfold entryCount. now rewrite sumMap_empty.
  - intros v sections cs entries e H. now rewrite lookup_empty in H.
  - intros cv. discriminate.
Qed.

Lemma counted_openVersion st text :
  counted st -> Js.inherited text = false ->
  counted (openVersion st text) /\ owned (openVersion st text).
Proof.
  intros [Hc Hn] Hown. unfold openVersion, owned. rewrite Hown.
  destruct (versions (changes st) !! text) as [sections|] eqn:Hl; simpl.
  - split; [split; auto|]. intros cv [= <-]. now rewrite Hl.
  - split; [split|].
    + unfold entryCount in *. simpl. rewrite sumMap_insert_fresh by exact Hl.
      now rewrite sumMap_empty.
    + intros v sections cs entries e Hv Hs He. simpl in Hv.
      destruct (decide (text = v)) as [->|Hne].
      * rewrite lookup_insert_eq in Hv. injection Hv as <-.
        now rewrite lookup_empty in Hs.
      * rewrite lookup_insert_ne in Hv by exact Hne. eapply Hn; eauto.
    + intros cv [= <-]. rewrite lookup_insert_eq. eauto.
Qed.

Lemma counted_openSection st cv text st' :
  counted st -> owned st -> currentVersion st = Some cv ->
  openSection st cv text = Ok st' -> counted st' /\ owned st'.
Proof.
  intros [Hc Hn] Hown Hcv. unfold openSection.
  destruct (Hown cv Hcv) as [sections Hl]. rewrite Hl. intros [= <-].
  set (sections' := match sections !! text with
                    | Some _ => sections
                    | None => if Js.inherited text then sections
                              else <[text := []]> sections
                    end).
  assert (Hsum : sumMap (@length string) sections' = sumMap (@length string) sections).
  { subst sections'. destruct (sections !! text) eqn:Hs; [reflexivity|].
    destruct (Js.inherited text); [reflexivity|].
    now rewrite sumMap_insert_fresh by exact Hs. }
  split; [split|]; simpl.
  - unfold entryCount in *.
    pose proof (sumMap_insert (sumMap (@length string)) _ cv sections' sections Hl) as H.
    rewrite Hsum in H. lia.
  - intros v sections0 cs entries e Hv Hs He.
    destruct (decide (cv = v)) as [->|Hne].
    + rewrite lookup_insert_eq in Hv. injection Hv as <-. subst sections'.
      destruct (sections !! text) eqn:Ht; [eapply Hn; eauto|].
      destruct (Js.inherited text); [eapply Hn; eauto|].
      destruct (decide (text = cs)) as [->|Hne'].
      * rewrite lookup_insert_eq in Hs. injection Hs as <-. destruct He.
      * rewrite lookup_insert_ne in Hs by exact Hne'. eapply Hn; eauto.
    + rewrite lookup_insert_ne in Hv by exact Hne. eapply Hn; eauto.
  - intros v [= <-]. simpl. rewrite lookup_insert_eq. eauto.
Qed.

Lemma counted_pushEntry st cv cs tok st' :
  counted st -> owned st -> currentVersion st = Some cv ->
  pushEntry st cv cs tok = Ok st' -> counted st' /\ owned st'.
Proof.
  intros [Hc Hn] Hown Hcv. unfold pushEntry.
  destruct (text_of tok) as [t|]; [|intros [= <-]; split; [split|]; auto].
  destruct (truthy t) eqn:Ht; [|intros [= <-]; split; [split|]; auto].
  destruct (Hown cv Hcv) as [sections Hl]. rewrite Hl.
  destruct (sections !! cs) as [entries|] eqn:Hs; [|discriminate].
  intros [= <-]. split; [split|]; simpl.
  - unfold entryCount in *.
    pose proof (sumMap_insert (@length string) sections cs
                              (entries ++ [t])%list entries Hs) as H1.
    pose proof (sumMap_insert (sumMap (@length string)) _ cv
                              (<[cs := (entries ++ [t])%list]> sections)
                              sections Hl) as H2.
    rewrite length_app in H1. simpl in H1. lia.
  - intros v sections0 cs0 entries0 e Hv Hs0 He.
    destruct (decide (cv = v)) as [->|Hne].
    + rewrite lookup_insert_eq in Hv. injection Hv as <-.
      destruct (decide (cs = cs0)) as [->|Hne'].
      * rewrite lookup_insert_eq in Hs0. injection Hs0 as <-.
        apply in_app_or in He as [He | [<- | []]]; [eapply Hn; eauto|].
        intros ->. discriminate.
      * rewrite lookup_insert_ne in Hs0 by exact Hne'. eapply Hn; eauto.
    + rewrite lookup_insert_ne in Hv by exact Hne. eapply Hn; eauto.
  - intros v Hv. simpl in Hv. rewrite Hcv in Hv. injection Hv as <-.
    simpl. rewrite lookup_insert_eq. eauto.
Qed.

Lemma ownHeadings_In tokens depth text :
  ownHeadings tokens = true -> In (Heading depth text) tokens ->
  Js.inherited text = false.
Proof.
  unfold ownHeadings. rewrite forallb_forall. intros H Hin.
  apply H in Hin. now apply negb_true_iff in Hin.
Qed.

(** X26. A token of a list item whose text is absent or empty changes
    neither the entries nor [totalCount]; and when no heading of the tokens
    is named after a property that every object inherits, in every result
    of [getChangesAsync], [totalCount] is the number of entries of all
    sections of all returned versions, none of which is empty. *)
Theorem total_count_counts_nonempty_entries :
  (forall st cv cs tok,
      text_of tok = None \/ text_of tok = Some "" ->
      pushEntry st cv cs tok = Ok st) /\
  (forall tokens fromVersion toVersion c,
      ownHeadings tokens = true ->
      getChangesAsync tokens fromVersion toVersion = Ok c ->
      totalCount c = entryCount (versions c) /\
      forall v sections cs entries e,
        versions c !! v = Some sections -> sections !! cs = Some entries ->
        In e entries -> e <> "").
Proof.
  split.
  - intros st cv cs tok [H | H]; unfold pushEntry; now rewrite H.
  - intros tokens fromVersion toVersion c Hown H. unfold getChangesAsync in H.
    eapply (scanWith_invariant (fun st => counted st /\ owned st)
                               (fun text => Js.inherited text = false))
      in H as (st' & [[Hc Hn] _] & ->).
    + split; [exact Hc | exact Hn].
    + intros st text [Hc _] Hq _. now apply counted_openVersion.
    + intros st cv text st' [Hc Ho] _ Hcv. now apply counted_openSection.
    + intros st cv cs tok st' [Hc Ho] Hcv _. now apply counted_pushEntry.
    + intros depth text. now apply ownHeadings_In.
    + exact counted_initial.
    + exact I.
Qed.

Lemma total_count_counts_nonempty_entries_witness :
  exists c,
    getChangesAsync Scenario.threeVersions None None = Ok c /\
    totalCount c = 1 /\ entryCount (versions c) = 1.
Proof.
  assert (E : exists c, getChangesAsync Scenario.threeVersions None None = Ok c
                        /\ totalCount c = 1)
    by (vm_compute; eexists; split; reflexivity).
  destruct E as (c & E & Hc). exists c. split; [exact E|]. split; [exact Hc|].
  destruct (proj2 total_count_counts_nonempty_entries
                  Scenario.threeVersions None None c eq_refl E) as [H _].
  now rewrite <- H.
Defined.

(** C9 on the code: under a version heading named [constructor], which
    every object inherits, [versions] is given no dictionary; the entry
    under it is counted, and pushed onto an array that is no part of
    [versions].  Whether the version is read because a [fromVersion] is
    given or because it is the [toVersion], the result counts one entry and
    holds none: [totalCount] is not the number of entries returned. *)
Theorem entry_under_inherited_label_is_counted_alone :
  getChangesAsync Scenario.inheritedLabel (Some "1.0.0") None = Ok (mkChanges 1 ∅) /\
  getChangesAsync Scenario.inheritedLabel None (Some "constructor") = Ok (mkChanges 1 ∅) /\
  entryCount (versions (mkChanges 1 ∅)) = 0.
Proof.
  split; [vm_compute; reflexivity|]. split; [vm_compute; reflexivity|].
  apply sumMap_empty.
Qed.

(** *** Where the traversal stops *)

(** A version heading that satisfies the stop test ends the traversal
    with what was collected before it. *)
Lemma scanWith_stops_at (stop : string -> bool) (text : string) (post : list Token) :
  stop text = true ->
  forall pre item st c,
    scanWith stop item st pre = Ok c ->
    scanWith stop item st (pre ++ Heading VERSION_HEADING_DEPTH text :: post) = Ok c.
Proof.
  intros Hstop.
  induction pre as [|tok rest IH]; intros item st c; cbn [scanWith app].
  - destruct item; [discriminate|]. intros [= <-].
    now rewrite Nat.eqb_refl, Hstop.
  - destruct item as [[cv cs]|].
    + destruct (isListItemEnd tok); [now apply IH|].
      destruct (pushEntry st cv cs tok) as [st'|e]; cbn [bindO];
        [now apply IH | discriminate].
    + destruct tok as [depth label| | |label|]; try (now apply IH).
      * destruct (Nat.eqb depth VERSION_HEADING_DEPTH).
        -- destruct (stop label); [auto | now apply IH].
        -- destruct (currentVersion st) as [cv|]; [|now apply IH].
           destruct (truthy cv && Nat.eqb depth CHANGE_TYPE_HEADING_DEPTH);
             [|now apply IH].
           destruct (openSection st cv label) as [st'|e]; cbn [bindO];
             [now apply IH | discriminate].
      * destruct (currentVersion st) as [cv|]; [|now apply IH].
        destruct (currentSection st) as [cs|]; [|now apply IH].
        destruct (truthy cv && truthy cs); now apply IH.
Qed.

Lemma stopsAt_default text :
  stopsAt None "master" text = negb (String.eqb text "master").
Proof. unfold stopsAt. simpl. now rewrite andb_true_r. Qed.

Lemma stopsAt_from f text :
  f <> "" ->
  stopsAt (Some f) "master" text
  = negb (String.eqb text "master") && String.eqb text f.
Proof.
  intros Hf. unfold stopsAt, truthyO, truthy.
  apply eqb_string_false in Hf. now rewrite Hf.
Qed.

(** *** Adding entries to changes *)

Lemma entriesUnder_default c l n :
  default [] (default ∅ (versions c !! l) !! n) = default [] (entriesUnder c l n).
Proof.
  unfold entriesUnder. destruct (versions c !! l) as [secs|]; simpl; [reflexivity|].
  now rewrite lookup_empty.
Qed.

Lemma withEntries_versions c l n es l' :
  is_Some (versions (withEntries c l n es) !! l') <->
  is_Some (versions c !! l') \/ l' = l.
Proof.
  unfold withEntries. simpl. destruct (decide (l = l')) as [->|Hne].
  - rewrite lookup_insert_eq. split; [now right | eauto].
  - rewrite lookup_insert_ne by exact Hne. split; [now left|]. intros [H | ->]; congruence.
Qed.

Lemma withEntries_under c l n es l' n' :
  entriesUnder (withEntries c l n es) l' n'
  = if String.eqb l' l && String.eqb n' n
    then Some (default [] (entriesUnder c l n) ++ es)%list
    else entriesUnder c l' n'.
Proof.
  unfold entriesUnder at 1. unfold withEntries. simpl.
  destruct (String.eqb_spec l' l) as [->|Hl]; simpl.
  - rewrite lookup_insert_eq. simpl.
    destruct (String.eqb_spec n' n) as [->|Hn].
    + rewrite lookup_insert_eq. now rewrite entriesUnder_default.
    + rewrite lookup_insert_ne by congruence. unfold entriesUnder.
      destruct (versions c !! l); simpl; [reflexivity | apply lookup_empty].
  - rewrite lookup_insert_ne by congruence. reflexivity.
Qed.

Lemma withEntries_twice c l n a b :
  withEntries (withEntries c l n a) l n b = withEntries c l n (a ++ b).
Proof.
  unfold withEntries. simpl. rewrite !lookup_insert_eq. simpl.
  rewrite !lookup_insert_eq. simpl. rewrite !insert_insert_eq.
  rewrite length_app, <- app_assoc, Nat.add_assoc. reflexivity.
Qed.

Lemma withEntries_nothing c l n :
  is_Some (entriesUnder c l n) -> withEntries c l n [] = c.
Proof.
  unfold entriesUnder, withEntries. intros [old H].
  destruct (versions c !! l) as [secs|] eqn:Hl; [|discriminate]. simpl in *.
  rewrite H. simpl. rewrite app_nil_r, (insert_id secs n old H), (insert_id _ l secs Hl).
  rewrite Nat.add_0_r. now destruct c.
Qed.

Lemma withVersion_versions c l l' :
  is_Some (versions (withVersion c l) !! l') <->
  is_Some (versions c !! l') \/ l' = l.
Proof.
  unfold withVersion. destruct (versions c !! l) as [secs|] eqn:Hl; simpl.
  - split; [now left|]. intros [H | ->]; [exact H | eauto].
  - destruct (decide (l = l')) as [->|Hne].
    + rewrite lookup_insert_eq. split; [now right | eauto].
    + rewrite lookup_insert_ne by exact Hne. split; [now left|].
      intros [H | ->]; congruence.
Qed.

Lemma withVersion_under c l l' n' :
  entriesUnder (withVersion c l) l' n' = entriesUnder c l' n'.
Proof.
  unfold withVersion, entriesUnder.
  destruct (versions c !! l) as [secs|] eqn:Hl; simpl; [reflexivity|].
  destruct (decide (l = l')) as [->|Hne].
  - rewrite lookup_insert_eq, Hl. simpl. apply lookup_empty.
  - now rewrite lookup_insert_ne by exact Hne.
Qed.

Lemma withVersion_count c l : totalCount (withVersion c l) = totalCount c.
Proof. unfold withVersion. now destruct (versions c !! l). Qed.

(** The sections of one version, added in order. *)
Lemma sections_added l0 (ss : list Section) :
  forall c,
    let c' := foldl (fun c s => withEntries c l0 (name s) (entriesOfSection s)) c ss in
    totalCount c' = totalCount c + length (flat_map entriesOfSection ss) /\
    (forall l, is_Some (versions c' !! l) <->
               is_Some (versions c !! l) \/ (l = l0 /\ ss <> [])) /\
    (forall l n,
        entriesUnder c' l n
        = if String.eqb l l0 then
            match List.filter (fun s => String.eqb (name s) n) ss with
            | [] => entriesUnder c l n
            | found => Some (default [] (entriesUnder c l n)
                             ++ flat_map entriesOfSection found)%list
            end
          else entriesUnder c l n).
Proof.
  induction ss as [|s ss IH]; intros c; cbn [foldl flat_map List.filter].
  - split; [simpl; lia|]. split.
    + intros l. split; [now left | intros [H | [_ H]]; [exact H | congruence]].
    + intros l n. now destruct (String.eqb l l0).
  - destruct (IH (withEntries c l0 (name s) (entriesOfSection s))) as (Hc & Hv & Hu).
    cbv zeta in *. split; [|split].
    + rewrite Hc. unfold withEntries at 1. simpl. rewrite length_app. lia.
    + intros l. rewrite Hv, withEntries_versions. split.
      * intros [[H | ->] | [-> _]]; auto; right; split; auto; discriminate.
      * intros [H | [-> _]]; auto.
    + intros l n. rewrite Hu, !withEntries_under.
      destruct (String.eqb_spec l l0) as [->|Hl]; simpl; [|reflexivity].
      rewrite (String.eqb_sym n (name s)).
      destruct (String.eqb_spec (name s) n) as [Heq|Hn]; simpl; [|reflexivity].
      subst n. destruct (List.filter _ ss); simpl; [now rewrite app_nil_r|].
      now rewrite <- app_assoc.
Qed.

Lemma sectionsAt_cons v (vs : list Version) l n :
  sectionsAt (v :: vs) l n
  = if String.eqb (label v) l
    then (List.filter (fun s => String.eqb (name s) n) (sections v)
          ++ sectionsAt vs l n)%list
    else sectionsAt vs l n.
Proof.
  unfold sectionsAt. cbn [List.filter].
  destruct (String.eqb (label v) l); [|reflexivity].
  cbn [flat_map]. apply List.filter_app.
Qed.

(** The versions of a document, added in order. *)
Lemma versions_added (vs : list Version) :
  forall c,
    let c' := foldl withSections c vs in
    totalCount c' = totalCount c + length (allEntries vs) /\
    (forall l, is_Some (versions c' !! l) <->
               is_Some (versions c !! l) \/ exists v, In v vs /\ label v = l) /\
    (forall l n,
        entriesUnder c' l n
        = match sectionsAt vs l n with
          | [] => entriesUnder c l n
          | found => Some (default [] (entriesUnder c l n)
                           ++ flat_map entriesOfSection found)%list
          end).
Proof.
  induction vs as [|v vs IH]; intros c; cbn [foldl].
  - split; [simpl; lia|]. split; [|reflexivity].
    intros l. split; [now left | intros [H | (v & [] & _)]; exact H].
  - destruct (IH (withSections c v)) as (Hc & Hv & Hu). cbv zeta in *.
    destruct (sections_added (label v) (sections v) (withVersion c (label v)))
      as (Hc1 & Hv1 & Hu1). cbv zeta in Hc1, Hv1, Hu1.
    change (foldl _ (withVersion c (label v)) (sections v)) with (withSections c v)
      in Hc1, Hv1, Hu1.
    split; [|split].
    + rewrite Hc, Hc1, withVersion_count. unfold allEntries. simpl.
      rewrite flat_map_app, length_app. lia.
    + intros l. rewrite Hv, Hv1, withVersion_versions. split.
      * intros [[[H | ->] | [-> _]] | (x & Hx & Hl)]; eauto.
        -- right. exists v. split; [now left | reflexivity].
        -- right. exists v. split; [now left | reflexivity].
        -- right. exists x. split; [now right | exact Hl].
      * intros [H | (x & [<- | Hx] & Hl)]; eauto.
    + intros l n. rewrite Hu, Hu1, withVersion_under, sectionsAt_cons.
      rewrite (String.eqb_sym l (label v)).
      destruct (String.eqb (label v) l); [|reflexivity].
      destruct (List.filter _ (sections v)) as [|s0 found0]; [reflexivity|].
      destruct (sectionsAt vs l n) as [|s1 found1]; cbn [app default id].
      * now rewrite app_nil_r.
      * change (s0 :: (found0 ++ s1 :: found1)%list)
          with ((s0 :: found0) ++ s1 :: found1)%list.
        now rewrite flat_map_app, app_assoc.
Qed.

(** The changes built from the versions [vs] hold their entries. *)
Lemma holds_collected (vs : list Version) :
  holds vs (foldl withSections (mkChanges 0 ∅) vs).
Proof.
  destruct (versions_added vs (mkChanges 0 ∅)) as (Hc & Hv & Hu). cbv zeta in *.
  split; [exact Hc|]. split.
  - intros l. rewrite Hv. simpl. rewrite lookup_empty. split.
    + intros [[x Hx] | H]; [discriminate | exact H].
    + now right.
  - intros l n. rewrite Hu. unfold entriesAt.
    assert (Hnone : entriesUnder (mkChanges 0 ∅) l n = None).
    { unfold entriesUnder. simpl. now rewrite lookup_empty. }
    rewrite Hnone. now destruct (sectionsAt vs l n).
Qed.

(** *** The traversal of a document *)

(** Outside list items, a token that is not a heading at version or
    change-type depth is passed over, unless it starts a list item under
    a section. *)
Lemma scan_plain stop st t rest :
  plainToken t = true ->
  isListItemStart t = false \/ currentSection st = None ->
  scanWith stop None st (t :: rest) = scanWith stop None st rest.
Proof.
  intros Hp Hs. cbn [scanWith].
  destruct t as [depth text| | |text|]; try reflexivity.
  - unfold plainToken in Hp. cbn [isHeadingAt] in Hp.
    apply andb_true_iff in Hp as [H2 H3]. apply negb_true_iff in H2, H3.
    rewrite H2. destruct (currentVersion st) as [cv|]; [|reflexivity].
    now rewrite H3, andb_false_r.
  - destruct Hs as [Hs | Hs]; [discriminate|]. rewrite Hs.
    now destruct (currentVersion st).
Qed.

Lemma scan_lead stop (l : list Token) :
  forall st rest,
    forallb plainToken l = true -> currentSection st = None ->
    scanWith stop None st (l ++ rest) = scanWith stop None st rest.
Proof.
  induction l as [|t l IH]; intros st rest Hl Hs; [reflexivity|].
  cbn [forallb] in Hl. apply andb_true_iff in Hl as [Ht Hl].
  cbn [app]. rewrite scan_plain by auto. now apply IH.
Qed.

(** Before the first version heading, everything is passed over. *)
Lemma scan_preamble stop (l : list Token) :
  forall st rest,
    forallb (fun t => negb (isHeadingAt VERSION_HEADING_DEPTH t)) l = true ->
    currentVersion st = None ->
    scanWith stop None st (l ++ rest) = scanWith stop None st rest.
Proof.
  induction l as [|t l IH]; intros st rest Hl Hv; [reflexivity|].
  cbn [forallb] in Hl. apply andb_true_iff in Hl as [Ht Hl].
  cbn [app scanWith]. destruct t as [depth text| | |text|]; try (now apply IH).
  - cbn [isHeadingAt] in Ht. apply negb_true_iff in Ht. rewrite Ht, Hv. now apply IH.
  - rewrite Hv. now apply IH.
Qed.

Lemma withEntries_push c cv cs t old secs :
  versions c !! cv = Some secs -> secs !! cs = Some old ->
  mkChanges (S (totalCount c)) (<[cv := <[cs := (old ++ [t])%list]> secs]> (versions c))
  = withEntries c cv cs [t].
Proof.
  intros Hv Hs. unfold withEntries. rewrite Hv. simpl. rewrite Hs. simpl.
  now rewrite Nat.add_1_r.
Qed.

(** A list item under a section that has its array: the texts of its
    tokens are added to the array, up to the token that ends the item. *)
Lemma scan_item stop (inner : list Token) :
  forall st cv cs rest,
    forallb (fun t => negb (isListItemEnd t)) inner = true ->
    is_Some (entriesUnder (changes st) cv cs) ->
    scanWith stop (Some (cv, cs)) st (inner ++ ListItemEnd :: rest)
    = scanWith stop None
               (mkLoop (withEntries (changes st) cv cs (texts inner))
                       (currentVersion st) (currentSection st))
               rest.
Proof.
  induction inner as [|t inner IH]; intros st cv cs rest Hin Hu.
  - cbn [app scanWith isListItemEnd texts flat_map].
    rewrite withEntries_nothing by exact Hu. now destruct st.
  - cbn [forallb] in Hin. apply andb_true_iff in Hin as [Ht Hin].
    apply negb_true_iff in Ht. cbn [app scanWith]. rewrite Ht.
    unfold pushEntry. unfold texts. cbn [flat_map]. fold (texts inner).
    destruct (text_of t) as [s|]; [|now apply IH].
    destruct (truthy s); [|now apply IH].
    pose proof Hu as [old Hold]. unfold entriesUnder in Hold.
    destruct (versions (changes st) !! cv) as [secs|] eqn:Hv; [|discriminate].
    simpl in Hold. rewrite Hold. cbn [bindO].
    rewrite (withEntries_push _ _ _ _ _ _ Hv Hold).
    rewrite IH; [|exact Hin|].
    + cbn [changes currentVersion currentSection]. now rewrite withEntries_twice.
    + cbn [changes]. rewrite withEntries_under, !String.eqb_refl. simpl. eauto.
Qed.

(** The blocks of a section that has its array. *)
Lemma scan_blocks stop (bs : list Block) :
  forall st cv cs rest,
    forallb wellFormedBlock bs = true ->
    currentVersion st = Some cv -> currentSection st = Some cs ->
    truthy cv = true -> truthy cs = true ->
    is_Some (entriesUnder (changes st) cv cs) ->
    scanWith stop None st (flat_map renderBlock bs ++ rest)
    = scanWith stop None
               (mkLoop (withEntries (changes st) cv cs (flat_map entriesOfBlock bs))
                       (Some cv) (Some cs))
               rest.
Proof.
  induction bs as [|b bs IH]; intros st cv cs rest Hbs Hcv Hcs Htv Hts Hu.
  - cbn [flat_map app]. rewrite withEntries_nothing by exact Hu.
    destruct st. simpl in *. now subst.
  - cbn [forallb] in Hbs. apply andb_true_iff in Hbs as [Hb Hbs].
    cbn [flat_map]. rewrite <- app_assoc.
    destruct b as [inner|t]; cbn [renderBlock wellFormedBlock entriesOfBlock] in *.
    + cbn [app scanWith]. rewrite Hcv, Hcs, Htv, Hts. cbn [andb].
      rewrite <- app_assoc. cbn [app]. rewrite (scan_item stop inner st cv cs) by assumption.
      rewrite Hcv, Hcs. rewrite (IH _ cv cs); try assumption; try reflexivity.
      * cbn [changes]. now rewrite withEntries_twice.
      * cbn [changes]. rewrite withEntries_under, !String.eqb_refl. simpl. eauto.
    + apply andb_true_iff in Hb as [Hp Hs]. apply negb_true_iff in Hs.
      cbn [app]. rewrite scan_plain by auto. now apply IH.
Qed.

Lemma properName_inv s : properName s = true -> truthy s = true /\ Js.inherited s = false.
Proof.
  unfold properName. intros H. apply andb_true_iff in H as [H1 H2].
  now apply negb_true_iff in H2.
Qed.

Lemma withEntries_opened c cv secs text es :
  versions c !! cv = Some secs ->
  withEntries
    (mkChanges (totalCount c)
               (<[cv := match secs !! text with
                        | Some _ => secs
                        | None => <[text := []]> secs
                        end]> (versions c)))
    cv text es
  = withEntries c cv text es.
Proof.
  intros Hv. unfold withEntries. simpl. rewrite lookup_insert_eq, Hv. simpl.
  rewrite insert_insert_eq.
  destruct (secs !! text) as [old|] eqn:Hs; [now rewrite ?Hs|].
  rewrite lookup_insert_eq. simpl. now rewrite insert_insert_eq.
Qed.

(** A section of a version that has its dictionary. *)
Lemma scan_section stop (s : Section) :
  forall st cv rest,
    wellFormedSection s = true ->
    currentVersion st = Some cv -> truthy cv = true ->
    is_Some (versions (changes st) !! cv) ->
    scanWith stop None st (renderSection s ++ rest)
    = scanWith stop None
               (mkLoop (withEntries (changes st) cv (name s) (entriesOfSection s))
                       (Some cv) (Some (name s)))
               rest.
Proof.
  intros st cv rest Hs Hcv Htv [secs Hv].
  unfold wellFormedSection in Hs. apply andb_true_iff in Hs as [Hn Hbs].
  apply properName_inv in Hn as [Htn Hin].
  unfold renderSection. cbn [app scanWith]. rewrite Hcv, Htv.
  change (Nat.eqb CHANGE_TYPE_HEADING_DEPTH VERSION_HEADING_DEPTH) with false.
  change (Nat.eqb CHANGE_TYPE_HEADING_DEPTH CHANGE_TYPE_HEADING_DEPTH) with true.
  cbn [andb]. unfold openSection. rewrite Hv, Hin. cbn [bindO].
  rewrite (scan_blocks stop (blocks s) _ cv (name s)); try assumption; try reflexivity.
  - cbn [changes]. unfold entriesOfSection.
    now rewrite (withEntries_opened (changes st) cv secs (name s) _ Hv).
  - cbn [changes]. unfold entriesUnder. simpl. rewrite lookup_insert_eq. simpl.
    destruct (secs !! name s) eqn:Hs; [rewrite Hs; eauto|].
    rewrite lookup_insert_eq. eauto.
Qed.

Lemma withEntries_owned c l n es : is_Some (versions (withEntries c l n es) !! l).
Proof. apply withEntries_versions. now right. Qed.

(** The sections of a version that has its dictionary. *)
Lemma scan_sections stop (ss : list Section) :
  forall st cv rest,
    forallb wellFormedSection ss = true ->
    currentVersion st = Some cv -> truthy cv = true ->
    is_Some (versions (changes st) !! cv) ->
    exists cs,
      scanWith stop None st (flat_map renderSection ss ++ rest)
      = scanWith stop None
                 (mkLoop (foldl (fun c s => withEntries c cv (name s)
                                                        (entriesOfSection s))
                                (changes st) ss)
                         (Some cv) cs)
                 rest.
Proof.
  induction ss as [|s ss IH]; intros st cv rest Hss Hcv Htv Hv.
  - exists (currentSection st). cbn [flat_map app foldl].
    destruct st. simpl in *. now subst.
  - cbn [forallb] in Hss. apply andb_true_iff in Hss as [Hs Hss].
    cbn [flat_map foldl]. rewrite <- app_assoc.
    rewrite (scan_section stop s st cv) by assumption.
    apply IH; try assumption; try reflexivity.
    cbn [changes]. apply withEntries_owned.
Qed.

Lemma openVersion_proper st text :
  Js.inherited text = false ->
  openVersion st text = mkLoop (withVersion (changes st) text) (Some text) None.
Proof.
  intros H. unfold openVersion, withVersion. rewrite H.
  destruct (versions (changes st) !! text); [|reflexivity].
  now destruct (changes st).
Qed.

(** A version section whose heading does not end the traversal. *)
Lemma scan_version stop (v : Version) :
  forall st rest,
    wellFormedVersion v = true -> stop (label v) = false ->
    exists cs,
      scanWith stop None st (renderVersion v ++ rest)
      = scanWith stop None
                 (mkLoop (withSections (changes st) v) (Some (label v)) cs) rest.
Proof.
  intros st rest Hwf Hstop. unfold wellFormedVersion in Hwf.
  apply andb_true_iff in Hwf as [Hwf Hss]. apply andb_true_iff in Hwf as [Hn Hlead].
  apply properName_inv in Hn as [Htn Hin].
  unfold renderVersion. cbn [app scanWith].
  change (Nat.eqb VERSION_HEADING_DEPTH VERSION_HEADING_DEPTH) with true. cbv iota.
  rewrite Hstop, (openVersion_proper st _ Hin), <- app_assoc.
  rewrite scan_lead by (assumption || reflexivity).
  unfold withSections.
  apply (scan_sections stop (sections v)
                       (mkLoop (withVersion (changes st) (label v))
                               (Some (label v)) None)
                       (label v)); try assumption; try reflexivity.
  cbn [changes]. apply withVersion_versions. now right.
Qed.

(** The version sections of a document: those before the first heading
    that ends the traversal are read, and nothing after it. *)
Lemma scan_versions stop (vs : list Version) :
  forall st,
    forallb wellFormedVersion vs = true ->
    scanWith stop None st (flat_map renderVersion vs)
    = Ok (foldl withSections (changes st) (before stop vs)).
Proof.
  induction vs as [|v vs IH]; intros st Hwf; [reflexivity|].
  cbn [forallb] in Hwf. apply andb_true_iff in Hwf as [Hv Hvs].
  cbn [flat_map before]. destruct (stop (label v)) eqn:Hstop.
  - unfold renderVersion. cbn [app scanWith].
    change (Nat.eqb VERSION_HEADING_DEPTH VERSION_HEADING_DEPTH) with true. cbv iota.
    now rewrite Hstop.
  - destruct (scan_version stop v st (flat_map renderVersion vs) Hv Hstop) as [cs ->].
    rewrite IH by exact Hvs. reflexivity.
Qed.

Lemma scan_document stop (d : Document) :
  wellFormed d = true ->
  scanWith stop None initialLoop (render d)
  = Ok (foldl withSections (mkChanges 0 ∅) (before stop (versionSections d))).
Proof.
  intros Hwf. unfold wellFormed in Hwf. apply andb_true_iff in Hwf as [Hp Hvs].
  unfold render. rewrite scan_preamble by (assumption || reflexivity).
  now apply scan_versions.
Qed.

Lemma before_ext (stop stop' : string -> bool) (vs : list Version) :
  (forall l, stop l = stop' l) -> before stop vs = before stop' vs.
Proof.
  intros H. induction vs as [|v vs IH]; [reflexivity|]. simpl.
  now rewrite H, IH.
Qed.

(** C8. On every well-formed document, whose labels and names are not
    empty and are not inherited names, [getChangesAsync] returns without
    raising.  With no arguments the result holds exactly the entries of
    the version sections that come before the first one whose label is not
    [master]; with a non-empty [fromVersion] other than [master], it holds
    exactly the entries of the version sections that come before the first
    one labelled [fromVersion], all of them when there is none: that
    section and those after it are not read. *)
Theorem getChanges_stops_at_boundary_heading (d : Document) :
  wellFormed d = true ->
  (exists c,
      getChangesAsync (render d) None None = Ok c /\
      holds (before (fun l => negb (String.eqb l "master")) (versionSections d)) c) /\
  (forall fromVersion,
      fromVersion <> "" -> fromVersion <> "master" ->
      exists c,
        getChangesAsync (render d) (Some fromVersion) None = Ok c /\
        holds (before (fun l => String.eqb l fromVersion) (versionSections d)) c).
Proof.
  intros Hwf. split.
  - eexists. split; [|apply holds_collected].
    unfold getChangesAsync. rewrite (scan_document _ d Hwf). do 2 f_equal.
    apply before_ext. intros l. apply stopsAt_default.
  - intros f Hf Hm. eexists. split; [|apply holds_collected].
    unfold getChangesAsync. rewrite (scan_document _ d Hwf). do 2 f_equal.
    apply before_ext. intros l. simpl. rewrite stopsAt_from by exact Hf.
    destruct (String.eqb_spec l f) as [->|Hne]; [|apply andb_false_r].
    rewrite andb_true_r. now apply negb_true_iff, eqb_string_false.
Qed.

Lemma getChanges_stops_at_boundary_heading_witness :
  exists c,
    getChangesAsync (render sample) (Some "1.1.0") None = Ok c /\
    totalCount c = 2 /\
    entriesUnder c "master" "🛠 Breaking changes" = Some ["Dropped a method."] /\
    entriesUnder c "1.2.0" "🐛 Bug fixes" = Some ["Fixed 1.2.0."] /\
    versions c !! "1.1.0" = None.
Proof.
  destruct (proj2 (getChanges_stops_at_boundary_heading sample eq_refl) "1.1.0")
    as (c & Hc & Hcount & Hversions & Hunder); [discriminate | discriminate |].
  exists c. split; [exact Hc|]. split; [exact Hcount|].
  split; [exact (Hunder "master" "🛠 Breaking changes")|].
  split; [exact (Hunder "1.2.0" "🐛 Bug fixes")|].
  destruct (versions c !! "1.1.0") eqn:H; [|reflexivity].
  destruct (proj1 (Hversions "1.1.0")) as (v & Hin & Hl); [now rewrite H|].
  exfalso. vm_compute in Hin. destruct Hin as [<- | [<- | []]]; discriminate.
Defined.

(** C8, as stated, fails when [fromVersion] is the top label [master]:
    the heading equal to [fromVersion] comes first, yet the traversal does
    not stop there, nor at any later heading, and the sections of all
    three versions are returned. *)
Lemma from_top_label_collects_everything :
  let result := getChangesAsync (render sample) (Some "master") None in
  option_map totalCount (returned result) = Some 3 /\
  (returned result ≫= fun c => entriesUnder c "1.1.0" (ChangeType_value BUG_FIXES))
  = Some ["Fixed 1.1.0."] /\
  result <> Ok (mkChanges 0 ∅).
Proof.
  cbv zeta. split; [vm_compute; reflexivity|]. split; [vm_compute; reflexivity|].
  intros H. apply (f_equal (fun o => option_map totalCount (returned o))) in H.
  vm_compute in H. discriminate.
Qed.

(** Why the document must be well formed.  A version heading met inside a
    list item that is still open is read as an entry of that item: the
    traversal does not stop there, and the sections after it are read
    into the item. *)
Lemma heading_inside_open_item_is_an_entry :
  getChangesAsync [ Heading 2 "master"; Heading 3 "🐛 Bug fixes";
                    ListItemStart; Text "Open.";
                    Heading 2 "1.0.0"; Heading 3 "🐛 Bug fixes";
                    ListItemStart; Text "Old."; ListItemEnd ] None None
  = Ok (mkChanges 4 {[ "master" :=
                         {[ "🐛 Bug fixes" :=
                              ["Open."; "1.0.0"; "🐛 Bug fixes"; "Old."] ]} ]}).
Proof. vm_compute. reflexivity. Qed.

(** A section named after a property that every object inherits is given
    no array, and its first entry raises. *)
Lemma entry_under_inherited_section_raises :
  getChangesAsync [ Heading 2 "master"; Heading 3 "constructor";
                    ListItemStart; Text "Fixed."; ListItemEnd ] None None
  = Thrown "TypeError".
Proof. vm_compute. reflexivity. Qed.

End ChangelogReader.

(** * Further properties of the command *)

Import Observations.

(** ** Runs of the pipeline *)

Section PipelineRuns.
Import PublishPackages Packages.

Lemma mapO_Ok_inv {A B : Type} (f : A -> Outcome B) (l : list A) (l' : list B) :
  mapO f l = Ok l' -> Forall2 (fun x y => f x = Ok y) l l'.
Proof.
  revert l'. induction l as [|a l IH]; intros l' H; simpl in H.
  - injection H as <-. constructor.
  - apply bindO_Ok in H as (b & Hb & H).
    apply bindO_Ok in H as (bs & Hbs & H). injection H as <-.
    constructor; [exact Hb | now apply IH].
Qed.

(** An iteration of phase 1 assigns neither the identity of the fabric nor
    the fields [isSelectedToPublish] and [integral] of its state. *)
Lemma findUnpublishedPackage_keeps env options f f' :
  findUnpublishedPackage env options f = Ok f' ->
  identity f' = identity f /\
  isSelectedToPublish (state f') = isSelectedToPublish (state f) /\
  integral (state f') = integral (state f).
Proof.
  unfold findUnpublishedPackage. intros H.
  apply bindO_Ok in H as (tokens & _ & H).
  apply bindO_Ok in H as (changes & _ & H).
  apply bindO_Ok in H as (allLogs & _ & H).
  apply bindO_Ok in H as (fileLog & _ & H).
  cbv zeta in H.
  destruct (getSuggestedReleaseType _ _ _ _) as [t|];
    [destruct (Semver.inc _ _ _) as [v|];
     [destruct (truthy v);
      [destruct options as [o|]; [destruct (prereleaseIdentifier o)|discriminate]|]|]|];
    injection H as <-; repeat split.
Qed.

Lemma keepsIdentity_checkPackagesIntegrity : keepsIdentity checkPackagesIntegrityPhase.
Proof.
  intros fabrics options env fs fabrics' fs' [= <- _].
  unfold checkPackagesIntegrity. rewrite map_map. reflexivity.
Qed.

Lemma keepsIdentity_findUnpublished : keepsIdentity findUnpublishedPackagesAsync.
Proof.
  intros fabrics options env fs fabrics' fs' [= Hl _]. apply mapO_Ok_inv in Hl.
  induction Hl as [|f f' l l' Hf _ IH]; simpl; [reflexivity|].
  apply findUnpublishedPackage_keeps in Hf as [-> _]. now rewrite IH.
Qed.

(** The prompt of phase 2 assigns [isSelectedToPublish] only, with the
    answer of the operator, and only for a fabric with unpublished
    changes. *)
Lemma choosePackage_inv env f f' :
  choosePackage env f = Ok f' ->
  identity f' = identity f /\
  hasUnpublishedChanges (state f') = hasUnpublishedChanges (state f) /\
  isSelectedToPublish (state f')
  = if isTrue (hasUnpublishedChanges (state f))
    then Some (confirmSelected env (packageName (pkg f)))
    else isSelectedToPublish (state f).
Proof.
  unfold choosePackage. destruct (isTrue (hasUnpublishedChanges (state f))).
  - destruct (promptError env _); [discriminate|]. now intros [= <-].
  - now intros [= <-].
Qed.

Lemma keepsIdentity_choosePackages : keepsIdentity choosePackagesToPublishAsync.
Proof.
  intros fabrics options env fs fabrics' fs' [= Hl _]. apply mapO_Ok_inv in Hl.
  induction Hl as [|f f' l l' Hf _ IH]; simpl; [reflexivity|].
  apply choosePackage_inv in Hf as [-> _]. now rewrite IH.
Qed.

Lemma keepsIdentity_updateVersions : keepsIdentity updateVersionsAsync.
Proof.
  intros fabrics options env fs fabrics' fs' H.
  now apply updateVersionsAsync_inv in H as [-> _].
Qed.

Lemma updateBundled_keeps_fabrics fabrics options env fs fabrics' fs' :
  updateBundledNativeModulesFileAsync fabrics options env fs = (Ok fabrics', fs') ->
  fabrics' = fabrics.
Proof.
  unfold updateBundledNativeModulesFileAsync.
  destruct (List.filter _ fabrics); [now intros [= <- _]|].
  destruct (bundledReadError env); [discriminate|].
  destruct (bundledWriteError env); [discriminate|]. now intros [= <- _].
Qed.

Lemma keepsIdentity_updateBundled : keepsIdentity updateBundledNativeModulesFileAsync.
Proof.
  intros fabrics options env fs fabrics' fs' H.
  now apply updateBundled_keeps_fabrics in H as ->.
Qed.

Lemma keepsIdentity_phases : Forall keepsIdentity phases.
Proof.
  repeat constructor;
    [ apply keepsIdentity_checkPackagesIntegrity | apply keepsIdentity_findUnpublished
    | apply keepsIdentity_choosePackages | apply keepsIdentity_updateVersions
    | apply keepsIdentity_updateBundled ].
Qed.

Lemma runFrom_keeps_identity remaining :
  Forall keepsIdentity remaining ->
  forall phaseIndex head options env fabrics w trace,
    map identity (fabricsAfter (runFrom remaining phaseIndex head options env
                                        fabrics w trace))
    = map identity fabrics.
Proof.
  induction 1 as [|phase rest Hphase _ IH]; intros; simpl; [reflexivity|].
  destruct (phase _ _ _ _) as [[fabrics'|e] fs'] eqn:Hp; simpl; [|reflexivity].
  rewrite IH. eapply Hphase; eauto.
Qed.

Lemma identity_restoreState backup fabrics :
  map identity (restoreState backup fabrics) = map identity fabrics.
Proof.
  unfold restoreState. rewrite map_map. apply map_ext. intros f.
  now destruct (StateBackup.state backup !! _).
Qed.

(** X1. However an invocation that enters the pipeline ends, its fabrics are
    those that were prepared, package for package and in the same order:
    no phase adds, drops, reorders or alters a package, its registry view
    or its changelog handle. *)
Theorem pipeline_keeps_packages
        (options : ActionOptions) (env : Environment) (w : World) :
  repoChecksPass options env = true ->
  listUnpublished options = false ->
  map identity (fabricsAfter (action options env w))
  = map identity (preparePackageFabricsAsync env options) /\
  map pkg (fabricsAfter (action options env w)) = listOfPackages env options.
Proof.
  intros Hchecks Hlist.
  assert (H : map identity (fabricsAfter (action options env w))
              = map identity (preparePackageFabricsAsync env options)).
  { unfold action. rewrite Hchecks, Hlist. simpl negb. cbv iota zeta.
    rewrite runFrom_keeps_identity.
    - destruct (maybeRestoreBackupAsync _ _ _ _);
        [apply identity_restoreState | reflexivity].
    - apply Forall_drop, keepsIdentity_phases. }
  split; [exact H|].
  assert (Hp : forall l : Fabrics,
             map pkg l = map (fun i => fst (fst i)) (map identity l))
    by (intros; now rewrite map_map).
  rewrite Hp, H, <- Hp.
  unfold preparePackageFabricsAsync. rewrite map_map. simpl. apply map_id.
Qed.

Lemma pipeline_keeps_packages_witness :
  map pkg (fabricsAfter (action Scenario.options0
                                (Scenario.environment Scenario.repo) Scenario.world0))
  = [Scenario.packageA; Scenario.packageB].
Proof.
  exact (proj2 (pipeline_keeps_packages Scenario.options0
                  (Scenario.environment Scenario.repo) Scenario.world0
                  eq_refl eq_refl)).
Defined.

Lemma runFrom_completed remaining :
  forall phaseIndex head options env fabrics w trace,
    exit (runFrom remaining phaseIndex head options env fabrics w trace) = Completed ->
    backupFile (worldAfter (runFrom remaining phaseIndex head options env
                                    fabrics w trace)) = None /\
    executed (runFrom remaining phaseIndex head options env fabrics w trace)
    = (trace ++ seq phaseIndex (length remaining))%list.
Proof.
  induction remaining as [|phase rest IH]; intros; simpl in *.
  - split; [reflexivity | now rewrite app_nil_r].
  - destruct (phase _ _ _ _) as [[fabrics'|e] fs']; simpl in *; [|discriminate].
    apply IH in H as [-> ->]. split; [reflexivity|]. now rewrite <- app_assoc.
Qed.

(** X2. An invocation that completes has called every phase from the one it
    entered at to the last, each once and in order, and leaves no backup
    file behind. *)
Theorem completed_run_leaves_no_backup
        (options : ActionOptions) (env : Environment) (w : World) :
  exit (action options env w) = Completed ->
  backupFile (worldAfter (action options env w)) = None /\
  executed (action options env w)
  = seq (firstPhaseIndex options env w)
        (length phases - firstPhaseIndex options env w).
Proof.
  unfold firstPhaseIndex, action. intros H.
  destruct (negb (repoChecksPass options env)); [discriminate|].
  destruct (listUnpublished options).
  { destruct (fst (findUnpublishedPackagesAsync _ _ _ _)); discriminate. }
  apply runFrom_completed in H as [-> ->]. split; [reflexivity|].
  now rewrite length_drop.
Qed.

Lemma completed_run_leaves_no_backup_witness :
  backupFile (worldAfter (action Scenario.options0
                                 (Scenario.environment Scenario.repo)
                                 Scenario.world0)) = None /\
  executed (action Scenario.options0 (Scenario.environment Scenario.repo)
                   Scenario.world0) = [0; 1; 2; 3; 4].
Proof.
  apply (completed_run_leaves_no_backup Scenario.options0
           (Scenario.environment Scenario.repo) Scenario.world0).
  vm_compute. reflexivity.
Defined.

End PipelineRuns.

(** ** Listing, restoring and saving *)

Section ListingAndBackups.
Import PublishPackages Packages.

Lemma Forall2_In_l {A B : Type} (P : A -> B -> Prop) (l : list A) (l' : list B) (x : A) :
  Forall2 P l l' -> In x l -> exists y, In y l' /\ P x y.
Proof.
  induction 1 as [|a b l l' Hab _ IH]; intros Hin; [destruct Hin|].
  destruct Hin as [<- | Hin]; [exists b; split; [now left | exact Hab]|].
  destruct (IH Hin) as (y & Hy & HP). exists y. split; [now right | exact HP].
Qed.

Lemma Forall2_In_r {A B : Type} (P : A -> B -> Prop) (l : list A) (l' : list B) (y : B) :
  Forall2 P l l' -> In y l' -> exists x, In x l /\ P x y.
Proof.
  induction 1 as [|a b l l' Hab _ IH]; intros Hin; [destruct Hin|].
  destruct Hin as [<- | Hin]; [exists a; split; [now left | exact Hab]|].
  destruct (IH Hin) as (x & Hx & HP). exists x. split; [now right | exact HP].
Qed.

(** Without options, an iteration of phase 1 returns only for a package
    that gets no release type or no next version. *)
Lemma findUnpublishedPackage_without_options env f f' parsed :
  Semver.parse (packageVersion (pkg f)) = Some parsed ->
  Semver.prerelease (packageVersion (pkg f)) = None ->
  findUnpublishedPackage env None f = Ok f' -> False.
Proof.
  intros Hparse Hpre H.
  apply findUnpublishedPackage_inv in H as (changes & allLogs & fileLog & _ & _ & H).
  cbv zeta in H.
  assert (exists t, getSuggestedReleaseType (packageVersion (pkg f)) (Some fileLog)
                                           (Some changes) None = Some t) as [t Ht].
  { unfold getSuggestedReleaseType. rewrite Hpre.
    destruct (hasBreakingChanges _); [eauto|].
    destruct (fileLogsContainNativeChanges _); eauto. }
  rewrite Ht in H. simpl in H.
  destruct (inc_release_truthy _ _ t Hparse) as (next & Hnext & Htruthy).
  rewrite Hnext in H.
  destruct H as [(_ & _ & [? | [? | [Hempty | (o & ? & _)]]])
                | (o & ? & ? & ? & _)]; try discriminate.
  injection Hempty as ->. discriminate.
Qed.

(** X3. With [--list-unpublished], [findUnpublishedPackagesAsync] is called
    without the options it reads: as soon as one listed package has a valid
    current version that is not a prerelease, the action is rejected instead
    of listing anything, whatever git and the changelogs answer; it has
    called no phase and written nothing. *)
Theorem list_mode_rejects_when_a_version_is_valid
        (options : ActionOptions) (env : Environment) (w : World)
        (p : Package) (parsed : Semver.SemVer) :
  repoChecksPass options env = true ->
  listUnpublished options = true ->
  In p (listOfPackages env options) ->
  Semver.parse (packageVersion p) = Some parsed ->
  Semver.prerelease (packageVersion p) = None ->
  (exists error, exit (action options env w) = Rejected error) /\
  executed (action options env w) = [] /\
  worldAfter (action options env w) = w.
Proof.
  intros Hchecks Hlist Hin Hparse Hpre. unfold action.
  rewrite Hchecks, Hlist. simpl negb. cbv iota zeta.
  destruct (fst (findUnpublishedPackagesAsync _ _ _ _)) as [l|e] eqn:Hl;
    [exfalso | simpl; eauto].
  cbn [findUnpublishedPackagesAsync fst] in Hl. apply mapO_Ok_inv in Hl.
  assert (Hf : In (mkFabric p (packageView env (packageName p) (packageVersion p))
                            (mkChangelog (changelogPath p)) emptyState)
                  (preparePackageFabricsAsync env options)).
  { unfold preparePackageFabricsAsync. apply in_map_iff. exists p. now split. }
  destruct (Forall2_In_l _ _ _ _ Hl Hf) as (f' & _ & Hf').
  eapply (findUnpublishedPackage_without_options env _ f' parsed); [| |exact Hf'];
    assumption.
Qed.

Lemma list_mode_rejects_when_a_version_is_valid_witness :
  exists error,
    exit (action Scenario.listOptions (Scenario.environment Scenario.repo)
                 Scenario.world0)
    = Rejected error.
Proof.
  apply (list_mode_rejects_when_a_version_is_valid
           Scenario.listOptions
           (Scenario.environment Scenario.repo) Scenario.world0
           Scenario.packageA (Semver.mkSemVer 2 0 0 []));
    [reflexivity | reflexivity | vm_compute; now left | reflexivity | reflexivity].
Defined.

(** X4. A backup is restored exactly when the file holds it, it is valid for
    the current head, time and options, and either [--retry] was given or
    the operator agrees to use it. *)
Theorem restored_backup_iff
        (env : Environment) (w : World) (currentHead : string)
        (options : ActionOptions) (backup : StateBackup.t) :
  maybeRestoreBackupAsync env w currentHead options = Some backup <->
  backupFile w = Some backup /\
  currentHead = StateBackup.head backup /\
  (now w - StateBackup.timestamp backup <= BACKUP_EXPIRATION_TIME)%Z /\
  pickBackupableOptions options = StateBackup.options backup /\
  (retry options = true \/ confirmRestore env = true).
Proof.
  unfold maybeRestoreBackupAsync.
  destruct (backupFile w) as [b|]; [|split; [discriminate | now intros [? _]]].
  pose proof (isBackupValid_iff (now w) b currentHead options) as Hv.
  destruct (isBackupValid (now w) b currentHead options); simpl.
  - destruct Hv as [Hv _]. specialize (Hv eq_refl).
    destruct (retry options), (confirmRestore env); split;
      try (intros [= <-]; tauto); try discriminate;
      try (intros ([= <-] & _); reflexivity);
      intros (_ & _ & _ & _ & [? | ?]); discriminate.
  - split; [discriminate|]. intros ([= <-] & H). destruct Hv as [_ Hv].
    assert (false = true); [apply Hv; tauto | discriminate].
Qed.

Lemma overlay_emptyState (s : PackageState) : overlay emptyState s = s.
Proof. destruct s as [[] [] [] [] [] [] [] []]; reflexivity. Qed.

Lemma saved_state_other (name : string) (l : Fabrics) :
  forall m : gmap string PackageState,
    ~ In name (names l) ->
    foldl (fun m f => <[packageName (pkg f) := Utils.deepCloneObject (state f)]> m) m l
    !! name = m !! name.
Proof.
  induction l as [|f l IH]; intros m H; simpl; [reflexivity|].
  rewrite IH by (intros Hin; apply H; now right).
  apply lookup_insert_ne. intros Heq. apply H. now left.
Qed.

Lemma saved_state_lookup (l : Fabrics) :
  NoDup (names l) ->
  forall (m : gmap string PackageState) f,
    In f l ->
    foldl (fun m f => <[packageName (pkg f) := Utils.deepCloneObject (state f)]> m) m l
    !! packageName (pkg f) = Some (state f).
Proof.
  induction l as [|g l IH]; intros Hnd m f Hin; [destruct Hin|].
  apply NoDup_cons in Hnd as [Hg Hnd]. simpl.
  destruct Hin as [<- | Hin]; [|now apply IH].
  rewrite saved_state_other by (now rewrite <- list_elem_of_In).
  apply lookup_insert_eq.
Qed.

(** X5. When the packages have distinct names, restoring the backup that
    [saveBackup] wrote onto the freshly prepared fabrics gives back the
    fabrics that were saved, states included. *)
Theorem restore_after_save
        (head : string) (i : nat) (fabrics : Fabrics)
        (options : ActionOptions) (w : World) :
  NoDup (names fabrics) ->
  exists backup,
    backupFile (saveBackup head i fabrics options w) = Some backup /\
    restoreState backup (map fresh fabrics) = fabrics.
Proof.
  intros Hnd. eexists. split; [reflexivity|].
  unfold restoreState. rewrite map_map. simpl.
  rewrite <- (map_id fabrics) at 2. apply map_ext_in. intros f Hin.
  rewrite (saved_state_lookup fabrics Hnd ∅ f Hin).
  rewrite overlay_emptyState. now destruct f.
Qed.

Lemma restore_after_save_witness :
  exists backup,
    backupFile (saveBackup "h3" 1 (fabricsAfter
                                     (action Scenario.options0
                                             (Scenario.environment Scenario.repo)
                                             Scenario.world0))
                           Scenario.options0 Scenario.world0) = Some backup /\
    restoreState backup
                 (map fresh (fabricsAfter
                               (action Scenario.options0
                                       (Scenario.environment Scenario.repo)
                                       Scenario.world0)))
    = fabricsAfter (action Scenario.options0 (Scenario.environment Scenario.repo)
                           Scenario.world0).
Proof.
  apply restore_after_save.
  assert (H : names (fabricsAfter (action Scenario.options0
                                          (Scenario.environment Scenario.repo)
                                          Scenario.world0))
              = ["expo-a"; "expo-b"]) by (vm_compute; reflexivity).
  rewrite H. repeat constructor; rewrite list_elem_of_In; simpl; intuition discriminate.
Defined.

End ListingAndBackups.

(** ** What phases 3 and 4 write *)

Section PhaseWrites.
Import PublishPackages Packages.



(** X7. When the fabrics have distinct paths and phase 3 returns, it leaves
    in the manifest of each fabric the release version of its state
    together with the hash of the newest commit of its log or, for an empty
    or absent log, the commit reference the manifest had; it does so
    whether or not the package is selected.  A fabric without such a
    reference, or without a release version, keeps its manifest file. *)
Theorem updateVersions_manifest_of_each_fabric
        (fabrics fabrics' : Fabrics) (options : option ActionOptions)
        (env : Environment) (fs fs' : Files) (f : PackageFabric) :
  updateVersionsAsync fabrics options env fs = (Ok fabrics', fs') ->
  NoDup (map manifestPath fabrics) ->
  In f fabrics ->
  (forall head version,
      newGitHead f = Some head -> head <> "" ->
      releaseVersion (state f) = Some (Some version) -> version <> "" ->
      manifests fs' !! manifestPath f
      = Some (mkPackageJson version (Some head) (private (packageJson (pkg f))))) /\
  (newGitHead f = None \/ newGitHead f = Some "" \/
   releaseVersion (state f) = None \/ releaseVersion (state f) = Some None \/
   releaseVersion (state f) = Some (Some "") ->
   manifests fs' !! manifestPath f = manifests fs !! manifestPath f).
Proof.
  intros H Hnd Hin. apply updateVersionsAsync_inv in H as [_ H].
  exact (updateVersions_lookup env fabrics fs fs' H Hnd f Hin).
Qed.

Lemma updateVersions_manifest_of_each_fabric_witness :
  exists fs',
    updateVersionsAsync [Scenario.releasedA; Scenario.releasedB] None
                        (Scenario.environment Scenario.repo) Scenario.files0
    = (Ok [Scenario.releasedA; Scenario.releasedB], fs') /\
    manifests fs' !! "packages/a/package.json"
    = Some (mkPackageJson "3.0.0" (Some "h3") false).
Proof.
  eexists. split; [reflexivity|].
  refine (proj1 (updateVersions_manifest_of_each_fabric
                   [Scenario.releasedA; Scenario.releasedB] _ None
                   (Scenario.environment Scenario.repo) Scenario.files0 _
                   Scenario.releasedA eq_refl _ _) "h3" "3.0.0" eq_refl _ eq_refl _);
    [|now left|discriminate|discriminate].
  repeat constructor; rewrite list_elem_of_In; simpl; intuition discriminate.
Defined.

Lemma bundled_lookup_selected (l : list PackageFabric) :
  NoDup (names l) ->
  forall (m : gmap string string) f,
    In f l ->
    foldl (fun m f => <[packageName (pkg f) := versionRange (releaseVersion (state f))]> m)
          m l !! packageName (pkg f)
    = Some (versionRange (releaseVersion (state f))).
Proof.
  induction l as [|g l IH]; intros Hnd m f Hin; [destruct Hin|].
  apply NoDup_cons in Hnd as [Hg Hnd]. simpl.
  destruct Hin as [<- | Hin]; [|now apply IH].
  rewrite foldl_insert_other.
  - apply lookup_insert_eq.
  - intros f Hf Heq. apply Hg. rewrite list_elem_of_In, <- Heq.
    now apply (in_map (fun f => packageName (pkg f))).
Qed.

Lemma NoDup_names_filter (p : PackageFabric -> bool) (l : Fabrics) :
  NoDup (names l) -> NoDup (names (List.filter p l)).
Proof.
  induction l as [|f l IH]; intros Hnd; simpl; [constructor|].
  apply NoDup_cons in Hnd as [Hf Hnd].
  destruct (p f); simpl; [|now apply IH].
  apply NoDup_cons. split; [|now apply IH].
  intros Hin. apply Hf. rewrite list_elem_of_In in *. unfold names in *.
  apply in_map_iff in Hin as (g & Hg & Hin). apply filter_In in Hin as [Hin _].
  rewrite <- Hg. now apply (in_map (fun f => packageName (pkg f))).
Qed.

Lemma updateBundled_inv fabrics options env fs fabrics' fs' :
  updateBundledNativeModulesFileAsync fabrics options env fs = (Ok fabrics', fs') ->
  manifests fs' = manifests fs /\
  bundledNativeModules fs'
  = foldl (fun m f => <[packageName (pkg f) := versionRange (releaseVersion (state f))]> m)
          (bundledNativeModules fs)
          (List.filter (fun f => isTrue (isSelectedToPublish (state f))) fabrics).
Proof.
  unfold updateBundledNativeModulesFileAsync.
  destruct (List.filter _ fabrics) as [|g rest]; [now intros [= _ <-]|].
  destruct (bundledReadError env); [discriminate|].
  destruct (bundledWriteError env); [discriminate|]. now intros [= _ <-].
Qed.

(** X8. When the packages have distinct names, after phase 4 the entry of each
    selected package in [bundledNativeModules.json] is [~] followed by its
    release version, [~null] when that version is [null]; the entry under
    the name of a package that is not selected is the one the file had; the
    manifests are not written. *)
Theorem updateBundled_entry_of_each_package
        (fabrics fabrics' : Fabrics) (options : option ActionOptions)
        (env : Environment) (fs fs' : Files) (f : PackageFabric) :
  updateBundledNativeModulesFileAsync fabrics options env fs = (Ok fabrics', fs') ->
  NoDup (names fabrics) ->
  In f fabrics ->
  manifests fs' = manifests fs /\
  (isSelectedToPublish (state f) = Some true ->
   (forall version,
       releaseVersion (state f) = Some (Some version) ->
       bundledNativeModules fs' !! packageName (pkg f) = Some ("~" ++ version)) /\
   (releaseVersion (state f) = Some None ->
    bundledNativeModules fs' !! packageName (pkg f) = Some "~null")) /\
  (isSelectedToPublish (state f) <> Some true ->
   bundledNativeModules fs' !! packageName (pkg f)
   = bundledNativeModules fs !! packageName (pkg f)).
Proof.
  intros H Hnd Hin. destruct (updateBundled_inv _ _ _ _ _ _ H) as [Hm Hb].
  split; [exact Hm | split].
  - intros Hsel.
    assert (Hf : In f (List.filter
                         (fun f => isTrue (isSelectedToPublish (state f))) fabrics)).
    { apply filter_In. split; [exact Hin | now rewrite Hsel]. }
    pose proof (bundled_lookup_selected _ (NoDup_names_filter _ _ Hnd)
                                        (bundledNativeModules fs) f Hf) as Hl.
    rewrite <- Hb in Hl.
    split; [intros version Hv | intros Hv]; rewrite Hv in Hl; exact Hl.
  - intros Hsel.
    eapply (bundled_modules_only_for_selected _ _ _ _ _ _ (packageName (pkg f))) in H
      as [_ H]; [exact H|].
    intros g Hg Hname.
    assert (g = f) as ->.
    { clear -Hnd Hin Hg Hname. induction fabrics as [|x l IH]; [destruct Hin|].
      simpl in Hnd. apply NoDup_cons in Hnd as [Hx Hnd].
      rewrite list_elem_of_In in Hx.
      destruct Hin as [-> | Hin], Hg as [-> | Hg]; auto.
      - exfalso. apply Hx. rewrite <- Hname.
        now apply (in_map (fun f => packageName (pkg f))).
      - exfalso. apply Hx. rewrite Hname.
        now apply (in_map (fun f => packageName (pkg f))). }
    destruct (isSelectedToPublish (state f)) as [[|]|]; [congruence | |]; reflexivity.
Qed.

Lemma updateBundled_entry_of_each_package_witness :
  let selected := withState Scenario.fabricA
                            (mkState None (Some true) None None None None None
                                     (Some None)) in
  exists fs',
    updateBundledNativeModulesFileAsync
      [selected] None (Scenario.environment Scenario.repo) Scenario.files0
    = (Ok [selected], fs') /\
    bundledNativeModules fs' !! "expo-a" = Some "~null".
Proof.
  intros selected.
  assert (E : exists fs',
             updateBundledNativeModulesFileAsync
               [selected] None (Scenario.environment Scenario.repo) Scenario.files0
             = (Ok [selected], fs')) by (eexists; reflexivity).
  destruct E as [fs' E]. exists fs'. split; [exact E|].
  destruct (updateBundled_entry_of_each_package
              [selected] [selected] None (Scenario.environment Scenario.repo)
              Scenario.files0 fs' selected E) as (_ & Hsel & _).
  - repeat constructor. rewrite list_elem_of_In. intros [].
  - now left.
  - exact (proj2 (Hsel eq_refl) eq_refl).
Defined.

End PhaseWrites.

(** ** More on the changelog reader *)

Import ReaderNotions.

Section Reader.
Import Markdown Changelogs ReaderNotions.

Lemma linked_openVersion st text :
  Js.inherited text = false -> linked (openVersion st text).
Proof.
  intros Hown cv [= <-]. unfold openVersion; simpl.
  destruct (versions (changes st) !! text) as [sections|] eqn:Hl.
  - exists sections. split; [exact Hl | discriminate].
  - rewrite Hown. exists ∅. split; [apply lookup_insert_eq | discriminate].
Qed.

Lemma openSection_linked st cv text :
  linked st -> currentVersion st = Some cv -> Js.inherited text = false ->
  exists st', openSection st cv text = Ok st' /\ linked st' /\
              currentVersion st' = Some cv /\ currentSection st' = Some text.
Proof.
  intros Hl Hcv Hown. destruct (Hl cv Hcv) as (sections & Hs & _).
  unfold openSection. rewrite Hs, Hown. eexists. split; [reflexivity|].
  split; [|split; reflexivity].
  intros cv' [= <-]. simpl. rewrite lookup_insert_eq. eexists. split; [reflexivity|].
  intros cs [= <-]. destruct (sections !! text) eqn:Ht; [now rewrite Ht|].
  rewrite lookup_insert_eq. eauto.
Qed.

Lemma pushEntry_linked st cv cs tok :
  linked st -> currentVersion st = Some cv -> currentSection st = Some cs ->
  exists st', pushEntry st cv cs tok = Ok st' /\ linked st' /\
              currentVersion st' = Some cv /\ currentSection st' = Some cs.
Proof.
  intros Hl Hcv Hcs. destruct (Hl cv Hcv) as (sections & Hs & Hsec).
  destruct (Hsec cs Hcs) as [entries He].
  unfold pushEntry. destruct (text_of tok) as [t|]; [|eauto].
  destruct (truthy t); [|eauto].
  rewrite Hs, He. eexists. split; [reflexivity|]. split; [|split; assumption].
  intros cv'. simpl. rewrite Hcv. intros [= <-]. rewrite lookup_insert_eq.
  eexists. split; [reflexivity|]. rewrite Hcs. intros cs' [= <-].
  rewrite lookup_insert_eq. eauto.
Qed.

Lemma existsb_tail tok (rest : list Token) :
  existsb isListItemEnd (tok :: rest) = true -> isListItemEnd tok = false ->
  existsb isListItemEnd rest = true.
Proof. cbn [existsb]. intros H Hf. now rewrite Hf in H. Qed.

Lemma closedItems_tail tok (rest : list Token) :
  closedItems (tok :: rest) = true -> closedItems rest = true.
Proof.
  destruct tok; simpl; auto. intros H. now apply andb_true_iff in H as [_ H].
Qed.

Lemma ownHeadings_tail tok (rest : list Token) :
  ownHeadings (tok :: rest) = true -> ownHeadings rest = true.
Proof. unfold ownHeadings. cbn [forallb]. intros H. now apply andb_true_iff in H. Qed.

Lemma ownHeadings_head depth text (rest : list Token) :
  ownHeadings (Heading depth text :: rest) = true -> Js.inherited text = false.
Proof.
  unfold ownHeadings. cbn [forallb]. intros H. apply andb_true_iff in H as [H _].
  now apply negb_true_iff.
Qed.

Lemma scanWith_returns (stop : string -> bool) :
  forall tokens item st,
    ownHeadings tokens = true ->
    readable item st tokens -> exists c, scanWith stop item st tokens = Ok c.
Proof.
  induction tokens as [|tok rest IH]; intros item st Hown (Hl & Hc & Hi);
    cbn [scanWith].
  - destruct item as [[cv cs]|]; [|eauto]. now destruct Hi as (_ & _ & ?).
  - pose proof (closedItems_tail _ _ Hc) as Hc'.
    pose proof (ownHeadings_tail _ _ Hown) as Hown'.
    destruct item as [[cv cs]|].
    + destruct Hi as (Hcv & Hcs & He).
      destruct (isListItemEnd tok) eqn:Hend; [(apply IH; [assumption | repeat split; auto])|].
      destruct (pushEntry_linked st cv cs tok Hl Hcv Hcs) as (st' & -> & Hl' & Hcv' & Hcs').
      cbn [bindO]. apply IH; [assumption|]. repeat split; auto. eapply existsb_tail; eauto.
    + destruct tok as [depth text| | |text|];
        try ((apply IH; [assumption | repeat split; auto])).
      * destruct (Nat.eqb depth VERSION_HEADING_DEPTH).
        -- destruct (stop text); [eauto|]. apply IH; [assumption|]. repeat split; auto.
           apply linked_openVersion. eapply ownHeadings_head; eauto.
        -- destruct (currentVersion st) as [cv|] eqn:Hcv; [|(apply IH; [assumption | repeat split; auto])].
           destruct (truthy cv && Nat.eqb depth CHANGE_TYPE_HEADING_DEPTH);
             [|(apply IH; [assumption | repeat split; auto])].
           destruct (openSection_linked st cv text Hl Hcv
                                        (ownHeadings_head _ _ _ Hown))
             as (st' & -> & Hl' & _).
           cbn [bindO]. apply IH; [assumption|]. repeat split; auto.
      * simpl in Hc. apply andb_true_iff in Hc as [He _].
        destruct (currentVersion st) as [cv|] eqn:Hcv; [|(apply IH; [assumption | repeat split; auto])].
        destruct (currentSection st) as [cs|] eqn:Hcs; [|(apply IH; [assumption | repeat split; auto])].
        destruct (truthy cv && truthy cs); (apply IH; [assumption | repeat split; auto]).
Qed.

Lemma linked_initial : linked initialLoop.
Proof. intros cv. discriminate. Qed.

(** X9. When every [LIST_ITEM_START] of the token stream has a
    [LIST_ITEM_END] somewhere after it, and no heading is named after a
    property that objects inherit, [getChangesAsync] returns, whatever the
    arguments: it raises on no such stream. *)
Theorem getChanges_returns_on_closed_items
        (tokens : list Token) (fromVersion toVersion : option string) :
  closedItems tokens = true ->
  ownHeadings tokens = true ->
  exists c, getChangesAsync tokens fromVersion toVersion = Ok c.
Proof.
  intros H Hown. apply scanWith_returns; [exact Hown|].
  repeat split; auto. apply linked_initial.
Qed.

Lemma getChanges_returns_on_closed_items_witness :
  exists c, getChangesAsync Scenario.threeVersions (Some "1.2.0") None = Ok c.
Proof. apply getChanges_returns_on_closed_items; reflexivity. Defined.

Lemma pushEntry_raises st cv cs tok error :
  pushEntry st cv cs tok = Thrown error -> error = "TypeError".
Proof.
  unfold pushEntry. destruct (text_of tok) as [t|]; [|discriminate].
  destruct (truthy t); [|discriminate].
  destruct (versions (changes st) !! cv) as [sec|].
  - destruct (sec !! cs); [discriminate|]. now intros [= <-].
  - destruct (Js.inherited cv && negb (Js.inherited cs)); [discriminate|].
    now intros [= <-].
Qed.

Lemma scanWith_open_item_raises (stop : string -> bool) :
  forall tokens cv cs st,
    existsb isListItemEnd tokens = false ->
    scanWith stop (Some (cv, cs)) st tokens = Thrown "TypeError".
Proof.
  induction tokens as [|tok rest IH]; intros cv cs st He; cbn [scanWith];
    [reflexivity|].
  cbn [existsb] in He. apply orb_false_iff in He as [-> He].
  destruct (pushEntry st cv cs tok) as [st'|error] eqn:Hp; cbn [bindO].
  - now apply IH.
  - now rewrite (pushEntry_raises _ _ _ _ _ Hp).
Qed.

(** X10. A list item opened under a change-type heading of the [master] section
    and not closed by any later [LIST_ITEM_END] makes [getChangesAsync]
    raise a [TypeError], whatever tokens follow. *)
Theorem getChanges_raises_on_open_item
        (section : string) (rest : list Token) :
  section <> "" ->
  existsb isListItemEnd rest = false ->
  getChangesAsync (Heading VERSION_HEADING_DEPTH "master"
                   :: Heading CHANGE_TYPE_HEADING_DEPTH section
                   :: ListItemStart :: rest) None None
  = Thrown "TypeError".
Proof.
  intros Hs He. unfold getChangesAsync.
  assert (Ht : truthy section = true).
  { unfold truthy. apply negb_true_iff. now apply eqb_string_false. }
  cbn [scanWith default]. rewrite Nat.eqb_refl, stopsAt_default.
  change (negb (String.eqb "master" "master")) with false. cbv iota.
  change (Nat.eqb CHANGE_TYPE_HEADING_DEPTH VERSION_HEADING_DEPTH) with false.
  cbv iota. cbn [openVersion currentVersion]. rewrite Nat.eqb_refl.
  change (truthy "master") with true. cbn [andb].
  unfold openSection.
  change (versions (changes (openVersion initialLoop "master")) !! "master")
    with (Some (∅ : gmap string (list string))).
  cbv iota. cbn [bindO currentVersion currentSection]. rewrite Ht.
  change (truthy "master") with true. cbn [andb].
  now apply scanWith_open_item_raises.
Qed.

Lemma getChanges_raises_on_open_item_witness :
  getChangesAsync [Heading 2 "master"; Heading 3 "🐛 Bug fixes"; ListItemStart;
                   Text "Fixed."; Heading 2 "1.0.0"] None None
  = Thrown "TypeError".
Proof.
  apply (getChanges_raises_on_open_item "🐛 Bug fixes" [Text "Fixed."; Heading 2 "1.0.0"]);
    [discriminate | reflexivity].
Defined.

Lemma scanWith_beforeVersions (stop : string -> bool) :
  forall tokens,
    (forall label, ~ In (Heading VERSION_HEADING_DEPTH label) tokens) ->
    scanWith stop None initialLoop tokens = Ok (mkChanges 0 ∅).
Proof.
  induction tokens as [|tok rest IH]; intros H; cbn [scanWith]; [reflexivity|].
  assert (Hrest : forall label, ~ In (Heading VERSION_HEADING_DEPTH label) rest)
    by (intros label Hin; apply (H label); now right).
  destruct tok as [depth text| | |text|]; try (now apply IH).
  destruct (Nat.eqb_spec depth VERSION_HEADING_DEPTH) as [->|Hd]; [|now apply IH].
  exfalso. apply (H text). now left.
Qed.

(** X11. A token stream without version headings yields no changes, whatever
    the arguments; and with no arguments, when the first version heading is
    not [master], nothing is collected either, whatever follows it. *)
Theorem getChanges_empty_before_first_version
        (pre : list Token) :
  (forall label, ~ In (Heading VERSION_HEADING_DEPTH label) pre) ->
  (forall fromVersion toVersion,
      getChangesAsync pre fromVersion toVersion = Ok (mkChanges 0 ∅)) /\
  (forall label post,
      label <> "master" ->
      getChangesAsync (pre ++ Heading VERSION_HEADING_DEPTH label :: post) None None
      = Ok (mkChanges 0 ∅)).
Proof.
  intros H. split.
  - intros. now apply scanWith_beforeVersions.
  - intros label post Hl. apply scanWith_stops_at.
    + rewrite stopsAt_default. now apply negb_true_iff, eqb_string_false.
    + now apply scanWith_beforeVersions.
Qed.

Lemma getChanges_empty_before_first_version_witness :
  getChangesAsync ([Heading 1 "Changelog"; ListItemStart; Text "stray"; ListItemEnd]
                   ++ Heading 2 "1.2.0" :: Scenario.oldSection) None None
  = Ok (mkChanges 0 ∅).
Proof.
  apply (proj2 (getChanges_empty_before_first_version
                  [Heading 1 "Changelog"; ListItemStart; Text "stray"; ListItemEnd]
                  ltac:(intros label H;
                        repeat (destruct H as [H | H]; [discriminate|]); exact H)));
    discriminate.
Defined.

Lemma scanWith_beforeSections (stop : string -> bool) :
  forall tokens st,
    (forall text, ~ In (Heading CHANGE_TYPE_HEADING_DEPTH text) tokens) ->
    beforeSections st ->
    exists c, scanWith stop None st tokens = Ok c /\ totalCount c = 0.
Proof.
  induction tokens as [|tok rest IH]; intros st H [Hs Hc]; cbn [scanWith];
    [eauto|].
  assert (Hrest : forall text, ~ In (Heading CHANGE_TYPE_HEADING_DEPTH text) rest)
    by (intros text Hin; apply (H text); now right).
  destruct tok as [depth text| | |text|];
    try (apply IH; [assumption | now split]).
  - destruct (Nat.eqb depth VERSION_HEADING_DEPTH).
    + destruct (stop text); [eauto|]. apply IH; [assumption | now split].
    + destruct (currentVersion st) as [cv|]; [|apply IH; [assumption | now split]].
      destruct (Nat.eqb_spec depth CHANGE_TYPE_HEADING_DEPTH) as [->|Hd].
      * exfalso. apply (H text). now left.
      * rewrite andb_false_r. apply IH; [assumption | now split].
  - rewrite Hs. destruct (currentVersion st); apply IH; try assumption; now split.
Qed.

(** X12. List items are collected only under a change-type heading: on a token
    stream without any, [getChangesAsync] returns and [totalCount] is 0,
    whatever the arguments and the list items of the stream. *)
Theorem getChanges_counts_nothing_without_sections
        (tokens : list Token) (fromVersion toVersion : option string) :
  (forall text, ~ In (Heading CHANGE_TYPE_HEADING_DEPTH text) tokens) ->
  exists c, getChangesAsync tokens fromVersion toVersion = Ok c /\ totalCount c = 0.
Proof. intros H. apply scanWith_beforeSections; [exact H | now split]. Qed.

Lemma getChanges_counts_nothing_without_sections_witness :
  exists c,
    getChangesAsync [Heading 2 "master"; ListItemStart; Text "Unsorted change.";
                     ListItemEnd] None None = Ok c /\
    totalCount c = 0.
Proof.
  apply getChanges_counts_nothing_without_sections.
  intros text H. repeat (destruct H as [H | H]; [discriminate|]). exact H.
Defined.

End Reader.

(** ** From detection to the bundled modules *)

Section EndToEnd.
Import PublishPackages Packages.

(** X13. In a completed run that restored no backup, the entry of
    [bundledNativeModules.json] under a name is the one the file had unless
    a package of that name was found to have unpublished changes and the
    operator confirmed it. *)
Theorem fresh_run_bundles_only_confirmed_changes
        (options : ActionOptions) (env : Environment) (w : World) (name : string) :
  maybeRestoreBackupAsync env w (headCommitHash env) options = None ->
  exit (action options env w) = Completed ->
  (forall f, In f (fabricsAfter (action options env w)) ->
             packageName (pkg f) = name ->
             hasUnpublishedChanges (state f) = Some true ->
             confirmSelected env name = false) ->
  bundledNativeModules (files (worldAfter (action options env w))) !! name
  = bundledNativeModules (files w) !! name.
Proof.
  unfold action. intros Hfresh.
  destruct (negb (repoChecksPass options env)); [discriminate|].
  destruct (listUnpublished options).
  { destruct (fst (findUnpublishedPackagesAsync _ _ _ _)); discriminate. }
  rewrite Hfresh. cbv zeta. change (drop 0 phases) with phases. unfold phases.
  cbn [runFrom checkPackagesIntegrityPhase findUnpublishedPackagesAsync].
  destruct (mapO (findUnpublishedPackage env (Some options)) _) as [F1|e] eqn:E1;
    [|discriminate].
  cbn [runFrom choosePackagesToPublishAsync].
  destruct (mapO (choosePackage env) F1) as [F2|e] eqn:E2; [|discriminate].
  cbn [runFrom files saveBackup now backupFile].
  destruct (updateVersionsAsync F2 (Some options) env (files w))
    as [[F3|e] fs3] eqn:E3; [|discriminate].
  cbn [runFrom files saveBackup now backupFile].
  destruct (updateBundledNativeModulesFileAsync F3 (Some options) env fs3)
    as [[F4|e] fs4] eqn:E4; [|discriminate].
  cbn [runFrom exit fabricsAfter worldAfter files]. intros _ Hnot.
  pose proof (updateBundled_keeps_fabrics _ _ _ _ _ _ E4) as ->.
  apply updateVersionsAsync_inv in E3 as [-> Hframe].
  apply updateVersions_frame in Hframe as [Hbundled _].
  apply mapO_Ok_inv in E1, E2.
  eapply (bundled_modules_only_for_selected _ _ _ _ _ _ name) in E4 as [_ E4].
  - now rewrite E4, Hbundled.
  - intros f Hin Hname. specialize (Hnot f Hin Hname).
    destruct (Forall2_In_r _ _ _ _ E2 Hin) as (f1 & Hin1 & Hf).
    apply choosePackage_inv in Hf as (Hid & Hu & Hsel). rewrite Hsel.
    injection Hid as Hpkg _ _.
    destruct (isTrue (hasUnpublishedChanges (state f1))) eqn:Htrue.
    + rewrite <- Hpkg, Hname. rewrite Hu in Hnot.
      destruct (hasUnpublishedChanges (state f1)) as [[|]|]; try discriminate.
      now rewrite (Hnot eq_refl).
    + destruct (Forall2_In_r _ _ _ _ E1 Hin1) as (f0 & Hin0 & Hf0).
      apply findUnpublishedPackage_keeps in Hf0 as (_ & -> & _).
      unfold checkPackagesIntegrity, preparePackageFabricsAsync in Hin0.
      rewrite map_map in Hin0. apply in_map_iff in Hin0 as (p & <- & _).
      reflexivity.
Qed.

Lemma fresh_run_bundles_only_confirmed_changes_witness :
  bundledNativeModules
    (files (worldAfter (action Scenario.options0 (Scenario.environment Scenario.repo)
                               Scenario.world0))) !! "expo-b"
  = bundledNativeModules (files Scenario.world0) !! "expo-b".
Proof.
  apply fresh_run_bundles_only_confirmed_changes.
  - reflexivity.
  - vm_compute. reflexivity.
  - assert (H : forallb
                  (fun f => negb (String.eqb (packageName (pkg f)) "expo-b" &&
                                  isTrue (hasUnpublishedChanges (state f))))
                  (fabricsAfter (action Scenario.options0
                                        (Scenario.environment Scenario.repo)
                                        Scenario.world0)) = true)
      by (vm_compute; reflexivity).
    intros f Hin Hname Hu. exfalso.
    rewrite forallb_forall in H. specialize (H f Hin).
    rewrite Hname, Hu in H. discriminate.
Defined.

End EndToEnd.

(** ** Splitting option values and command output *)

Section Splitting.
Import Js Texts.

Lemma append_nil_right (s : string) : s ++ "" = s.
Proof. induction s as [|a s IH]; [reflexivity|]. now rewrite append_cons, IH. Qed.

Lemma isPlain_bounds a : isPlain a = true -> 33 <= code a <= 126.
Proof.
  unfold isPlain. intros H. apply andb_true_iff in H as [H1 H2].
  apply Nat.leb_le in H1, H2. lia.
Qed.

Lemma atoms_plain a r : isPlain a = true -> atoms (String a r) = Char a :: atoms r.
Proof.
  intros H. apply isPlain_bounds in H.
  assert (Hne : forall k, (k < 33 \/ 126 < k) -> (code a =? k)%nat = false)
    by (intros k Hk; apply Nat.eqb_neq; lia).
  cbn [atoms].
  assert (isAsciiSpace a = false) as ->.
  { unfold isAsciiSpace. cbv zeta. rewrite !Hne by lia. reflexivity. }
  destruct r as [|b [|c r]]; try reflexivity.
  - unfold isSpace2. now rewrite Hne by lia.
  - unfold isSpace2, isSpace3. rewrite !Hne by lia. reflexivity.
Qed.

Lemma atoms_plain_app p r : plain p = true -> atoms (p ++ r) = (chars p ++ atoms r)%list.
Proof.
  induction p as [|a p IH]; intros H; [reflexivity|].
  simpl in H. apply andb_true_iff in H as [Ha Hp].
  rewrite append_cons, atoms_plain by exact Ha. simpl. now rewrite IH.
Qed.

Lemma atoms_chars p : plain p = true -> atoms p = chars p.
Proof.
  intros H. rewrite <- (append_nil_right p) at 1.
  rewrite atoms_plain_app by exact H. simpl. apply app_nil_r.
Qed.

Lemma commaFree_plain p : commaFree p = true -> plain p = true.
Proof.
  induction p as [|a p IH]; [reflexivity|]. simpl. intros H.
  apply andb_true_iff in H as [H Hp]. apply andb_true_iff in H as [Ha _].
  now rewrite Ha, IH.
Qed.

Lemma atoms_blanks n r :
  atoms (blanks n ++ r) = (repeat (Space " ") n ++ atoms r)%list.
Proof. induction n as [|n IH]; [reflexivity|]. simpl. now rewrite <- IH. Qed.

Lemma commaFields_chars p :
  commaFree p = true ->
  forall cur skip rest,
    commaFields cur "" skip (chars p ++ rest)
    = match p with
      | EmptyString => commaFields cur "" skip rest
      | _ => commaFields (cur ++ p) "" false rest
      end.
Proof.
  induction p as [|a p IH]; intros H cur skip rest; [reflexivity|].
  simpl in H. apply andb_true_iff in H as [H Hp]. apply andb_true_iff in H as [_ Ha].
  apply negb_true_iff in Ha. cbn [chars app commaFields]. rewrite Ha.
  rewrite (IH Hp). destruct p as [|b p]; [reflexivity|].
  now rewrite append_associative.
Qed.

Lemma commaFields_separator n :
  forall cur pending rest,
    commaFields cur pending false (repeat (Space " ") n ++ Char "," :: rest)
    = cur :: commaFields "" "" true rest.
Proof.
  induction n as [|n IH]; intros cur pending rest; [reflexivity|].
  simpl. apply IH.
Qed.

Lemma commaFields_skip m :
  forall cur pending rest,
    commaFields cur pending true (repeat (Space " ") m ++ rest)
    = commaFields cur pending true rest.
Proof. induction m as [|m IH]; intros; [reflexivity|]. simpl. apply IH. Qed.

Lemma plainName_inv x :
  plainName x = true -> x <> "" /\ commaFree x = true.
Proof.
  unfold plainName. intros H. apply andb_true_iff in H as [H1 H2].
  split; [|exact H2]. apply negb_true_iff in H1. now apply eqb_string_false.
Qed.

Lemma atoms_comma r : atoms (String "," r) = Char "," :: atoms r.
Proof. now apply atoms_plain. Qed.

Lemma splitCommas_joinWith n m (names : list string) :
  names <> [] ->
  forallb plainName names = true ->
  forall skip,
    commaFields "" "" skip (atoms (joinWith (blanks n ++ "," ++ blanks m) names))
    = names.
Proof.
  induction names as [|x names IH]; intros Hne Hall skip; [congruence|].
  simpl in Hall. apply andb_true_iff in Hall as [Hx Hall].
  apply plainName_inv in Hx as [Hx Hfree].
  destruct names as [|y names].
  - simpl. rewrite atoms_chars by now apply commaFree_plain.
    rewrite <- (app_nil_r (chars x)), commaFields_chars by exact Hfree.
    destruct x; [congruence|]. simpl. now rewrite append_nil_right.
  - change (joinWith (blanks n ++ "," ++ blanks m) (x :: y :: names))
      with (x ++ (blanks n ++ "," ++ blanks m)
              ++ joinWith (blanks n ++ "," ++ blanks m) (y :: names)).
    rewrite atoms_plain_app by now apply commaFree_plain.
    rewrite !append_associative, atoms_blanks.
    change ("," ++ blanks m ++ joinWith (blanks n ++ "," ++ blanks m) (y :: names))
      with (String "," (blanks m ++ joinWith (blanks n ++ "," ++ blanks m) (y :: names))).
    rewrite atoms_comma, atoms_blanks, commaFields_chars by exact Hfree.
    destruct x as [|a x]; [congruence|].
    rewrite commaFields_separator, commaFields_skip.
    simpl append at 1. f_equal. apply IH; [discriminate | exact Hall].
Qed.

Lemma includes_In l x : includes l x = true <-> In x l.
Proof.
  unfold includes. rewrite existsb_exists. split.
  - intros (y & Hin & H). apply eqb_string_true in H. now subst.
  - intros H. exists x. split; [exact H | apply String.eqb_refl].
Qed.

End Splitting.

Section Selection.
Import Js Texts PublishPackages.

(** X14. The fields of [--scope] are exactly the names it lists: when the value
    joins non-empty names of visible characters with commas, each with any
    number of blanks before and after it, and nothing is excluded, a
    package passes the filter exactly when it is not private and its name
    is one of them. *)
Theorem scope_selects_the_listed_names
        (options : ActionOptions) (names : list string) (n m : nat)
        (isPrivate : bool) (packageName : string) :
  names <> [] ->
  forallb plainName names = true ->
  scope options = joinWith (blanks n ++ "," ++ blanks m) names ->
  exclude options = "" ->
  isListed options isPrivate packageName = true <->
  isPrivate = false /\ In packageName names.
Proof.
  intros Hne Hall Hscope Hexclude. unfold isListed, scopeList, excludeList.
  rewrite Hscope, Hexclude. unfold splitCommas at 1.
  rewrite (splitCommas_joinWith n m names Hne Hall false).
  change (splitCommas "") with [""].
  rewrite !andb_true_iff, !negb_true_iff, includes_In. split.
  - intros [[Hp Hin] _]. now split.
  - intros [-> Hin]. split; [now split|].
    destruct (includes [""] packageName) eqn:Hi; [|reflexivity].
    apply includes_In in Hi as [<- | []].
    rewrite forallb_forall in Hall. now specialize (Hall "" Hin).
Qed.

Lemma scope_selects_the_listed_names_witness :
  isListed (mkOptions false (PreFlag false) "" "expo-a , expo-b" false false false)
           false "expo-b" = true.
Proof.
  apply (scope_selects_the_listed_names _ ["expo-a"; "expo-b"] 1 1);
    [discriminate | reflexivity | reflexivity | reflexivity |].
  split; [reflexivity | right; now left].
Defined.

(** X15. With [--scope] left at its default, the empty string, the scope is the
    array holding the empty string, and no package with a name passes the
    filter. *)
Theorem default_scope_lists_no_package
        (options : ActionOptions) (isPrivate : bool) (packageName : string) :
  scope options = "" ->
  packageName <> "" ->
  isListed options isPrivate packageName = false.
Proof.
  intros Hscope Hname. unfold isListed, scopeList. rewrite Hscope.
  change (splitCommas "") with [""].
  assert (includes [""] packageName = false) as ->.
  { apply not_true_is_false. rewrite includes_In. intros [H | []]. congruence. }
  now rewrite andb_false_r.
Qed.

Lemma default_scope_lists_no_package_witness :
  isListed (mkOptions false (PreFlag false) "" "" false false false)
           false "expo-a" = false.
Proof.
  apply default_scope_lists_no_package; [reflexivity | discriminate].
Defined.

End Selection.

(** ** The text of git *)

Section GitOutput.
Import Js Texts GitText.

Lemma stripNewlines_newlines n : stripNewlines (newlines n) = "".
Proof. induction n as [|n IH]; [reflexivity|]. simpl. now rewrite IH. Qed.

Lemma stripNewlines_app s n :
  endsWithoutNewline s = true -> stripNewlines (s ++ newlines n) = s.
Proof.
  induction s as [|a s IH]; intros H; [apply stripNewlines_newlines|].
  rewrite append_cons. cbn [stripNewlines].
  destruct s as [|b s].
  - simpl in H. change ("" ++ newlines n) with (newlines n).
    rewrite stripNewlines_newlines. apply negb_true_iff in H. now rewrite H.
  - rewrite IH by exact H. reflexivity.
Qed.

(** X16. The branch name is the output of [git rev-parse] without the line
    feeds that end it, however many. *)
Theorem branch_name_drops_final_newlines (branch : string) (n : nat) :
  endsWithoutNewline branch = true ->
  getCurrentBranchNameAsync (branch ++ newlines n) = branch.
Proof. apply stripNewlines_app. Qed.

Lemma branch_name_drops_final_newlines_witness :
  getCurrentBranchNameAsync ("sdk-37" ++ newline) = "sdk-37".
Proof. apply (branch_name_drops_final_newlines "sdk-37" 1). reflexivity. Defined.

Lemma sdkDigits_Some s digits :
  sdkDigits s = Some digits <->
  s = "sdk-" ++ digits /\ digits <> "" /\ allDigits digits = true.
Proof.
  split.
  - unfold sdkDigits.
    destruct s as [|a1 [|a2 [|a3 [|a4 rest]]]]; try discriminate;
      try (destruct a1 as [[] [] [] [] [] [] [] []]; discriminate);
      try (destruct a1 as [[] [] [] [] [] [] [] []]; try discriminate;
           destruct a2 as [[] [] [] [] [] [] [] []]; discriminate);
      try (destruct a1 as [[] [] [] [] [] [] [] []]; try discriminate;
           destruct a2 as [[] [] [] [] [] [] [] []]; try discriminate;
           destruct a3 as [[] [] [] [] [] [] [] []]; discriminate).
    destruct a1 as [[] [] [] [] [] [] [] []]; try discriminate.
    destruct a2 as [[] [] [] [] [] [] [] []]; try discriminate.
    destruct a3 as [[] [] [] [] [] [] [] []]; try discriminate.
    destruct a4 as [[] [] [] [] [] [] [] []]; try discriminate.
    destruct (negb (String.eqb rest "") && allDigits rest) eqn:H; [|discriminate].
    intros [= <-]. apply andb_true_iff in H as [H1 H2].
    apply negb_true_iff, eqb_string_false in H1. auto.
  - intros (-> & Hne & Hd). apply eqb_string_false in Hne.
    unfold sdkDigits.
    change ("sdk-" ++ digits) with (String "s" (String "d" (String "k" (String "-" digits)))).
    cbv beta iota. now rewrite Hne, Hd.
Qed.

Lemma allDigits_with_sdk p digits : allDigits (p ++ "sdk-" ++ digits) = false.
Proof.
  induction p as [|a p IH]; [reflexivity|].
  rewrite append_cons. cbn [allDigits]. rewrite IH. apply andb_false_r.
Qed.

Lemma sdkDigits_inside a p digits :
  sdkDigits (String a p ++ "sdk-" ++ digits) = None.
Proof.
  destruct (sdkDigits _) as [d|] eqn:E; [|reflexivity]. exfalso.
  apply sdkDigits_Some in E as (E & _ & Hd).
  destruct p as [|a2 [|a3 [|a4 p]]]; try discriminate.
  injection E as _ _ _ _ E. change ("" ++ d) with d in E.
  rewrite <- E, allDigits_with_sdk in Hd. discriminate.
Qed.

Lemma endsOutsideWord_cons a p :
  endsOutsideWord (String a p) = true ->
  endsOutsideWord p = true /\ (p = "" -> negb (isWordChar a) = true).
Proof. destruct p as [|b p]; simpl; [auto|]. intros H. split; [exact H | discriminate]. Qed.

Lemma matchSdk_at_start s digits :
  sdkDigits s = Some digits -> matchSdk true s = Some digits.
Proof. destruct s; [discriminate|]. cbn [matchSdk]. now intros ->. Qed.

Lemma matchSdk_complete digits :
  digits <> "" -> allDigits digits = true ->
  forall pre boundary,
    endsOutsideWord pre = true -> (pre = "" -> boundary = true) ->
    matchSdk boundary (pre ++ "sdk-" ++ digits) = Some digits.
Proof.
  intros Hne Hd. induction pre as [|a pre IH]; intros boundary He Hb.
  - rewrite (Hb eq_refl). apply matchSdk_at_start. now apply sdkDigits_Some.
  - apply endsOutsideWord_cons in He as [He Ha].
    change (String a pre ++ "sdk-" ++ digits)
      with (String a (pre ++ "sdk-" ++ digits)).
    cbn [matchSdk].
    change (String a (pre ++ "sdk-" ++ digits))
      with (String a pre ++ "sdk-" ++ digits).
    rewrite sdkDigits_inside. destruct boundary; now apply IH.
Qed.

Lemma matchSdk_sound :
  forall s boundary digits,
    matchSdk boundary s = Some digits ->
    exists pre,
      s = pre ++ "sdk-" ++ digits /\ digits <> "" /\ allDigits digits = true /\
      endsOutsideWord pre = true /\ (pre = "" -> boundary = true).
Proof.
  induction s as [|a s IH]; intros boundary digits H; [discriminate|].
  cbn [matchSdk] in H.
  destruct (if boundary then sdkDigits (String a s) else None) as [d|] eqn:E.
  - injection H as ->. destruct boundary; [|discriminate].
    apply sdkDigits_Some in E as (E & Hne & Hd). exists "". auto.
  - apply IH in H as (pre & -> & Hne & Hd & He & Hb).
    exists (String a pre). repeat split; auto; [|discriminate].
    destruct pre as [|b pre]; [now apply Hb | exact He].
Qed.

(** X17. A branch name has an SDK version exactly when it ends with [sdk-] and
    one or more digits and that ending starts the name or follows a
    character that is not a letter, a digit or [_]; the version is then the
    digits as they are written, followed by [.0.0]. *)
Theorem sdk_version_iff_branch_ends_with_sdk_number
        (currentBranch version : string) :
  getSDKVersionFromBranchNameAsync currentBranch = Some version <->
  exists pre digits,
    currentBranch = pre ++ "sdk-" ++ digits /\
    digits <> "" /\ allDigits digits = true /\
    endsOutsideWord pre = true /\
    version = digits ++ ".0.0".
Proof.
  unfold getSDKVersionFromBranchNameAsync. split.
  - destruct (matchSdk true currentBranch) as [d|] eqn:E; [|discriminate].
    intros [= <-]. apply matchSdk_sound in E as (pre & -> & Hne & Hd & He & _).
    exists pre, d. auto.
  - intros (pre & digits & -> & Hne & Hd & He & ->).
    now rewrite matchSdk_complete.
Qed.

End GitOutput.

Section FileLogs.
Import Js Texts GitText PublishPackages.

Lemma spaceFields_chars p :
  forall cur inSpace rest,
    spaceFields cur inSpace (chars p ++ rest)
    = match p with
      | EmptyString => spaceFields cur inSpace rest
      | _ => spaceFields (cur ++ p) false rest
      end.
Proof.
  induction p as [|a p IH]; intros cur inSpace rest; [reflexivity|].
  cbn [chars app spaceFields]. rewrite IH. destruct p as [|b p]; [reflexivity|].
  now rewrite append_associative.
Qed.

Lemma atoms_tab r : atoms (tab ++ r) = Space tab :: atoms r.
Proof. reflexivity. Qed.

(** A text without white space is a single field. *)
Lemma splitSpaces_plain p : plain p = true -> splitSpaces p = [p].
Proof.
  intros H. unfold splitSpaces. rewrite atoms_chars by exact H.
  rewrite <- (app_nil_r (chars p)), spaceFields_chars. now destruct p.
Qed.

Lemma splitSpaces_status_path status path :
  plain status = true -> plain path = true ->
  splitSpaces (status ++ tab ++ path) = [status; path].
Proof.
  intros Hs Hp. unfold splitSpaces.
  rewrite atoms_plain_app, atoms_tab, atoms_chars by assumption.
  rewrite spaceFields_chars.
  assert (H : spaceFields status false (Space tab :: chars path) = [status; path]).
  { cbn [spaceFields]. f_equal. rewrite <- (app_nil_r (chars path)), spaceFields_chars.
    now destruct path. }
  destruct status; exact H.
Qed.

Lemma splitSpaces_three_fields status path other :
  plain status = true -> plain path = true -> path <> "" -> plain other = true ->
  splitSpaces (status ++ tab ++ path ++ tab ++ other) = [status; path; other].
Proof.
  intros Hs Hp Hne Ho. unfold splitSpaces.
  rewrite atoms_plain_app, atoms_tab, atoms_plain_app, atoms_tab, atoms_chars
    by assumption.
  rewrite spaceFields_chars.
  assert (H : spaceFields status false
                          (Space tab :: chars path ++ Space tab :: chars other)
              = [status; path; other]).
  { cbn [spaceFields]. f_equal. rewrite spaceFields_chars.
    assert (H : spaceFields path false (Space tab :: chars other) = [path; other]).
    { cbn [spaceFields]. f_equal.
      rewrite <- (app_nil_r (chars other)), spaceFields_chars. now destruct other. }
    destruct path; [congruence | exact H]. }
  destruct status; exact H.
Qed.

Lemma statusOfKey_long a rest : rest <> "" -> statusOfKey (String a rest) = None.
Proof.
  intros H. unfold statusOfKey.
  assert (E : forall b, String.eqb (String a rest) (String b "") = false).
  { intros b. apply eqb_string_false. intros [= _ ->]. congruence. }
  now rewrite !E.
Qed.

Lemma statusWord_plain s : statusWord s = true -> plain s = true.
Proof.
  induction s as [|a s IH]; [reflexivity|]. cbn [statusWord plain]. intros H.
  apply andb_true_iff in H as [Ha Hs]. rewrite (IH Hs), andb_true_r.
  unfold isStatusChar, isDigit in Ha. unfold isPlain.
  apply orb_true_iff in Ha as [Ha | Ha]; apply andb_true_iff in Ha as [Hl Hu];
    apply Nat.leb_le in Hl, Hu; apply andb_true_iff; split; apply Nat.leb_le; lia.
Qed.

(** X18. A line that reports a rename or a copy, [R100<tab>old<tab>new],
    gives the old path only, and no status: the first two fields of a line
    are read, and a status is known by its letter alone. *)
Theorem rename_line_keeps_old_path_without_status
        (join : string -> string -> string) (cwd : string)
        (letter : ascii) (score old new : string) :
  statusWord (String letter score) = true -> score <> "" ->
  plain old = true -> old <> "" -> plain new = true ->
  parseLine join cwd (String letter score ++ tab ++ old ++ tab ++ new)
  = Ok (Git.mkGitFileLog (join cwd old) old None).
Proof.
  intros Hs Hne Ho Hone Hn. apply statusWord_plain in Hs. unfold parseLine.
  rewrite splitSpaces_three_fields by assumption.
  now rewrite statusOfKey_long.
Qed.

Lemma rename_line_keeps_old_path_without_status_witness :
  parseLine path_join "packages/a" ("R100" ++ tab ++ "ios/Old.m" ++ tab ++ "ios/New.m")
  = Ok (Git.mkGitFileLog "packages/a/ios/Old.m" "ios/Old.m" None).
Proof.
  apply (rename_line_keeps_old_path_without_status
           path_join "packages/a" "R" "100" "ios/Old.m" "ios/New.m");
    [reflexivity | discriminate | reflexivity | discriminate | reflexivity].
Defined.

Lemma splitLines_nonempty s : splitLines s <> [].
Proof.
  destruct s as [|a s]; [discriminate|]. simpl.
  destruct (Ascii.eqb a "010"); [discriminate|]. now destruct (splitLines s).
Qed.

Lemma splitLines_line l rest :
  lineFree l = true -> splitLines (l ++ newline ++ rest) = l :: splitLines rest.
Proof.
  induction l as [|a l IH]; intros H; [reflexivity|].
  simpl in H. apply andb_true_iff in H as [Ha Hl]. apply negb_true_iff in Ha.
  rewrite append_cons. cbn [splitLines]. rewrite Ha, (IH Hl). reflexivity.
Qed.

Lemma lineFree_app a b : lineFree a = true -> lineFree b = true -> lineFree (a ++ b) = true.
Proof.
  induction a as [|x a IH]; intros Ha Hb; [exact Hb|].
  simpl in Ha. apply andb_true_iff in Ha as [Hx Ha].
  rewrite append_cons. simpl. now rewrite Hx, IH.
Qed.

Lemma plain_lineFree p : plain p = true -> lineFree p = true.
Proof.
  induction p as [|a p IH]; [reflexivity|]. simpl. intros H.
  apply andb_true_iff in H as [Ha Hp]. rewrite (IH Hp), andb_true_r.
  apply negb_true_iff, Ascii.eqb_neq. intros ->. discriminate.
Qed.

Lemma truthy_line status path : truthy (status ++ tab ++ path) = true.
Proof.
  unfold truthy. apply negb_true_iff, eqb_string_false.
  destruct status; discriminate.
Qed.

Lemma parseFileLogs_lines (entries : list (string * string)) :
  Forall (fun e => plain (fst e) = true /\ plain (snd e) = true) entries ->
  List.filter truthy
              (splitLines (concatAll (map (fun e => statusLine (fst e) (snd e)) entries)))
  = map (fun e => fst e ++ tab ++ snd e) entries.
Proof.
  induction 1 as [|[status path] entries [Hs Hp] _ IH]; [reflexivity|].
  cbn [map concatAll fst snd]. unfold statusLine at 1.
  rewrite !append_associative.
  rewrite <- (append_associative status tab), <- (append_associative (status ++ tab) path).
  rewrite splitLines_line.
  - cbn [List.filter]. rewrite append_associative, truthy_line. now rewrite IH.
  - apply lineFree_app; [apply lineFree_app|];
      [now apply plain_lineFree | reflexivity | now apply plain_lineFree].
Qed.

(** X19. Reading back the lines [status<tab>path] of entries whose
    statuses are made of upper-case letters and digits and whose paths hold
    no white space gives one file log per line, in order, with that path as
    [relativePath], joined to the working directory as [path], and the
    status the key stands for, if any. *)
Theorem file_logs_of_name_status_lines
        (join : string -> string -> string) (cwd : string)
        (entries : list (string * string)) :
  Forall (fun e => statusWord (fst e) = true /\ plain (snd e) = true) entries ->
  parseFileLogs join cwd
                (concatAll (map (fun e => statusLine (fst e) (snd e)) entries))
  = Ok (map (fun e => Git.mkGitFileLog (join cwd (snd e)) (snd e)
                                       (statusOfKey (fst e)))
            entries).
Proof.
  intros H0.
  assert (H : Forall (fun e => plain (fst e) = true /\ plain (snd e) = true) entries).
  { eapply Forall_impl; [exact H0|]. intros e [Hs Hp]. split; [|exact Hp].
    now apply statusWord_plain. }
  clear H0. unfold parseFileLogs. rewrite (parseFileLogs_lines entries H).
  induction H as [|[status path] entries [Hs Hp] _ IH]; [reflexivity|].
  cbn [map mapO fst snd]. unfold parseLine at 1.
  rewrite splitSpaces_status_path by assumption. cbn [bindO].
  now rewrite IH.
Qed.

Lemma file_logs_of_name_status_lines_witness :
  parseFileLogs path_join "packages/a"
                (concatAll [statusLine "M" "ios/Foo.m"; statusLine "A" "src/index.ts"])
  = Ok [Git.mkGitFileLog "packages/a/ios/Foo.m" "ios/Foo.m" (Some Git.M);
        Git.mkGitFileLog "packages/a/src/index.ts" "src/index.ts" (Some Git.A)].
Proof.
  apply (file_logs_of_name_status_lines path_join "packages/a"
           [("M", "ios/Foo.m"); ("A", "src/index.ts")]).
  repeat constructor.
Defined.

Lemma mapO_Thrown {A B : Type} (f : A -> Outcome B) (l : list A) (x : A) (e : string) :
  In x l -> f x = Thrown e -> exists e', mapO f l = Thrown e'.
Proof.
  induction l as [|a l IH]; intros Hin Hx; [destruct Hin|]. simpl.
  destruct Hin as [-> | Hin].
  - rewrite Hx. simpl. eauto.
  - destruct (f a); simpl; [|eauto].
    destruct (IH Hin Hx) as [e' ->]. simpl. eauto.
Qed.

(** X20. A non-empty line of the output that holds no white space, hence no
    path, makes [logFilesAsync] raise instead of returning the other
    lines. *)
Theorem line_without_path_raises
        (join : string -> string -> string) (cwd stdout line : string) :
  In line (splitLines stdout) ->
  line <> "" -> plain line = true ->
  exists error, parseFileLogs join cwd stdout = Thrown error.
Proof.
  intros Hin Hne Hp. unfold parseFileLogs.
  apply (mapO_Thrown _ _ line "TypeError").
  - apply filter_In. split; [exact Hin|].
    unfold truthy. now apply negb_true_iff, eqb_string_false.
  - unfold parseLine. now rewrite splitSpaces_plain.
Qed.

Lemma line_without_path_raises_witness :
  exists error,
    parseFileLogs path_join "packages/a"
                  (statusLine "M" "ios/Foo.m" ++ "warning" ++ newline)
    = Thrown error.
Proof.
  apply (line_without_path_raises path_join "packages/a" _ "warning");
    [right; now left | discriminate | reflexivity].
Defined.

End FileLogs.

(** ** Detection of changes, and retrying *)

Section Detection.
Import PublishPackages Packages.

(** X21. When an iteration of phase 1 returns, the package is marked as having
    unpublished changes exactly when the commit log it keeps is not empty
    or the unreleased section of its changelog has an entry; the mark is
    always assigned. *)
Theorem unpublished_iff_commits_or_entries
        (env : Environment) (options : option ActionOptions) (f f' : PackageFabric)
        (tokens : list Markdown.Token) (changes : Changelogs.ChangelogChanges)
        (allLogs : list Git.GitLog) :
  changelogTokens env (filePath (changelog f)) = Some tokens ->
  Changelogs.getChangesAsync tokens None None = Ok changes ->
  Git.logAsync (repository env) (path (pkg f))
               (gitHead (packageJson (pkg f))) (Some "head") = Ok allLogs ->
  findUnpublishedPackage env options f = Ok f' ->
  (hasUnpublishedChanges (state f') = Some true \/
   hasUnpublishedChanges (state f') = Some false) /\
  (hasUnpublishedChanges (state f') = Some true <->
   unpublishedLogs (gitHead (packageJson (pkg f))) allLogs <> [] \/
   0 < Changelogs.totalCount changes).
Proof.
  intros Ht Hc Hl. unfold findUnpublishedPackage.
  rewrite Ht. cbn [bindO]. rewrite Hc. cbn [bindO]. rewrite Hl. cbn [bindO].
  intros H. apply bindO_Ok in H as (fileLog & _ & H). cbv zeta in H.
  assert (Hu : hasUnpublishedChanges (state f')
               = Some (negb (Nat.eqb (length (unpublishedLogs
                                                (gitHead (packageJson (pkg f))) allLogs)) 0)
                       || negb (Nat.eqb (Changelogs.totalCount changes) 0))).
  { destruct (getSuggestedReleaseType _ _ _ _) as [t|];
      [destruct (Semver.inc _ _ _) as [v|];
       [destruct (truthy v);
        [destruct options as [o|]; [destruct (prereleaseIdentifier o)|discriminate]|]|]|];
      injection H as <-; reflexivity. }
  rewrite Hu. clear Hu H.
  destruct (unpublishedLogs _ allLogs) as [|c kept];
    destruct (Changelogs.totalCount changes) as [|n]; simpl;
    (split; [auto|]); split; auto; try (intros _; auto; lia);
    try (intros [H | H]; [congruence | lia]); discriminate.
Qed.

Lemma unpublished_iff_commits_or_entries_witness :
  exists f',
    findUnpublishedPackage (Scenario.environment Scenario.repo)
                           (Some Scenario.options0) Scenario.fabricA = Ok f' /\
    hasUnpublishedChanges (state f') = Some true.
Proof.
  assert (E : exists f',
             findUnpublishedPackage (Scenario.environment Scenario.repo)
                                    (Some Scenario.options0) Scenario.fabricA = Ok f')
    by (vm_compute; eexists; reflexivity).
  assert (C : exists changes,
             Changelogs.getChangesAsync Scenario.changelogA None None = Ok changes)
    by (vm_compute; eexists; reflexivity).
  destruct E as [f' E], C as [changes C]. exists f'. split; [exact E|].
  apply (proj2 (unpublished_iff_commits_or_entries
                  (Scenario.environment Scenario.repo) (Some Scenario.options0)
                  Scenario.fabricA f' Scenario.changelogA changes
                  [Scenario.commit3; Scenario.commit2; Scenario.commit1]
                  eq_refl C eq_refl E)).
  left. discriminate.
Defined.

End Detection.

Section Retry.
Import PublishPackages Packages.




End Retry.

(** ** The authorization request *)

Section AuthorizationRequest.
Import ExpoAuthorizationRequest.

Lemma truthy_iff s : truthy s = true <-> s <> "".
Proof.
  unfold truthy. rewrite negb_true_iff. apply eqb_string_false.
Qed.

(** X23. When a request held no usable code verifier and holds one after
    [setupCodeVerifier], its extras hold the challenge derived from that
    very verifier, together with the method [S256]. *)
Theorem challenge_is_derived_from_stored_verifier
        (crypto : Crypto) (this : Request) (calls : nat) :
  truthyO (codeVerifier this) = false ->
  truthyO (codeVerifier (fst (setupCodeVerifier crypto this calls))) = true ->
  exists verifier,
    codeVerifier (fst (setupCodeVerifier crypto this calls)) = Some verifier /\
    extra (fst (setupCodeVerifier crypto this calls)) "code_challenge"
    = deriveChallenge crypto verifier /\
    extra (fst (setupCodeVerifier crypto this calls)) "code_challenge_method"
    = Some "S256".
Proof.
  unfold setupCodeVerifier. intros Hno.
  destruct (state this) as [s|];
    cbv beta iota zeta;
    (change (codeVerifier (mkRequest _ _ _ _ _ _ (internal this) _))
       with (codeVerifier this) || idtac);
    rewrite ?Hno.
  all: destruct (usePkce this); cbn [usePkce negb orb];
    [|cbn [fst]; unfold codeVerifier at 1; cbn [internal];
      fold (codeVerifier this); now rewrite Hno].
  all: destruct (deriveChallenge crypto _) as [result|] eqn:Hd;
    [destruct (truthy result) eqn:Ht|];
    cbn [fst]; try (unfold codeVerifier at 1; cbn [internal];
                    fold (codeVerifier this); now rewrite Hno).
  all: intros _; eexists; unfold codeVerifier, extra; cbn [internal extras mbind option_bind];
    rewrite lookup_insert_eq; split; [reflexivity|];
    rewrite lookup_insert_ne by discriminate; rewrite !lookup_insert_eq;
    split; [now rewrite Hd | reflexivity].
Qed.

Lemma challenge_is_derived_from_stored_verifier_witness :
  exists verifier,
    codeVerifier (fst (setupCodeVerifier sampleCrypto sampleRequest 0)) = Some verifier /\
    extra (fst (setupCodeVerifier sampleCrypto sampleRequest 0)) "code_challenge"
    = deriveChallenge sampleCrypto verifier /\
    extra (fst (setupCodeVerifier sampleCrypto sampleRequest 0)) "code_challenge_method"
    = Some "S256".
Proof.
  apply challenge_is_derived_from_stored_verifier; vm_compute; reflexivity.
Defined.

Lemma setupCodeVerifier_settled (crypto : Crypto) (this : Request) (calls : nat) :
  is_Some (state this) ->
  usePkce this = false \/ truthyO (codeVerifier this) = true ->
  setupCodeVerifier crypto this calls = (this, calls).
Proof.
  intros [s Hs] H. unfold setupCodeVerifier. rewrite Hs.
  destruct H as [-> | ->]; [reflexivity | now rewrite orb_true_r].
Qed.

Lemma setupCodeVerifier_settles (crypto : Crypto) (this : Request) (calls : nat) :
  dependable crypto ->
  is_Some (state (fst (setupCodeVerifier crypto this calls))) /\
  (usePkce (fst (setupCodeVerifier crypto this calls)) = false \/
   truthyO (codeVerifier (fst (setupCodeVerifier crypto this calls))) = true).
Proof.
  intros [Hrandom Hderive]. unfold setupCodeVerifier.
  destruct (state this) as [s|] eqn:Hs; cbv beta iota zeta.
  all: destruct (usePkce this) eqn:Hp; cbn [usePkce negb orb];
    [|cbn [fst state usePkce]; rewrite ?Hs; eauto].
  all: match goal with
       | |- context [truthyO (codeVerifier ?r)] =>
           destruct (truthyO (codeVerifier r)) eqn:Hv
       end;
    [cbn [fst state]; rewrite ?Hs; eauto|].
  all: match goal with
       | |- context [deriveChallenge _ ?v] =>
           destruct (Hderive v) as (result & -> & Hne)
       end;
    apply truthy_iff in Hne; rewrite Hne; cbn [fst state]; rewrite ?Hs;
    (split; [eauto|]); right;
    unfold codeVerifier; cbn [internal mbind option_bind];
    rewrite lookup_insert_eq; cbn [truthyO]; apply truthy_iff, Hrandom.
Qed.

(** X24. With a crypto provider whose random strings are non-empty and whose
    challenges are always derived, a second [toJson] returns the same
    object as the first, leaves the request as it is and asks for no
    further random string: the state and the code verifier are drawn
    once. *)
Theorem toJson_twice_is_toJson_once
        (crypto : Crypto) (this : Request) (calls : nat) :
  dependable crypto ->
  toJson crypto (snd (fst (toJson crypto this calls))) (snd (toJson crypto this calls))
  = toJson crypto this calls.
Proof.
  intros Hd. unfold toJson.
  destruct (setupCodeVerifier_settles crypto this calls Hd) as [Hs Hv].
  destruct (setupCodeVerifier crypto this calls) as [this1 calls1] eqn:E.
  cbn [fst snd] in *. now rewrite setupCodeVerifier_settled.
Qed.

Lemma toJson_twice_is_toJson_once_witness :
  toJson sampleCrypto (snd (fst (toJson sampleCrypto sampleRequest 0)))
         (snd (toJson sampleCrypto sampleRequest 0))
  = toJson sampleCrypto sampleRequest 0.
Proof.
  apply toJson_twice_is_toJson_once. split.
  - intros n size. discriminate.
  - intros verifier. eexists. split; [reflexivity | discriminate].
Defined.

(** X25. A request that already holds a usable code verifier gets no code
    challenge: [setupCodeVerifier] leaves its extras and its internal
    values as they are, keeps a state it has and draws a missing one. *)
Theorem own_verifier_gets_no_challenge
        (crypto : Crypto) (this : Request) (calls : nat) :
  truthyO (codeVerifier this) = true ->
  extras (fst (setupCodeVerifier crypto this calls)) = extras this /\
  internal (fst (setupCodeVerifier crypto this calls)) = internal this /\
  state (fst (setupCodeVerifier crypto this calls))
  = Some (default (generateRandom crypto calls SIZE) (state this)).
Proof.
  intros Hv. unfold setupCodeVerifier.
  destruct (state this) as [s|] eqn:Hs; cbv beta iota zeta.
  - rewrite Hv, orb_true_r. cbn [fst]. now rewrite Hs.
  - change (codeVerifier (mkRequest _ _ _ _ _ _ (internal this) _))
      with (codeVerifier this).
    rewrite Hv, orb_true_r. cbn [fst]. auto.
Qed.

Lemma own_verifier_gets_no_challenge_witness :
  extras (fst (setupCodeVerifier sampleCrypto requestWithVerifier 0)) = None.
Proof.
  exact (proj1 (own_verifier_gets_no_challenge sampleCrypto requestWithVerifier 0
                                               eq_refl)).
Defined.

End AuthorizationRequest.
